(** * qlib.contrib.backtest: hierarchical executors

    A shallow embedding of [qlib/contrib/backtest/executor.py] and of
    [get_exchange] from [qlib/contrib/backtest/__init__.py].

    Python objects that the executors only hold references to (exchange,
    account, strategy, order) live in a heap of attribute tables and are
    reached through their address; their methods, whose code is in other
    modules, are the fields of the class [Collaborators].  The executor
    objects themselves form a tree (a [SplitExecutor] owns its inner
    executor); every method is a state transformer over the receiver and
    the world, and every completed call on a collaborator is appended to
    the world's call trace. *)

From stdpp Require Import gmap strings list pretty.

Set Default Proof Using "Type".
Open Scope string_scope.
Open Scope list_scope.
Open Scope nat_scope.

(** ** Python values and the heap *)

Definition addr := positive.

Inductive PyVal :=
| VNone
| VBool (b : bool)
| VInt (z : Z)
| VStr (s : string)
| VRef (a : addr).

Global Instance PyVal_eq_dec : EqDecision PyVal.
Proof. solve_decision. Defined.

(** Python's [==] on the values above: [bool] is a subclass of [int], objects
    compare by identity. *)
Definition py_eq (x y : PyVal) : bool :=
  match x, y with
  | VBool b, VInt z | VInt z, VBool b => Z.eqb (Z.b2z b) z
  | _, _ => bool_decide (x = y)
  end.

(** [x is True] *)
Definition is_True (x : PyVal) : bool :=
  match x with VBool true => true | _ => false end.

(** An object is its table of instance attributes (for a [dict], of keys). *)
Abbreviation PyObj := (gmap string PyVal).
Abbreviation Heap := (gmap addr PyObj).

(** [obj.name = v], and [d[name] = v] for a dict, on the heap: the attribute is rebound in the table of
    [a]. *)
Definition setattr (a : addr) (name : string) (v : PyVal) (h : Heap) : Heap :=
  alter (<[name := v]>) a h.

(** Exceptions raised by the code modelled here, and [Foreign] for one that
    was raised inside the code of another module and passes through. *)
Inductive Exn :=
| NotImplementedError (msg : string)
| AttributeError (name : string)
| IndexError (msg : string)
| TypeError (msg : string)
| Foreign (msg : string).

Global Instance Exn_eq_dec : EqDecision Exn.
Proof. solve_decision. Defined.

(** What a call into another module gives back. *)
Inductive Ret (A : Type) :=
| Returns (a : A)
| Raises (msg : string).
Arguments Returns {A} a.
Arguments Raises {A} msg.

Abbreviation Op A := (Heap → Ret A * Heap).

(** ** Results of the executor's own methods *)

Inductive Res (A : Type) :=
| Ok (a : A)
| Raise (e : Exn)
| OutOfFuel.
Arguments Ok {A} a.
Arguments Raise {A} e.
Arguments OutOfFuel {A}.

(** A state-and-exception monad; the state survives an exception, as the
    attributes of a Python object do. *)
Definition ST (S A : Type) : Type := S → Res A * S.

Definition st_ret {S A} (a : A) : ST S A := λ s, (Ok a, s).

Definition st_bind {S A B} (m : ST S A) (k : A → ST S B) : ST S B :=
  λ s, match m s with
       | (Ok a, s') => k a s'
       | (Raise e, s') => (Raise e, s')
       | (OutOfFuel, s') => (OutOfFuel, s')
       end.

Definition raise {S A} (e : Exn) : ST S A := λ s, (Raise e, s).
Definition out_of_fuel {S A} : ST S A := λ s, (OutOfFuel, s).
Definition modify {S} (f : S → S) : ST S unit := λ s, (Ok tt, f s).

Declare Scope st_scope.
Delimit Scope st_scope with st.
Notation "'do' x <- m ; k" := (st_bind m (λ x, k))
  (at level 10, x name, m at level 100, k at level 200,
   format "'[v' 'do'  x  <-  m ; '/' k ']'") : st_scope.
Notation "'do' ' p <- m ; k" := (st_bind m (λ x, match x with p => k end))
  (at level 10, p pattern, m at level 100, k at level 200,
   format "'[v' 'do'  ' p  <-  m ; '/' k ']'") : st_scope.
Notation "m ;; k" := (st_bind m (λ _, k))
  (at level 100, k at level 200, right associativity) : st_scope.
Open Scope st_scope.

(** Run [m] on the second component of a pair state. *)
Definition on_snd {X S A} (m : ST S A) : ST (X * S) A :=
  λ '(x, s), let '(r, s') := m s in (r, (x, s')).

(** Run [m] on the first component of a pair state. *)
Definition on_fst {X S A} (m : ST X A) : ST (X * S) A :=
  λ '(x, s), let '(r, x') := m x in (r, (x', s)).

(** ** The trade calendar *)

(** Modelled from the spec: [TradeCalendarManager] of [backtest/utils.py],
    which is not part of the sources at hand.  The spec's TradeCalendar
    "enumerates discrete trading bars between a start and end timestamp at a
    configured frequency" and owns [current_index], "0-based, monotonically
    non-decreasing, capped at [bar_count]"; [finished()] holds "iff
    [current_index == bar_count]"; [step()] "increments index" and "fails
    with CalendarExhausted if already finished"; the bar bounds asked for
    are those "of the bar at [current_index - 1] (the bar just stepped
    into) or the upcoming bar if queried before any step". *)
Record Calendar := {
  cal_freq : string;
  cal_bars : list (PyVal * PyVal);
  current_index : nat;
}.

Definition bar_count (c : Calendar) : nat := length (cal_bars c).

Definition calendar_finished (c : Calendar) : bool :=
  Nat.eqb (current_index c) (bar_count c).

Definition calendar_step (c : Calendar) : Ret Calendar :=
  if calendar_finished c then Raises "CalendarExhausted"
  else Returns {| cal_freq := cal_freq c; cal_bars := cal_bars c;
                  current_index := S (current_index c) |}.

Definition get_trade_index (c : Calendar) : nat := current_index c.

Definition get_calendar_time (c : Calendar) (trade_index : nat)
  : Ret (PyVal * PyVal) :=
  match cal_bars c !! pred trade_index with
  | Some bar => Returns bar
  | None => Raises "IndexError"
  end.

(** ** Executors, the world and the collaborators *)

Abbreviation Decision := (list PyVal).

(** [(order, trade_val, trade_cost, trade_price)] *)
Abbreviation Entry := (PyVal * PyVal * PyVal * PyVal)%type.

(** The instance attributes set by [BaseExecutor] and its subclasses; an
    attribute that may be missing ([hasattr]) is an option. *)
Record Attrs := {
  time_per_step : string;
  generate_report : bool;
  verbose : bool;
  track_data : bool;
  calendar : Calendar;
  common_infra : option (gmap string PyVal);
  trade_account : option PyVal;
  trade_exchange : option PyVal;
}.

Definition set_calendar (c : Calendar) (a : Attrs) : Attrs :=
  {| time_per_step := time_per_step a; generate_report := generate_report a;
     verbose := verbose a; track_data := track_data a; calendar := c;
     common_infra := common_infra a; trade_account := trade_account a;
     trade_exchange := trade_exchange a |}.

Definition set_track_data (b : bool) (a : Attrs) : Attrs :=
  {| time_per_step := time_per_step a; generate_report := generate_report a;
     verbose := verbose a; track_data := b; calendar := calendar a;
     common_infra := common_infra a; trade_account := trade_account a;
     trade_exchange := trade_exchange a |}.

Definition set_common_infra (ci : gmap string PyVal) (a : Attrs) : Attrs :=
  {| time_per_step := time_per_step a; generate_report := generate_report a;
     verbose := verbose a; track_data := track_data a; calendar := calendar a;
     common_infra := Some ci; trade_account := trade_account a;
     trade_exchange := trade_exchange a |}.

Definition set_trade_account (v : PyVal) (a : Attrs) : Attrs :=
  {| time_per_step := time_per_step a; generate_report := generate_report a;
     verbose := verbose a; track_data := track_data a; calendar := calendar a;
     common_infra := common_infra a; trade_account := Some v;
     trade_exchange := trade_exchange a |}.

Definition set_trade_exchange (v : PyVal) (a : Attrs) : Attrs :=
  {| time_per_step := time_per_step a; generate_report := generate_report a;
     verbose := verbose a; track_data := track_data a; calendar := calendar a;
     common_infra := common_infra a; trade_account := trade_account a;
     trade_exchange := Some v |}.

(** The class of an executor object is the constructor; a [SplitExecutor]
    holds its inner executor and a reference to its inner strategy. *)
Inductive Executor :=
| BaseExecutor (self : Attrs)
| SimulatorExecutor (self : Attrs)
| SplitExecutor (self : Attrs) (inner_executor : Executor) (inner_strategy : PyVal).

Definition attrs (ex : Executor) : Attrs :=
  match ex with
  | BaseExecutor a | SimulatorExecutor a | SplitExecutor a _ _ => a
  end.

Definition with_attrs (a : Attrs) (ex : Executor) : Executor :=
  match ex with
  | BaseExecutor _ => BaseExecutor a
  | SimulatorExecutor _ => SimulatorExecutor a
  | SplitExecutor _ i s => SplitExecutor a i s
  end.

(** What [print] writes when [verbose] is set: which of the three messages,
    and the values that are formatted into it (the formatting itself is not
    modelled). *)
Inductive Message :=
| MsgSell (date stock_id price amount deal_amount factor value : PyVal)
| MsgBuy (date stock_id price amount deal_amount factor value : PyVal)
| MsgWrong (date stock_id : PyVal).

(** Completed calls on objects outside the executor, in program order. *)
Inductive Event :=
| CheckOrder (exchange : addr) (order : PyVal) (result : PyVal)
| DealOrder (exchange : addr) (order account : PyVal)
    (result : PyVal * PyVal * PyVal)
| AccountReset (account : addr) (freq : string) (init_report : bool)
| UpdateBarCount (account : addr)
| UpdateBarReport (account : addr) (trade_start_time trade_end_time : PyVal)
    (exchange : PyVal)
| GenerateReportDataframe (account : addr) (result : PyVal)
| GetPositions (account : addr) (result : PyVal)
| StrategyResetCommonInfra (strategy : addr) (infra : gmap string PyVal)
| StrategyReset (strategy : addr) (level_infra : Calendar)
    (outer_trade_decision : Decision)
| GenerateTradeDecision (strategy : addr) (execute_result : option (list Entry))
    (result : Decision)
| Print (msg : Message).

Record World := { heap : Heap; trace : list Event }.

(** Methods and constants of modules that are not part of the sources at
    hand; the executor's behaviour is stated for every implementation. *)
Class Collaborators := {
  (* exchange.py, class Exchange *)
  check_order : addr → PyVal → Op PyVal;
  deal_order : addr → PyVal → PyVal → Op (PyVal * PyVal * PyVal);
  (* account.py, class Account *)
  account_reset : addr → string → bool → Op unit;
  update_bar_count : addr → Op unit;
  update_bar_report : addr → PyVal → PyVal → PyVal → Op unit;
  generate_report_dataframe : addr → Op PyVal;
  get_positions : addr → Op PyVal;
  (* strategy/base.py, class BaseStrategy; the strategy reads the calendar
     of its level through the reference it was given in [level_infra] *)
  strategy_reset_common_infra : addr → gmap string PyVal → Op unit;
  strategy_reset : addr → Calendar → Decision → Op unit;
  generate_trade_decision : addr → Calendar → option (list Entry) → Op Decision;
  (* order.py *)
  Order_SELL : PyVal;
  (* utils/resam.py *)
  parse_freq : string → Ret (Z * string);
  (* the bars that TradeCalendarManager(freq, start_time, end_time)
     enumerates *)
  calendar_bars : string → PyVal → PyVal → Ret (list (PyVal * PyVal));
}.

(** Code over the world only, over the attributes of [self] and the world,
    and over an executor object with all it owns and the world *)
Abbreviation W := (ST World).
Abbreviation M := (ST (Attrs * World)).
Abbreviation E := (ST (Executor * World)).

Section Executors.
Context `{Collaborators}.

Definition pure_ret {S A} (r : Ret A) : ST S A :=
  match r with Returns a => st_ret a | Raises msg => raise (Foreign msg) end.

Definition print (m : Message) : W unit :=
  λ w, (Ok tt, {| heap := heap w; trace := trace w ++ [Print m] |}).

(** [obj.name] for an object of the heap *)
Definition getattr (obj : PyVal) (name : string) : W PyVal :=
  λ w, match obj with
       | VRef a =>
           match heap w !! a ≫= (.!! name) with
           | Some v => (Ok v, w)
           | None => (Raise (AttributeError name), w)
           end
       | _ => (Raise (AttributeError name), w)
       end.

(** [self.name] for an attribute that may be missing *)
Definition self_attr {A} (name : string) (f : Attrs → option A) : M A :=
  λ s, match f (fst s) with
       | Some v => (Ok v, s)
       | None => (Raise (AttributeError name), s)
       end.

Definition self_get {A} (f : Attrs → A) : M A := λ s, (Ok (f (fst s)), s).
Definition self_set (f : Attrs → Attrs) : M unit := on_fst (modify f).

(** [self.calendar.step()] *)
Definition self_calendar_step : M unit :=
  do c <- self_get calendar;
  do c' <- pure_ret (calendar_step c);
  self_set (set_calendar c').

(** [trade_index = self.calendar.get_trade_index()] followed by
    [self.calendar.get_calendar_time(trade_index)] *)
Definition self_trade_time : M (PyVal * PyVal) :=
  do c <- self_get calendar;
  pure_ret (get_calendar_time c (get_trade_index c)).

(** The receiver of a method call must be an object. *)
Definition method {S} (meth : string) (recv : PyVal) : ST S addr :=
  match recv with
  | VRef a => st_ret a
  | _ => raise (AttributeError meth)
  end.

(** Run a collaborator's method on the heap and record the completed call. *)
Definition invoke {A} (op : Op A) (ev : A → Event) : W A :=
  λ w, match op (heap w) with
       | (Returns x, h) => (Ok x, {| heap := h; trace := trace w ++ [ev x] |})
       | (Raises msg, h) => (Raise (Foreign msg), {| heap := h; trace := trace w |})
       end.

(** *** [SimulatorExecutor.execute] *)

(** The body of [for order in trade_decision], with the list built so far. *)
Fixpoint deal_orders (trade_start_time : PyVal) (orders : Decision)
    (execute_result : list Entry) : M (list Entry) :=
  match orders with
  | [] => st_ret execute_result
  | order :: orders =>
      do x <- self_attr "trade_exchange" trade_exchange;
      do xa <- method "check_order" x;
      do ok <- on_snd (invoke (check_order xa order) (CheckOrder xa order));
      if is_True ok then
        do x <- self_attr "trade_exchange" trade_exchange;
        do xa <- method "deal_order" x;
        do acct <- self_attr "trade_account" trade_account;
        do '(trade_val, trade_cost, trade_price) <-
           on_snd (invoke (deal_order xa order acct) (DealOrder xa order acct));
        let execute_result :=
          execute_result ++ [(order, trade_val, trade_cost, trade_price)] in
        do v <- self_get verbose;
        (if v then
           do direction <- on_snd (getattr order "direction");
           do stock_id <- on_snd (getattr order "stock_id");
           do amount <- on_snd (getattr order "amount");
           do deal_amount <- on_snd (getattr order "deal_amount");
           do factor <- on_snd (getattr order "factor");
           if py_eq direction Order_SELL then
             on_snd (print (MsgSell trade_start_time stock_id trade_price
                              amount deal_amount factor trade_val))
           else
             on_snd (print (MsgBuy trade_start_time stock_id trade_price
                              amount deal_amount factor trade_val))
         else st_ret tt);;
        deal_orders trade_start_time orders execute_result
      else
        do v <- self_get verbose;
        (if v then
           do stock_id <- on_snd (getattr order "stock_id");
           on_snd (print (MsgWrong trade_start_time stock_id))
         else st_ret tt);;
        deal_orders trade_start_time orders execute_result
  end.

Definition simulator_execute (trade_decision : Decision) : M (list Entry) :=
  self_calendar_step;;
  do '(trade_start_time, trade_end_time) <- self_trade_time;
  do execute_result <- deal_orders trade_start_time trade_decision [];
  do acct <- self_attr "trade_account" trade_account;
  do a <- method "update_bar_count" acct;
  on_snd (invoke (update_bar_count a) (λ _, UpdateBarCount a));;
  do g <- self_get generate_report;
  (if g then
     do acct <- self_attr "trade_account" trade_account;
     do a <- method "update_bar_report" acct;
     do x <- self_attr "trade_exchange" trade_exchange;
     on_snd (invoke (update_bar_report a trade_start_time trade_end_time x)
               (λ _, UpdateBarReport a trade_start_time trade_end_time x))
   else st_ret tt);;
  st_ret execute_result.

(** *** [reset_common_infra] and [reset] *)

(** [copy.copy]: a new object with the same attribute table (the values of
    the attributes are not copied); an immutable value is its own copy. *)
Definition copy_copy (v : PyVal) : W PyVal :=
  match v with
  | VRef a =>
      λ w, match heap w !! a with
           | Some o =>
               let a' := fresh (dom (heap w)) in
               (Ok (VRef a'), {| heap := <[a' := o]> (heap w); trace := trace w |})
           | None => (Raise (Foreign "dangling reference"), w)
           end
  | _ => st_ret v
  end.

(** [BaseExecutor.reset_common_infra]; [dict.update] lets the new entries
    win. *)
Definition base_reset_common_infra (infra : gmap string PyVal) : M unit :=
  do old <- self_get common_infra;
  self_set (set_common_infra (match old with
                              | None => infra
                              | Some m => infra ∪ m
                              end));;
  match infra !! "trade_account" with
  | Some v =>
      do v' <- on_snd (copy_copy v);
      self_set (set_trade_account v');;
      do acct <- self_attr "trade_account" trade_account;
      do a <- method "reset" acct;
      do freq <- self_get time_per_step;
      on_snd (invoke (account_reset a freq true) (λ _, AccountReset a freq true))
  | None => st_ret tt
  end.

(** The part of [SimulatorExecutor.reset_common_infra] on its own attributes *)
Definition simulator_reset_common_infra (infra : gmap string PyVal) : M unit :=
  base_reset_common_infra infra;;
  match infra !! "trade_exchange" with
  | Some x => self_set (set_trade_exchange x)
  | None => st_ret tt
  end.

(** The part of [SplitExecutor.reset_common_infra] on its own attributes *)
Definition split_reset_common_infra (infra : gmap string PyVal) : M unit :=
  base_reset_common_infra infra;;
  do g <- self_get generate_report;
  match infra !! "trade_exchange" with
  | Some x => if g then self_set (set_trade_exchange x) else st_ret tt
  | None => st_ret tt
  end.

(** [reset_common_infra], dispatched on the class of the receiver; the split
    executor goes on to its inner executor and then to its inner strategy. *)
Fixpoint reset_common_infra_at (ex : Executor) (infra : gmap string PyVal)
    (w : World) : Res unit * (Executor * World) :=
  match ex with
  | BaseExecutor self =>
      let '(r, (self, w)) := base_reset_common_infra infra (self, w) in
      (r, (BaseExecutor self, w))
  | SimulatorExecutor self =>
      let '(r, (self, w)) := simulator_reset_common_infra infra (self, w) in
      (r, (SimulatorExecutor self, w))
  | SplitExecutor self inner strategy =>
      match split_reset_common_infra infra (self, w) with
      | (Ok _, (self, w)) =>
          match reset_common_infra_at inner infra w with
          | (Ok _, (inner, w)) =>
              let '(r, w) :=
                (do σ <- method "reset_common_infra" strategy;
                 invoke (strategy_reset_common_infra σ infra)
                   (λ _, StrategyResetCommonInfra σ infra)) w in
              (r, (SplitExecutor self inner strategy, w))
          | (r, (inner, w)) => (r, (SplitExecutor self inner strategy, w))
          end
      | (r, (self, w)) => (r, (SplitExecutor self inner strategy, w))
      end
  end.

Definition reset_common_infra (infra : gmap string PyVal) : E unit :=
  λ '(ex, w), reset_common_infra_at ex infra w.

(** Lift a method on the receiver's own attributes. *)
Definition on_self {A} (m : M A) : E A :=
  λ '(ex, w), let '(r, (a, w')) := m (attrs ex, w) in (r, (with_attrs a ex, w')).

(** Run a method of [self.inner_executor]. *)
Definition on_inner {A} (m : E A) : E A :=
  λ '(ex, w),
    match ex with
    | SplitExecutor a inner s =>
        let '(r, (inner', w')) := m (inner, w) in (r, (SplitExecutor a inner' s, w'))
    | _ => (Raise (AttributeError "inner_executor"), (ex, w))
    end.

(** [self.inner_strategy] *)
Definition self_inner_strategy : E PyVal :=
  λ '(ex, w),
    match ex with
    | SplitExecutor _ _ s => (Ok s, (ex, w))
    | _ => (Raise (AttributeError "inner_strategy"), (ex, w))
    end.

(** [TradeCalendarManager(freq=..., start_time=..., end_time=...)] *)
Definition new_calendar (freq : string) (start_time end_time : PyVal)
  : Ret Calendar :=
  match calendar_bars freq start_time end_time with
  | Returns bars =>
      Returns {| cal_freq := freq; cal_bars := bars; current_index := 0 |}
  | Raises e => Raises e
  end.

(** [kwargs.get(key)] *)
Definition dict_get (d : gmap string PyVal) (key : string) : PyVal :=
  default VNone (d !! key).

(** [BaseExecutor.reset(track_data, common_infra, **kwargs)] *)
Definition reset (track_data : option bool)
    (common_infra : option (gmap string PyVal)) (kwargs : gmap string PyVal)
  : E unit :=
  match track_data with
  | Some b => on_self (self_set (set_track_data b))
  | None => st_ret tt
  end;;
  (if bool_decide (is_Some (kwargs !! "start_time"))
      || bool_decide (is_Some (kwargs !! "end_time")) then
     let start_time := dict_get kwargs "start_time" in
     let end_time := dict_get kwargs "end_time" in
     do freq <- on_self (self_get time_per_step);
     do c <- pure_ret (new_calendar freq start_time end_time);
     on_self (self_set (set_calendar c))
   else st_ret tt);;
  match common_infra with
  | Some infra => reset_common_infra infra
  | None => st_ret tt
  end.

(** [get_level_infra]: the dict holds the calendar object itself. *)
Definition get_level_infra : E Calendar := on_self (self_get calendar).

(** [finished] *)
Definition finished : E bool :=
  do c <- on_self (self_get calendar);
  st_ret (calendar_finished c).
(** *** [SplitExecutor.execute] *)

Definition _init_sub_trading (trade_decision : Decision) : E unit :=
  do '(trade_start_time, trade_end_time) <- on_self self_trade_time;
  on_inner (reset None None
              (<["start_time" := trade_start_time]>
                 (<["end_time" := trade_end_time]> ∅)));;
  do sub_level_infra <- on_inner get_level_infra;
  do strategy <- self_inner_strategy;
  do σ <- method "reset" strategy;
  on_snd (invoke (strategy_reset σ sub_level_infra trade_decision)
            (λ _, StrategyReset σ sub_level_infra trade_decision)).

Definition _update_trade_account : M unit :=
  do '(trade_start_time, trade_end_time) <- self_trade_time;
  do acct <- self_attr "trade_account" trade_account;
  do a <- method "update_bar_count" acct;
  on_snd (invoke (update_bar_count a) (λ _, UpdateBarCount a));;
  do g <- self_get generate_report;
  if g then
    do acct <- self_attr "trade_account" trade_account;
    do a <- method "update_bar_report" acct;
    do x <- self_attr "trade_exchange" trade_exchange;
    on_snd (invoke (update_bar_report a trade_start_time trade_end_time x)
              (λ _, UpdateBarReport a trade_start_time trade_end_time x))
  else st_ret tt.

(** [self.inner_strategy.generate_trade_decision(_inner_execute_result)];
    the strategy sees the inner executor's calendar as it is now. *)
Definition ask_inner_strategy (_inner_execute_result : option (list Entry))
  : E Decision :=
  do strategy <- self_inner_strategy;
  do σ <- method "generate_trade_decision" strategy;
  do c <- on_inner get_level_infra;
  on_snd (invoke (generate_trade_decision σ c _inner_execute_result)
            (GenerateTradeDecision σ _inner_execute_result)).

(** [if hasattr(self, "trade_account"): self._update_trade_account()] *)
Definition close_outer_bar : E unit :=
  do acct <- on_self (self_get trade_account);
  if acct is Some _ then on_self _update_trade_account else st_ret tt.

(** [execute], dispatched on the class of the receiver.  The [while] loop of
    [SplitExecutor.execute] is [split_loop]; a unit of fuel is spent on
    every call of [execute] and on every test of the loop condition. *)
Fixpoint execute (fuel : nat) (trade_decision : Decision) : E (list Entry) :=
  match fuel with
  | 0 => out_of_fuel
  | S fuel =>
      λ s, match s.1 with
           | BaseExecutor _ =>
               raise (NotImplementedError "execute is not implemented!") s
           | SimulatorExecutor _ =>
               on_self (simulator_execute trade_decision) s
           | SplitExecutor _ _ _ =>
               (on_self self_calendar_step;;
                _init_sub_trading trade_decision;;
                do execute_result <- split_loop fuel None [];
                close_outer_bar;;
                st_ret execute_result) s
           end
  end
with split_loop (fuel : nat) (_inner_execute_result : option (list Entry))
    (execute_result : list Entry) : E (list Entry) :=
  match fuel with
  | 0 => out_of_fuel
  | S fuel =>
      do fin <- on_inner finished;
      if fin then st_ret execute_result
      else
        do _inner_trade_decision <- ask_inner_strategy _inner_execute_result;
        do _inner_execute_result <- on_inner (execute fuel _inner_trade_decision);
        split_loop fuel (Some _inner_execute_result)
          (execute_result ++ _inner_execute_result)
  end.

(** *** [get_trade_account] and [get_report] *)

(** Only [BaseExecutor] defines [get_trade_account]; the subclasses inherit
    it. *)
Definition get_trade_account : E PyVal :=
  raise (NotImplementedError "get_trade_account is not implemented!").

(** [f"{_count}{_freq}"] *)
Definition report_label (time_per_step : string) : Ret string :=
  match parse_freq time_per_step with
  | Returns (_count, _freq) => Returns (pretty _count +:+ _freq)
  | Raises e => Raises e
  end.

(** The entry [(_report, _positions)] of this level and its label *)
Definition own_report : M (string * (PyVal * PyVal)) :=
  do acct <- self_attr "trade_account" trade_account;
  do a <- method "report" acct;
  do _report <- on_snd (invoke (generate_report_dataframe a)
                          (GenerateReportDataframe a));
  do acct <- self_attr "trade_account" trade_account;
  do a <- method "get_positions" acct;
  do _positions <- on_snd (invoke (get_positions a) (GetPositions a));
  do freq <- self_get time_per_step;
  do label <- pure_ret (report_label freq);
  st_ret (label, (_report, _positions)).

(** A method that reads the attributes [self] and writes none of them *)
Definition reading {A} (self : Attrs) (m : M A) : W A :=
  λ w, let '(r, (_, w')) := m (self, w) in (r, w').

(** [get_report] reads the attributes of the executors and changes none. *)
Fixpoint get_report (ex : Executor) : W (gmap string (PyVal * PyVal)) :=
  match ex with
  | BaseExecutor _ => raise (NotImplementedError "get_report is not implemented!")
  | SimulatorExecutor self =>
      if generate_report self then
        do '(label, entry) <- reading self own_report;
        st_ret {[label := entry]}
      else st_ret ∅
  | SplitExecutor self inner _ =>
      do sub_env_report_dict <- get_report inner;
      if generate_report self then
        do '(label, entry) <- reading self own_report;
        st_ret (<[label := entry]> sub_env_report_dict)
      else st_ret sub_env_report_dict
  end.

End Executors.

(** ** Generators *)

(** A Python generator over a state [S]: resumed on the current state, it
    runs up to its next [yield] (and is then suspended as [k]), returns or
    raises.  Nothing of its body runs unless it is resumed. *)
#[warnings="-register-all"]
Inductive GenStep (S A : Type) :=
| GYield (d : Decision) (k : S → GenStep S A * S)
| GReturn (a : A)
| GRaise (e : Exn)
| GOutOfFuel.
Arguments GYield {S A} d k.
Arguments GReturn {S A} a.
Arguments GRaise {S A} e.
Arguments GOutOfFuel {S A}.

Definition Gen (S A : Type) : Type := S → GenStep S A * S.

Definition gen_ret {S A} (a : A) : Gen S A := λ s, (GReturn a, s).

(** [yield d] *)
Definition gen_yield {S} (d : Decision) : Gen S unit :=
  λ s, (GYield d (λ s', (GReturn tt, s')), s).

(** Code without [yield] inside a generator body *)
Definition gen_lift {S A} (m : ST S A) : Gen S A :=
  λ s, match m s with
       | (Ok a, s') => (GReturn a, s')
       | (Raise e, s') => (GRaise e, s')
       | (OutOfFuel, s') => (GOutOfFuel, s')
       end.

Fixpoint gen_bind_step {S A B} (x : GenStep S A) (f : A → Gen S B) (s : S)
  : GenStep S B * S :=
  match x with
  | GYield d k =>
      (GYield d (λ s', let '(x', s'') := k s' in gen_bind_step x' f s''), s)
  | GReturn a => f a s
  | GRaise e => (GRaise e, s)
  | GOutOfFuel => (GOutOfFuel, s)
  end.

Definition gen_bind {S A B} (g : Gen S A) (f : A → Gen S B) : Gen S B :=
  λ s, let '(x, s') := g s in gen_bind_step x f s'.

Notation "'gen' x <- m ; k" := (gen_bind m (λ x, k))
  (at level 10, x name, m at level 100, k at level 200,
   format "'[v' 'gen'  x  <-  m ; '/' k ']'") : st_scope.
Notation "m ;;; k" := (gen_bind m (λ _, k))
  (at level 100, k at level 200, right associativity) : st_scope.

(** [next] until the generator is exhausted: the elements it yields, then how
    it ends. *)
Fixpoint drain_step {S A} (x : GenStep S A) (s : S)
  : list Decision * (Res A * S) :=
  match x with
  | GYield d k =>
      let '(x', s') := k s in
      let '(ds, end_) := drain_step x' s' in (d :: ds, end_)
  | GReturn a => ([], (Ok a, s))
  | GRaise e => ([], (Raise e, s))
  | GOutOfFuel => ([], (OutOfFuel, s))
  end.

Definition drain {S A} (g : Gen S A) (s : S) : list Decision * (Res A * S) :=
  let '(x, s') := g s in drain_step x s'.

(** [next] at most [n] times, after which the generator is abandoned: the
    elements received and the state that is left. *)
Fixpoint advance {S A} (n : nat) (g : Gen S A) (s : S) : list Decision * S :=
  match n with
  | 0 => ([], s)
  | S n =>
      match g s with
      | (GYield d k, s') => let '(ds, s'') := advance n k s' in (d :: ds, s'')
      | (_, s') => ([], s')
      end
  end.

(** A generator of [self.inner_executor], run from the outer executor *)
Fixpoint step_on_inner {A} (x : GenStep (Executor * World) A)
  : GenStep (Executor * World) A :=
  match x with
  | GYield d k =>
      GYield d (λ '(ex, w),
        match ex with
        | SplitExecutor a inner s =>
            let '(x', (inner', w')) := k (inner, w) in
            (step_on_inner x', (SplitExecutor a inner' s, w'))
        | _ => (GRaise (AttributeError "inner_executor"), (ex, w))
        end)
  | GReturn a => GReturn a
  | GRaise e => GRaise e
  | GOutOfFuel => GOutOfFuel
  end.

Definition gen_on_inner {A} (g : Gen (Executor * World) A)
  : Gen (Executor * World) A :=
  λ '(ex, w),
    match ex with
    | SplitExecutor a inner s =>
        let '(x, (inner', w')) := g (inner, w) in
        (step_on_inner x, (SplitExecutor a inner' s, w'))
    | _ => (GRaise (AttributeError "inner_executor"), (ex, w))
    end.

Section CollectData.
Context `{Collaborators}.

(** [if self.track_data: yield trade_decision] *)
Definition yield_if_tracked (trade_decision : Decision)
  : Gen (Executor * World) unit :=
  gen td <- gen_lift (on_self (self_get track_data));
  if td then gen_yield trade_decision else gen_ret tt.

(** [collect_data], dispatched on the class of the receiver:
    [BaseExecutor.collect_data], which [SimulatorExecutor] inherits, and
    [SplitExecutor.collect_data] with its loop [collect_loop]; fuel is spent
    as in [execute]. *)
Fixpoint collect_data (fuel : nat) (trade_decision : Decision)
  : Gen (Executor * World) (list Entry) :=
  match fuel with
  | 0 => gen_lift out_of_fuel
  | S fuel =>
      λ s, match s.1 with
           | BaseExecutor _ | SimulatorExecutor _ =>
               (yield_if_tracked trade_decision;;;
                gen_lift (execute (S fuel) trade_decision)) s
           | SplitExecutor _ _ _ =>
               (yield_if_tracked trade_decision;;;
                gen_lift (on_self self_calendar_step);;;
                gen_lift (_init_sub_trading trade_decision);;;
                gen execute_result <- collect_loop fuel None [];
                gen_lift close_outer_bar;;;
                gen_ret execute_result) s
           end
  end
with collect_loop (fuel : nat) (_inner_execute_result : option (list Entry))
    (execute_result : list Entry) : Gen (Executor * World) (list Entry) :=
  match fuel with
  | 0 => gen_lift out_of_fuel
  | S fuel =>
      gen fin <- gen_lift (on_inner finished);
      if fin then gen_ret execute_result
      else
        gen _inner_trade_decision <-
          gen_lift (ask_inner_strategy _inner_execute_result);
        gen _inner_execute_result <-
          gen_on_inner (collect_data fuel _inner_trade_decision);
        collect_loop fuel (Some _inner_execute_result)
          (execute_result ++ _inner_execute_result)
  end.

End CollectData.

(** *** The constructors *)

(** The object handed to [__init__] has no attribute yet.  The record below
    is that object after the four assignments that open
    [BaseExecutor.__init__].  [calendar] is not assigned by then; the record
    holds an empty calendar in its place, which nothing reads: the call of
    [reset] that follows has both time keys among its keyword arguments, so
    it assigns [self.calendar] before anything uses it. *)
Definition assigned (time_per_step : string)
    (generate_report verbose track_data : bool) : Attrs :=
  {| time_per_step := time_per_step; generate_report := generate_report;
     verbose := verbose; track_data := track_data;
     calendar := {| cal_freq := ""; cal_bars := []; current_index := 0 |};
     common_infra := None; trade_account := None; trade_exchange := None |}.

Section Constructors.
Context `{Collaborators}.

(** The last statement of [BaseExecutor.__init__]:
    [self.reset(start_time=start_time, end_time=end_time,
                track_data=track_data, common_infra=common_infra)] *)
Definition BaseExecutor__init__ (start_time end_time : PyVal) (track_data : bool)
    (common_infra : gmap string PyVal) : E unit :=
  reset (Some track_data) (Some common_infra)
    (<["start_time" := start_time]> (<["end_time" := end_time]> ∅)).

(** [SimulatorExecutor.__init__] after the same assignments *)
Definition SimulatorExecutor__init__ (start_time end_time trade_exchange : PyVal)
    (track_data : bool) (common_infra : gmap string PyVal) : E unit :=
  BaseExecutor__init__ start_time end_time track_data common_infra;;
  if trade_exchange is VNone then st_ret tt
  else on_self (self_set (set_trade_exchange trade_exchange)).

(** [SplitExecutor.__init__] after [self.inner_executor] and
    [self.inner_strategy] have been assigned, and the same assignments *)
Definition SplitExecutor__init__ (start_time end_time trade_exchange : PyVal)
    (generate_report track_data : bool) (common_infra : gmap string PyVal)
  : E unit :=
  BaseExecutor__init__ start_time end_time track_data common_infra;;
  if generate_report && negb (if trade_exchange is VNone then true else false)
  then on_self (self_set (set_trade_exchange trade_exchange))
  else st_ret tt.

(** A call of a class: the new object is returned if [__init__] returns, and
    is lost if it raises. *)
Definition construct (self : Executor) (init : E unit) : W Executor :=
  λ w, match init (self, w) with
       | (Ok _, (ex, w')) => (Ok ex, w')
       | (Raise e, (_, w')) => (Raise e, w')
       | (OutOfFuel, (_, w')) => (OutOfFuel, w')
       end.

(** [SimulatorExecutor(time_per_step, start_time, end_time, trade_exchange,
    generate_report, verbose, track_data, common_infra)] *)
Definition new_SimulatorExecutor (time_per_step : string)
    (start_time end_time trade_exchange : PyVal)
    (generate_report verbose track_data : bool)
    (common_infra : gmap string PyVal) : W Executor :=
  construct
    (SimulatorExecutor (assigned time_per_step generate_report verbose track_data))
    (SimulatorExecutor__init__ start_time end_time trade_exchange track_data
       common_infra).

(** [SplitExecutor(time_per_step, inner_executor, inner_strategy, start_time,
    end_time, trade_exchange, generate_report, verbose, track_data,
    common_infra)], from the point where the two calls of
    [init_instance_by_config] (another module) have returned:
    [inner_executor] and [inner_strategy] are the objects they gave. *)
Definition new_SplitExecutor (time_per_step : string)
    (inner_executor : Executor) (inner_strategy : PyVal)
    (start_time end_time trade_exchange : PyVal)
    (generate_report verbose track_data : bool)
    (common_infra : gmap string PyVal) : W Executor :=
  construct
    (SplitExecutor (assigned time_per_step generate_report verbose track_data)
       inner_executor inner_strategy)
    (SplitExecutor__init__ start_time end_time trade_exchange generate_report
       track_data common_infra).

End Constructors.

(** ** A small market to run the executors on

    An implementation of the collaborators over the heap, used to evaluate
    the executors on concrete inputs.  Times are minutes, a trading day has
    240 of them, money and amounts are integers, cost rates are in 1/10000. *)
Module Sample.

Definition attr_of (h : Heap) (a : addr) (name : string) : option PyVal :=
  h !! a ≫= (.!! name).

Definition int_attr (h : Heap) (a : addr) (name : string) : option Z :=
  match attr_of h a name with Some (VInt z) => Some z | _ => None end.

Definition ref_attr (h : Heap) (a : addr) (name : string) : option addr :=
  match attr_of h a name with Some (VRef r) => Some r | _ => None end.

Definition str_attr (h : Heap) (a : addr) (name : string) : option string :=
  match attr_of h a name with Some (VStr s) => Some s | _ => None end.

Definition or_raise {A} (msg : string) (h : Heap) (r : option (Ret A * Heap))
  : Ret A * Heap :=
  default (Raises msg, h) r.

(** An order is tradable when its instrument has a quote and its amount,
    rounded down to the trading unit, is positive. *)
Definition sample_check_order (x : addr) (order : PyVal) : Op PyVal :=
  λ h, or_raise "check_order" h
    (o ← (if order is VRef o then Some o else None);
     stock ← str_attr h o "stock_id";
     amount ← int_attr h o "amount";
     quote ← ref_attr h x "quote";
     unit ← int_attr h x "trade_unit";
     Some (Returns (VBool (bool_decide (is_Some (attr_of h quote stock))
                           && (0 <? amount `div` unit * unit)%Z)), h)).

(** Modelled from the spec: the arithmetic of [Exchange.deal_order]
    ([exchange.py]) and of the ledger update of [Account] ([account.py]),
    which are not part of the sources at hand: a matched BUY "updates cash
    by -traded_value - traded_cost", a SELL by "+traded_value - traded_cost"
    and must not take a position below zero; "traded_amount =
    floor(requested_amount / trading_unit) * trading_unit" and "traded_cost
    = max(min_cost, traded_amount * traded_price * (open_cost if BUY else
    close_cost))".

    Where an account keeps its cash and its positions is given neither by
    the sources at hand nor by the spec; that this market keeps the cash in
    the account object and the positions in a mapping that the account
    refers to is a choice of the example.  Nothing is proved from that
    choice: the properties of the executors hold for every implementation
    of the collaborators, and this one serves to evaluate them. *)
Definition sample_deal_order (x : addr) (order account : PyVal)
  : Op (PyVal * PyVal * PyVal) :=
  λ h, or_raise "deal_order" h
    (o ← (if order is VRef o then Some o else None);
     a ← (if account is VRef a then Some a else None);
     stock ← str_attr h o "stock_id";
     amount ← int_attr h o "amount";
     direction ← attr_of h o "direction";
     quote ← ref_attr h x "quote";
     price ← int_attr h quote stock;
     unit ← int_attr h x "trade_unit";
     open_cost ← int_attr h x "open_cost";
     close_cost ← int_attr h x "close_cost";
     min_cost ← int_attr h x "min_cost";
     cash ← int_attr h a "cash";
     positions ← ref_attr h a "positions";
     let held := default 0%Z (int_attr h positions stock) in
     let sell := py_eq direction (VInt 0) in
     let deal_amount := (amount `div` unit * unit)%Z in
     let value := (deal_amount * price)%Z in
     let rate := if sell then close_cost else open_cost in
     let cost := (min_cost `max` (value * rate `div` 10000))%Z in
     if sell && (held <? deal_amount)%Z then
       Some (Raises "InsufficientPosition", h)
     else
       let cash' := (if sell then cash + value - cost else cash - value - cost)%Z in
       let held' := (if sell then held - deal_amount else held + deal_amount)%Z in
       Some (Returns (VInt value, VInt cost, VInt price),
             setattr positions stock (VInt held')
               (setattr a "cash" (VInt cash')
                  (setattr o "deal_amount" (VInt deal_amount) h)))).

(** Modelled from the spec: the bar count and the report rows of
    [Account.update_bar_count] and [Account.update_bar_report]
    ([account.py], not part of the sources at hand), given below: the spec's
    [mark_bar_end] "appends one ReportRow, and increments bar_count"; report
    rows are "append-only, ordered by bar index".  A report is an object
    that maps the number of each row to the start time of its bar.

    Of [Account.reset] the sources at hand show the call, with [freq] and
    [init_report], and the spec says that an account is "reset at the start
    of a run"; what it resets is given by neither.  In this market, as a
    choice of the example, it records the frequency and, with [init_report],
    starts a new report and a bar count of 0.  Nothing is proved from that
    choice. *)
Definition sample_account_reset (a : addr) (freq : string) (init_report : bool)
  : Op unit :=
  λ h, let h := setattr a "freq" (VStr freq) h in
       if init_report then
         let r := fresh (dom h) in
         (Returns tt,
          setattr a "bar_count" (VInt 0)
            (setattr a "report" (VRef r) (<[r := ∅]> h)))
       else (Returns tt, h).

Definition sample_update_bar_count (a : addr) : Op unit :=
  λ h, or_raise "update_bar_count" h
    (n ← int_attr h a "bar_count";
     Some (Returns tt, setattr a "bar_count" (VInt (n + 1)) h)).

Definition sample_update_bar_report (a : addr)
    (trade_start_time trade_end_time trade_exchange : PyVal) : Op unit :=
  λ h, or_raise "update_bar_report" h
    (r ← ref_attr h a "report";
     rows ← h !! r;
     Some (Returns tt, setattr r (pretty (size rows)) trade_start_time h)).

Definition sample_generate_report_dataframe (a : addr) : Op PyVal :=
  λ h, or_raise "report" h (r ← ref_attr h a "report"; Some (Returns (VRef r), h)).

Definition sample_get_positions (a : addr) : Op PyVal :=
  λ h, or_raise "positions" h
    (p ← ref_attr h a "positions"; Some (Returns (VRef p), h)).

(** A strategy that places the order it holds in the first bar of its level
    and nothing afterwards; resetting it changes nothing. *)
Definition sample_generate_trade_decision (σ : addr) (level : Calendar)
    (execute_result : option (list Entry)) : Op Decision :=
  λ h, or_raise "generate_trade_decision" h
    (order ← attr_of h σ "order";
     Some (Returns (if current_index level is 0 then [order] else []), h)).

(** Frequencies: a count and a unit *)
Definition sample_parse_freq (freq : string) : Ret (Z * string) :=
  if decide (freq = "day") then Returns (1%Z, "day")
  else if decide (freq = "1day") then Returns (1%Z, "day")
  else if decide (freq = "120min") then Returns (120%Z, "min")
  else if decide (freq = "60min") then Returns (60%Z, "min")
  else if decide (freq = "1min") then Returns (1%Z, "min")
  else Raises "freq format is not supported".

Definition minutes (freq : Z * string) : Z :=
  if decide (freq.2 = "day") then freq.1 * 240 else freq.1.

(** [n] consecutive bars of [len] minutes from [start] *)
Fixpoint bars_from (start len : Z) (n : nat) : list (PyVal * PyVal) :=
  match n with
  | 0 => []
  | S n => (VInt start, VInt (start + len)%Z) :: bars_from (start + len) len n
  end.

(** Modelled from the spec: the tiling of a time range by
    [TradeCalendarManager] ([backtest/utils.py], not part of the sources at
    hand): the range is partitioned "into fixed-length bars of frequency";
    "the partition must exactly tile the range — a remainder is an error
    (MisalignedRange)"; ranges are "half-open, non-empty". *)
Definition sample_calendar_bars (freq : string) (start_time end_time : PyVal)
  : Ret (list (PyVal * PyVal)) :=
  match sample_parse_freq freq, start_time, end_time with
  | Returns f, VInt s, VInt e =>
      let len := minutes f in
      if bool_decide (0 < len ∧ s < e ∧ (e - s) `mod` len = 0)%Z then
        Returns (bars_from s len (Z.to_nat ((e - s) `div` len)))
      else Raises "MisalignedRange"
  | Raises e, _, _ => Raises e
  | _, _, _ => Raises "InvalidConfig"
  end.

#[export] Instance sample : Collaborators := {|
  check_order := sample_check_order;
  deal_order := sample_deal_order;
  account_reset := sample_account_reset;
  update_bar_count := sample_update_bar_count;
  update_bar_report := sample_update_bar_report;
  generate_report_dataframe := sample_generate_report_dataframe;
  get_positions := sample_get_positions;
  strategy_reset_common_infra := λ _ _ h, (Returns tt, h);
  strategy_reset := λ _ _ _ h, (Returns tt, h);
  generate_trade_decision := sample_generate_trade_decision;
  Order_SELL := VInt 0;
  parse_freq := sample_parse_freq;
  calendar_bars := sample_calendar_bars;
|}.

(** The objects of the examples: exchange 1 with its quotes 2, the caller's
    account 3 with its positions 4 and its report 5, a buy order 6 for 250
    of instrument X, an order 7 for an instrument without a quote, and the
    strategy 8, which holds order 6. *)
Definition heap0 : Heap :=
  list_to_map
    [(1%positive, list_to_map [("quote", VRef 2%positive); ("trade_unit", VInt 100);
                               ("open_cost", VInt 15); ("close_cost", VInt 25);
                               ("min_cost", VInt 5)]);
     (2%positive, list_to_map [("X", VInt 10)]);
     (3%positive, list_to_map [("cash", VInt 1000000); ("positions", VRef 4%positive);
                               ("bar_count", VInt 0); ("report", VRef 5%positive);
                               ("freq", VStr "day")]);
     (4%positive, ∅);
     (5%positive, ∅);
     (6%positive, list_to_map [("stock_id", VStr "X"); ("amount", VInt 250);
                               ("direction", VInt 1); ("factor", VInt 1)]);
     (7%positive, list_to_map [("stock_id", VStr "Y"); ("amount", VInt 100);
                               ("direction", VInt 1); ("factor", VInt 1)]);
     (8%positive, list_to_map [("order", VRef 6%positive)])].

Definition world0 : World := {| heap := heap0; trace := [] |}.

Definition infra0 : gmap string PyVal :=
  list_to_map [("trade_account", VRef 3%positive); ("trade_exchange", VRef 1%positive)].

(** Two trading days at the given frequency, nothing injected yet *)
Definition attrs0 (freq : string) (report track : bool) : Attrs :=
  {| time_per_step := freq; generate_report := report; verbose := false;
     track_data := track;
     calendar := {| cal_freq := freq;
                    cal_bars :=
                      match sample_calendar_bars freq (VInt 0) (VInt 480) with
                      | Returns bars => bars
                      | Raises _ => []
                      end;
                    current_index := 0 |};
     common_infra := None; trade_account := None; trade_exchange := None |}.

(** The state of an executor after [reset_common_infra(infra0)] on [world0] *)
Definition injected (ex : Executor) : Res unit * (Executor * World) :=
  reset_common_infra infra0 (ex, world0).

(** A leaf executor with daily bars that reports and tracks, after the
    injection *)
Definition leaf1 : Executor * World :=
  (injected (SimulatorExecutor (attrs0 "day" true true))).2.

(** A split executor with daily bars over a leaf with bars of 120 minutes,
    both reporting, only the outer one tracking, after the injection *)
Definition split1 : Executor * World :=
  (injected (SplitExecutor (attrs0 "day" true true)
               (SimulatorExecutor (attrs0 "120min" true false))
               (VRef 8%positive))).2.

(** The same with both levels tracking *)
Definition split2 : Executor * World :=
  (injected (SplitExecutor (attrs0 "day" true true)
               (SimulatorExecutor (attrs0 "120min" true true))
               (VRef 8%positive))).2.

(** A split executor over an abstract base executor *)
Definition split_base1 : Executor * World :=
  (injected (SplitExecutor (attrs0 "day" false false)
               (BaseExecutor (attrs0 "120min" false false))
               (VRef 8%positive))).2.

(** The tradable order followed by the one without a quote *)
Definition decision1 : Decision := [VRef 6%positive; VRef 7%positive].

(** The leaf executor [leaf1] with [verbose] on *)
Definition leaf2 : Executor * World :=
  (injected (SimulatorExecutor
               {| time_per_step := "day"; generate_report := true; verbose := true;
                  track_data := true; calendar := calendar (attrs0 "day" true true);
                  common_infra := None; trade_account := None;
                  trade_exchange := None |})).2.

(** A split executor and its leaf that both report under the label of one
    day *)
Definition split_same : Executor * World :=
  (injected (SplitExecutor (attrs0 "day" true false)
               (SimulatorExecutor (attrs0 "1day" true false))
               (VRef 8%positive))).2.

End Sample.

(** ** [get_exchange] of [backtest/__init__.py] *)
Module GetExchange.

(** The values of [qlib.config.C] that [get_exchange] reads *)
Record Config := {
  C_trade_unit : PyVal;
  C_limit_threshold : PyVal;
  C_deal_price : option string;
}.

(** The arguments of [get_exchange]; [deal_price] is [None] or a [str]. *)
Record Args := {
  exchange : PyVal;
  freq : PyVal;
  start_time : PyVal;
  end_time : PyVal;
  codes : PyVal;
  subscribe_fields : PyVal;
  open_cost : PyVal;
  close_cost : PyVal;
  min_cost : PyVal;
  trade_unit : PyVal;
  limit_threshold : PyVal;
  deal_price : option string;
}.

(** The keyword arguments of the call [Exchange(...)] *)
Record ExchangeKwargs := {
  x_freq : PyVal;
  x_start_time : PyVal;
  x_end_time : PyVal;
  x_codes : PyVal;
  x_deal_price : string;
  x_subscribe_fields : PyVal;
  x_limit_threshold : PyVal;
  x_open_cost : PyVal;
  x_close_cost : PyVal;
  x_trade_unit : PyVal;
  x_min_cost : PyVal;
}.

(** How [get_exchange] ends: with the object that [Exchange(...)] builds
    from these keyword arguments, with what
    [init_instance_by_config(exchange, accept_types=Exchange)] gives for the
    exchange passed in, or with an exception. *)
Inductive Outcome :=
| Constructed (kwargs : ExchangeKwargs)
| Delegated (exchange : PyVal)
| Failed (e : Exn).

(** [x if x is not None else d] *)
Definition or_default (x d : PyVal) : PyVal :=
  if x is VNone then d else x.

(** The lines [if deal_price[0] != "$": deal_price = "$" + deal_price] *)
Definition dollar (deal_price : string) : Exn + string :=
  match deal_price with
  | EmptyString => inl (IndexError "string index out of range")
  | String c _ =>
      if bool_decide (String c EmptyString ≠ "$") then inr ("$" +:+ deal_price)
      else inr deal_price
  end.

(** [get_exchange]: the messages logged, and the outcome *)
Definition get_exchange (C : Config) (a : Args) : list string * Outcome :=
  let trade_unit := or_default (trade_unit a) (C_trade_unit C) in
  let limit_threshold := or_default (limit_threshold a) (C_limit_threshold C) in
  let deal_price :=
    if deal_price a is Some p then Some p else C_deal_price C in
  if exchange a is VNone then
    (["Create new exchange"],
     match deal_price with
     | None => Failed (TypeError "'NoneType' object is not subscriptable")
     | Some deal_price =>
         match dollar deal_price with
         | inl e => Failed e
         | inr deal_price =>
             Constructed
               {| x_freq := freq a; x_start_time := start_time a;
                  x_end_time := end_time a; x_codes := codes a;
                  x_deal_price := deal_price;
                  x_subscribe_fields := subscribe_fields a;
                  x_limit_threshold := limit_threshold;
                  x_open_cost := open_cost a; x_close_cost := close_cost a;
                  x_trade_unit := trade_unit; x_min_cost := min_cost a |}
         end
     end)
  else ([], Delegated (exchange a)).

(** The value of [deal_price] after [if deal_price is None: ...] *)
Definition effective_deal_price (C : Config) (a : Args) : option string :=
  if deal_price a is Some p then Some p else C_deal_price C.

(** [s.startswith("$")] *)
Definition starts_with_dollar (s : string) : bool :=
  if s is String c _ then bool_decide (String c EmptyString = "$") else false.

Definition with_deal_price (p : option string) (a : Args) : Args :=
  {| exchange := exchange a; freq := freq a; start_time := start_time a;
     end_time := end_time a; codes := codes a;
     subscribe_fields := subscribe_fields a; open_cost := open_cost a;
     close_cost := close_cost a; min_cost := min_cost a;
     trade_unit := trade_unit a; limit_threshold := limit_threshold a;
     deal_price := p |}.

(** An example call with the given [exchange] and [deal_price]: daily
    frequency, all codes, cost rates in 1/10000, the rest left to the
    configuration *)
Definition default_args (exchange : PyVal) (deal_price : option string) : Args :=
  {| exchange := exchange; freq := VStr "day"; start_time := VNone;
     end_time := VNone; codes := VStr "all"; subscribe_fields := VNone;
     open_cost := VInt 15; close_cost := VInt 25; min_cost := VInt 5;
     trade_unit := VNone; limit_threshold := VNone;
     deal_price := deal_price |}.

Definition config0 : Config :=
  {| C_trade_unit := VInt 100; C_limit_threshold := VNone;
     C_deal_price := Some "close" |}.

End GetExchange.

(** ** Notions used to state the properties *)

(** What of an executor tree no method of a bar changes: everything but the
    calendars. *)
Definition blank : Calendar :=
  {| cal_freq := ""; cal_bars := []; current_index := 0 |}.

Fixpoint static (ex : Executor) : Executor :=
  match ex with
  | BaseExecutor a => BaseExecutor (set_calendar blank a)
  | SimulatorExecutor a => SimulatorExecutor (set_calendar blank a)
  | SplitExecutor a inner σ => SplitExecutor (set_calendar blank a) (static inner) σ
  end.

Fixpoint depth (ex : Executor) : nat :=
  match ex with
  | SplitExecutor _ inner _ => S (depth inner)
  | _ => 0
  end.

(** No [BaseExecutor] instance anywhere in the tree *)
Fixpoint concrete (ex : Executor) : bool :=
  match ex with
  | BaseExecutor _ => false
  | SimulatorExecutor _ => true
  | SplitExecutor _ inner _ => concrete inner
  end.

(** The account objects of all levels of the tree, outermost first *)
Fixpoint accounts (ex : Executor) : list PyVal :=
  option_list (trade_account (attrs ex))
  ++ match ex with SplitExecutor _ inner _ => accounts inner | _ => [] end.

(** The calendar of an executor that was reset to a window with the given
    bars, and the executor with that calendar *)
Definition window_calendar (ex : Executor) (bars : list (PyVal * PyVal))
  : Calendar :=
  {| cal_freq := time_per_step (attrs ex); cal_bars := bars; current_index := 0 |}.

Definition at_window (ex : Executor) (bars : list (PyVal * PyVal)) : Executor :=
  with_attrs (set_calendar (window_calendar ex bars) (attrs ex)) ex.

Definition inner_accounts (ex : Executor) : list PyVal :=
  match ex with SplitExecutor _ inner _ => accounts inner | _ => [] end.

(** Every level of the tree has [track_data] set *)
Fixpoint all_track (ex : Executor) : bool :=
  track_data (attrs ex)
  && match ex with SplitExecutor _ inner _ => all_track inner | _ => true end.

Definition entry_order (e : Entry) : PyVal := e.1.1.1.

(** The orders checked, each with what [check_order] returned *)
Definition checked (evs : list Event) : list (PyVal * PyVal) :=
  omap (λ ev, if ev is CheckOrder _ o r then Some (o, r) else None) evs.

(** The orders dealt, each with what [deal_order] returned *)
Definition dealt (evs : list Event) : list Entry :=
  omap (λ ev, if ev is DealOrder _ o _ (v, c, p) then Some (o, v, c, p) else None)
    evs.

(** The decisions the strategies generated *)
Definition generated (evs : list Event) : list Decision :=
  omap (λ ev, if ev is GenerateTradeDecision _ _ d then Some d else None) evs.

(** A call that the loop over the orders of a leaf makes *)
Definition of_order (ev : Event) : bool :=
  match ev with
  | CheckOrder _ _ _ | DealOrder _ _ _ _ | Print _ => true
  | _ => false
  end.

(** A bar close on the account object [a] *)
Definition closes_bar (a : addr) (ev : Event) : bool :=
  match ev with
  | UpdateBarCount a' | UpdateBarReport a' _ _ _ => bool_decide (a' = a)
  | _ => false
  end.

(** A bar close on any account *)
Definition is_close (ev : Event) : bool :=
  match ev with
  | UpdateBarCount _ | UpdateBarReport _ _ _ _ => true
  | _ => false
  end.

(** The events of one bar close of account [a] for the bar [(t0, t1)] *)
Definition bar_close (a : addr) (report : bool) (t0 t1 x : PyVal) : list Event :=
  UpdateBarCount a :: (if report then [UpdateBarReport a t0 t1 x] else []).

Section Notions.
Context `{Collaborators}.

(** The inner loop in the words of the spec: while the inner executor is not
    finished, the inner strategy [σ] is asked for a sub-decision, being
    handed the previous inner result ([None] at first), and the sub-decision
    is executed on the inner executor.  [inner_run σ prev s its s'] lists
    the sub-decisions with their results from state [s] to state [s']. *)
Inductive inner_run (σ : addr)
  : option (list Entry) → Executor * World
    → list (Decision * list Entry) → Executor * World → Prop :=
| inner_run_finished prev inner w :
    calendar_finished (calendar (attrs inner)) = true →
    inner_run σ prev (inner, w) [] (inner, w)
| inner_run_bar prev inner w d h fuel r s2 its s' :
    calendar_finished (calendar (attrs inner)) = false →
    generate_trade_decision σ (calendar (attrs inner)) prev (heap w)
    = (Returns d, h) →
    execute fuel d
      (inner, {| heap := h;
                 trace := trace w ++ [GenerateTradeDecision σ prev d] |})
    = (Ok r, s2) →
    inner_run σ (Some r) s2 its s' →
    inner_run σ prev (inner, w) ((d, r) :: its) s'.

(** The state of the inner executor of a split executor *)
Definition inner_state (s : Executor * World) : Executor * World :=
  match s.1 with
  | SplitExecutor _ inner _ => (inner, s.2)
  | ex => (ex, s.2)
  end.

(** The decisions that reach an executor whose [track_data] is set, in the
    order in which they are handed over: the decision itself, then for
    every bar of the inner loop those of the inner executor on the
    sub-decision. *)
Fixpoint tracked (fuel : nat) (trade_decision : Decision)
    (s : Executor * World) : list Decision :=
  match fuel with
  | 0 => []
  | S fuel =>
      (if track_data (attrs s.1) then [trade_decision] else [])
      ++ match s.1 with
         | SplitExecutor _ _ _ =>
             match (on_self self_calendar_step;;
                    _init_sub_trading trade_decision) s with
             | (Ok _, s1) => tracked_loop fuel None s1
             | _ => []
             end
         | _ => []
         end
  end
with tracked_loop (fuel : nat) (previous : option (list Entry))
    (s : Executor * World) : list Decision :=
  match fuel with
  | 0 => []
  | S fuel =>
      match on_inner finished s with
      | (Ok false, _) =>
          match ask_inner_strategy previous s with
          | (Ok d, s1) =>
              tracked fuel d (inner_state s1)
              ++ match on_inner (execute fuel d) s1 with
                 | (Ok r, s2) => tracked_loop fuel (Some r) s2
                 | _ => []
                 end
          | _ => []
          end
      | _ => []
      end
  end.

End Notions.

(** ** Notions used to state the further properties *)

(** The messages printed *)
Definition printed (evs : list Event) : list Message :=
  omap (λ ev, if ev is Print m then Some m else None) evs.

(** The warning about an order that failed the check *)
Definition is_wrong (m : Message) : bool :=
  if m is MsgWrong _ _ then true else false.

(** The date formatted into a message *)
Definition message_date (m : Message) : PyVal :=
  match m with
  | MsgSell date _ _ _ _ _ _ | MsgBuy date _ _ _ _ _ _ | MsgWrong date _ => date
  end.

(** The executors of a tree, outermost first *)
Fixpoint levels (ex : Executor) : list Executor :=
  ex :: match ex with SplitExecutor _ inner _ => levels inner | _ => [] end.

(** The inner strategies of the split executors of a tree, outermost first *)
Fixpoint strategies (ex : Executor) : list PyVal :=
  match ex with SplitExecutor _ inner σ => σ :: strategies inner | _ => [] end.

(** Whether [reset_common_infra] rebinds [trade_exchange] on an executor of
    this class when the key is in the dict: a leaf always does, a split
    executor only when it reports, the base class never. *)
Definition takes_exchange (ex : Executor) : bool :=
  match ex with
  | BaseExecutor _ => false
  | SimulatorExecutor _ => true
  | SplitExecutor a _ _ => generate_report a
  end.

(** What [reset_common_infra(infra)] has done to one executor of the tree:
    [e] before, [e'] after *)
Definition injected_level (infra : gmap string PyVal) (e e' : Executor) : Prop :=
  let a := attrs e in
  let a' := attrs e' in
  time_per_step a' = time_per_step a
  ∧ generate_report a' = generate_report a
  ∧ verbose a' = verbose a
  ∧ track_data a' = track_data a
  ∧ calendar a' = calendar a
  ∧ common_infra a' = Some (infra ∪ default ∅ (common_infra a))
  ∧ trade_exchange a'
    = match infra !! "trade_exchange" with
      | Some x => if takes_exchange e then Some x else trade_exchange a
      | None => trade_exchange a
      end
  ∧ match infra !! "trade_account" with
    | Some v => ∃ c, trade_account a' = Some (VRef c) ∧ VRef c ≠ v
    | None => trade_account a' = trade_account a
    end.

(** The calls of [Account.reset] on the accounts of the tree, outermost
    first *)
Definition account_resets (ex : Executor) : list Event :=
  omap (λ e, match trade_account (attrs e) with
             | Some (VRef c) => Some (AccountReset c (time_per_step (attrs e)) true)
             | _ => None
             end) (levels ex).

(** The levels that are asked to report, outermost first *)
Definition reporting (ex : Executor) : list Attrs :=
  filter (λ a, generate_report a = true) (attrs <$> levels ex).

(** What one level contributes to the report: its account, its label and its
    entry *)
Abbreviation Row := (addr * string * (PyVal * PyVal))%type.

Definition row_events (row : Row) : list Event :=
  [GenerateReportDataframe row.1.1 row.2.1; GetPositions row.1.1 row.2.2].

(** ** Notions used in the proofs *)

(** The relation [R] holds between the state [s] and the state in which [m]
    ends from [s], however it ends. *)
Definition preserves {S A} (R : relation S) (m : ST S A) (s : S) : Prop :=
  ∀ r s', m s = (r, s') → R s s'.

(** Every bar close among the events is on one of the given accounts. *)
Definition allowed (accts : list PyVal) (ev : Event) : Prop :=
  ∀ a, closes_bar a ev = true → VRef a ∈ accts.

(** The trace grows by events that satisfy [P]. *)
Definition emits (P : Event → Prop) : relation World :=
  λ w w', ∃ evs, trace w' = trace w ++ evs ∧ Forall P evs.

(** Code on the attributes of [self] keeps all but the calendar and closes
    bars on the account of [self] only. *)
Definition own_rel : relation (Attrs * World) :=
  λ s s', set_calendar blank s'.1 = set_calendar blank s.1
          ∧ emits (allowed (option_list (trade_account s.1))) s.2 s'.2.

(** A method of a bar keeps all but the calendars and closes bars on the
    accounts of the tree only. *)
Definition bar_rel : relation (Executor * World) :=
  λ s s', static s'.1 = static s.1 ∧ emits (allowed (accounts s.1)) s.2 s'.2.

(** The inner loop keeps the attributes of the outer executor and closes
    bars on the accounts of the inner levels only. *)
Definition loop_rel : relation (Executor * World) :=
  λ s s', attrs s'.1 = attrs s.1 ∧ static s'.1 = static s.1
          ∧ emits (allowed (inner_accounts s.1)) s.2 s'.2.

(** Only calendars change, nothing is called. *)
Definition quiet_rel : relation (Executor * World) :=
  λ s s', static s'.1 = static s.1 ∧ s'.2 = s.2.

(** [m'] ends as [m] does whenever [m] does not run out of fuel. *)
Definition refines {S A} (m m' : ST S A) (s : S) : Prop :=
  ∀ r s', m s = (r, s') → r ≠ OutOfFuel → m' s = (r, s').

(** [m] never runs out of fuel. *)
Definition total {S A} (m : ST S A) : Prop := ∀ s, (m s).1 ≠ OutOfFuel.

(** Draining [g] and then, if it returned, what follows it *)
Definition drain_then {S A B} (f : A → Gen S B) (out : list Decision * (Res A * S))
  : list Decision * (Res B * S) :=
  match out with
  | (ys, (Ok a, s1)) => let '(ys', end_) := drain (f a) s1 in (ys ++ ys', end_)
  | (ys, (Raise e, s1)) => (ys, (Raise e, s1))
  | (ys, (OutOfFuel, s1)) => (ys, (OutOfFuel, s1))
  end.

(** An exception other than [NotImplementedError] *)
Definition supported (e : Exn) : Prop :=
  match e with NotImplementedError _ => False | _ => True end.

(** From state [s], [m] raises no [NotImplementedError]. *)
Definition raises_supported {S A} (m : ST S A) (s : S) : Prop :=
  ∀ e s', m s = (Raise e, s') → supported e.

(** ** The ledger of an account *)

(** Modelled from the spec: [Account] ([account.py]) and
    [Exchange.deal_order] ([exchange.py]) are not part of the sources at
    hand.  The spec's Account is the record "{cash, positions, bar_count,
    report_rows[]}", "owned exclusively by that executor"; its Position is
    "mutated only by Account in response to MatchResult".  Accordingly the
    ledger of an account is taken to be the state of the account object, and
    the code of the other modules is taken to write the ledger of no account
    but the one that a method of [Account] is called on and the one that a
    deal is handed. *)
Definition ledger (h : Heap) (a : addr) : option PyObj := h !! a.

(** The operation leaves the ledger of [a] as it is. *)
Definition keeps_ledger {A} (a : addr) (op : Op A) : Prop :=
  ∀ h, ledger (op h).2 a = ledger h a.

Section Ledgers.
Context `{Collaborators}.

Record ledgers_are_own (a : addr) : Prop := {
  own_check_order : ∀ x o, keeps_ledger a (check_order x o);
  own_deal_order : ∀ x o acct, acct ≠ VRef a → keeps_ledger a (deal_order x o acct);
  own_account_reset : ∀ b freq init, b ≠ a → keeps_ledger a (account_reset b freq init);
  own_update_bar_count : ∀ b, b ≠ a → keeps_ledger a (update_bar_count b);
  own_update_bar_report :
    ∀ b t0 t1 x, b ≠ a → keeps_ledger a (update_bar_report b t0 t1 x);
  own_generate_report_dataframe :
    ∀ b, b ≠ a → keeps_ledger a (generate_report_dataframe b);
  own_get_positions : ∀ b, b ≠ a → keeps_ledger a (get_positions b);
  own_strategy_reset_common_infra :
    ∀ σ infra, keeps_ledger a (strategy_reset_common_infra σ infra);
  own_strategy_reset : ∀ σ c d, keeps_ledger a (strategy_reset σ c d);
  own_generate_trade_decision :
    ∀ σ c prev, keeps_ledger a (generate_trade_decision σ c prev);
}.

(** The account of one level after the injection of the account [a], whose
    state was [obj]: a new object [c], which started as [obj] and on which
    [reset] was then called *)
Definition holds_copy (a : addr) (obj : PyObj) (e : Executor) : Prop :=
  ∃ c h h',
    trade_account (attrs e) = Some (VRef c)
    ∧ c ≠ a ∧ ledger h c = None ∧ ledger h a = Some obj
    ∧ account_reset c (time_per_step (attrs e)) true (<[c := obj]> h)
      = (Returns tt, h').

End Ledgers.

(** Code on the attributes of [self] keeps all but the calendar and, unless
    the account of [self] is [a], the ledger of [a]. *)
Definition keeps_own (a : addr) : relation (Attrs * World) :=
  λ s s', set_calendar blank s'.1 = set_calendar blank s.1
          ∧ (trade_account s.1 ≠ Some (VRef a) →
             ledger (heap s'.2) a = ledger (heap s.2) a).

(** A method of a bar keeps all but the calendars and, unless [a] is an
    account of the tree, the ledger of [a]. *)
Definition keeps_tree (a : addr) : relation (Executor * World) :=
  λ s s', static s'.1 = static s.1
          ∧ (VRef a ∉ accounts s.1 →
             ledger (heap s'.2) a = ledger (heap s.2) a).

(** The ledger of [a] is the same. *)
Definition same_ledger (a : addr) : relation World :=
  λ w w', ledger (heap w') a = ledger (heap w) a.

(** ** A market that keeps every ledger in its account object

    An implementation of the collaborators in which an account object holds
    its cash, its bar count, one attribute for the position in each
    instrument and one for each report row, and in which no method writes to
    another object than the account it is called on or handed.  Instruments
    are bought at the price quoted by the exchange, without costs. *)
Module Books.
Import Sample.

Definition held (stock : string) : string := "position " +:+ stock.

Definition books_check_order (x : addr) (order : PyVal) : Op PyVal :=
  λ h, (Returns (VBool (if order is VRef o
                        then bool_decide (0 < default 0 (int_attr h o "amount"))%Z
                        else false)), h).

Definition books_deal_order (x : addr) (order account : PyVal)
  : Op (PyVal * PyVal * PyVal) :=
  λ h, or_raise "deal_order" h
    (o ← (if order is VRef o then Some o else None);
     b ← (if account is VRef b then Some b else None);
     stock ← str_attr h o "stock_id";
     amount ← int_attr h o "amount";
     price ← int_attr h x stock;
     cash ← int_attr h b "cash";
     let value := (amount * price)%Z in
     let before := default 0%Z (int_attr h b (held stock)) in
     Some (Returns (VInt value, VInt 0, VInt price),
           setattr b (held stock) (VInt (before + amount))
             (setattr b "cash" (VInt (cash - value)) h))).

Definition books_account_reset (b : addr) (freq : string) (init_report : bool)
  : Op unit :=
  λ h, (Returns tt,
        if init_report
        then setattr b "bar_count" (VInt 0) (setattr b "freq" (VStr freq) h)
        else setattr b "freq" (VStr freq) h).

Definition books_update_bar_count (b : addr) : Op unit :=
  λ h, (Returns tt,
        setattr b "bar_count" (VInt (default 0 (int_attr h b "bar_count") + 1)%Z) h).

Definition books_update_bar_report (b : addr)
    (trade_start_time trade_end_time trade_exchange : PyVal) : Op unit :=
  λ h, (Returns tt,
        setattr b ("row " +:+ pretty (default 0%Z (int_attr h b "bar_count")))
          trade_start_time h).

Definition books : Collaborators := {|
  check_order := books_check_order;
  deal_order := books_deal_order;
  account_reset := books_account_reset;
  update_bar_count := books_update_bar_count;
  update_bar_report := books_update_bar_report;
  generate_report_dataframe := λ b h, (Returns (VRef b), h);
  get_positions := λ b h, (Returns (VRef b), h);
  strategy_reset_common_infra := λ _ _ h, (Returns tt, h);
  strategy_reset := λ _ _ _ h, (Returns tt, h);
  generate_trade_decision := sample_generate_trade_decision;
  Order_SELL := VInt 0;
  parse_freq := sample_parse_freq;
  calendar_bars := sample_calendar_bars;
|}.

(** The objects of the example: the exchange 1 with its quote for X, the
    caller's account 3, the order 6 for 250 of X and the strategy 8, which
    holds it. *)
Definition shelf : Heap :=
  list_to_map
    [(1%positive, list_to_map [("X", VInt 10)]);
     (3%positive, list_to_map [("cash", VInt 1000000); ("bar_count", VInt 0)]);
     (6%positive, list_to_map [("stock_id", VStr "X"); ("amount", VInt 250)]);
     (8%positive, list_to_map [("order", VRef 6%positive)])].

Definition desk : World := {| heap := shelf; trace := [] |}.

(** A split executor with daily bars over a leaf with bars of 120 minutes,
    before the injection *)
Definition tree : Executor :=
  SplitExecutor (attrs0 "day" true false)
    (SimulatorExecutor (attrs0 "120min" true false)) (VRef 8%positive).

End Books.

(** * Properties *)

(** ** [get_exchange] *)
Section GetExchangeFacts.
Import GetExchange.

Lemma dollar_nonempty c p :
  dollar (String c p)
  = inr (if starts_with_dollar (String c p) then String c p
         else "$" +:+ String c p).
Proof.
  unfold dollar, starts_with_dollar.
  destruct (decide (String c EmptyString = "$")) as [E|E].
  - rewrite (bool_decide_eq_false_2 _ (λ N, N E)), (bool_decide_eq_true_2 _ E).
    reflexivity.
  - rewrite (bool_decide_eq_true_2 _ E), (bool_decide_eq_false_2 _ E).
    reflexivity.
Qed.

(** C10, counterexample: with no exchange given and the empty string as
    [deal_price], [deal_price[0]] raises [IndexError] and no [Exchange] is
    constructed. *)
Lemma get_exchange_empty_deal_price :
  get_exchange config0 (default_args VNone (Some ""))
  = (["Create new exchange"], Failed (IndexError "string index out of range")).
Proof. reflexivity. Qed.

(** C10, as amended: with no exchange given and a non-empty [deal_price]
    (passed in, or taken from the configuration when [None] is passed), the
    [Exchange] is constructed with a [deal_price] that starts with "$": the
    string itself when it already starts with "$", else the string with "$"
    put in front.  With an exchange given, no [Exchange(...)] call is made
    and the outcome is the same for every [deal_price]. *)
Theorem get_exchange_deal_price (C : Config) (a : Args) :
  (exchange a = VNone →
   ∀ p, effective_deal_price C a = Some p → p ≠ "" →
     ∃ kw, get_exchange C a = (["Create new exchange"], Constructed kw)
       ∧ starts_with_dollar (x_deal_price kw) = true
       ∧ x_deal_price kw = (if starts_with_dollar p then p else "$" +:+ p))
  ∧ (exchange a ≠ VNone →
     ∀ p, get_exchange C (with_deal_price p a) = ([], Delegated (exchange a))).
Proof.
  split.
  - intros Hx p Hp Hne. unfold get_exchange.
    unfold effective_deal_price in Hp. rewrite Hx, Hp.
    destruct p as [|c p]; [done|]. rewrite dollar_nonempty.
    eexists; split; [reflexivity|]. cbn [x_deal_price].
    destruct (starts_with_dollar (String c p)) eqn:E; [by rewrite E|].
    split; [|done]. unfold starts_with_dollar; cbn. by apply bool_decide_eq_true_2.
  - intros Hx p. unfold get_exchange; cbn. by destruct (exchange a).
Qed.

Lemma get_exchange_deal_price_witness :
  (∃ kw, get_exchange config0 (default_args VNone None)
         = (["Create new exchange"], Constructed kw)
     ∧ starts_with_dollar (x_deal_price kw) = true
     ∧ x_deal_price kw = "$close")
  ∧ get_exchange config0 (default_args (VRef 1%positive) (Some "open"))
    = ([], Delegated (VRef 1%positive)).
Proof.
  split.
  - apply (proj1 (get_exchange_deal_price config0 (default_args VNone None))
             eq_refl "close" eq_refl).
    discriminate.
  - apply (proj2 (get_exchange_deal_price config0
                    (default_args (VRef 1%positive) None))).
    discriminate.
Defined.

End GetExchangeFacts.

(** ** The monad *)
Section MonadFacts.
Context {S : Type}.
Implicit Types s : S.

Lemma bind_inv {A B} (m : ST S A) (k : A → ST S B) s r s' :
  st_bind m k s = (r, s') →
  (∃ a s1, m s = (Ok a, s1) ∧ k a s1 = (r, s'))
  ∨ (∃ e, m s = (Raise e, s') ∧ r = Raise e)
  ∨ (m s = (OutOfFuel, s') ∧ r = OutOfFuel).
Proof.
  unfold st_bind. destruct (m s) as [[a|e|] s1]; intros E.
  - left. eauto.
  - right; left. inversion E; subst. eauto.
  - right; right. by inversion E.
Qed.

Lemma bind_Ok {A B} (m : ST S A) (k : A → ST S B) s b s' :
  st_bind m k s = (Ok b, s') ↔ ∃ a s1, m s = (Ok a, s1) ∧ k a s1 = (Ok b, s').
Proof.
  split.
  - intros E. destruct (bind_inv _ _ _ _ _ E) as [?|[(e & _ & ?)|[_ ?]]];
      [done|done..].
  - intros (a & s1 & E1 & E2). unfold st_bind. by rewrite E1.
Qed.

Lemma bind_step {A B} (m : ST S A) (k : A → ST S B) s a s1 :
  m s = (Ok a, s1) → st_bind m k s = k a s1.
Proof. intros E. unfold st_bind. by rewrite E. Qed.

Lemma bind_raise {A B} (m : ST S A) (k : A → ST S B) s e s1 :
  m s = (Raise e, s1) → st_bind m k s = (Raise e, s1).
Proof. intros E. unfold st_bind. by rewrite E. Qed.

Lemma bind_fuel {A B} (m : ST S A) (k : A → ST S B) s s1 :
  m s = (OutOfFuel, s1) → st_bind m k s = (OutOfFuel, s1).
Proof. intros E. unfold st_bind. by rewrite E. Qed.

Lemma ret_Ok {A} (a b : A) s s' : st_ret a s = (Ok b, s') ↔ b = a ∧ s' = s.
Proof. unfold st_ret. split; [by inversion 1|by intros [-> ->]]. Qed.

Lemma pure_ret_Ok {A} (x : Ret A) (b : A) s s' :
  pure_ret x s = (Ok b, s') ↔ x = Returns b ∧ s' = s.
Proof.
  destruct x; cbn; unfold st_ret, raise; split;
    try (by inversion 1); intros [? ?]; by simplify_eq.
Qed.

Lemma method_Ok meth (recv : PyVal) (a : addr) s s' :
  method meth recv s = (Ok a, s') ↔ recv = VRef a ∧ s' = s.
Proof.
  destruct recv; cbn; unfold raise, st_ret; split;
    try (by inversion 1); intros [? ?]; by simplify_eq.
Qed.

Lemma preserves_bind {A B} (R : relation S) `{!Transitive R}
    (m : ST S A) (k : A → ST S B) s :
  preserves R m s →
  (∀ a s1, m s = (Ok a, s1) → preserves R (k a) s1) →
  preserves R (st_bind m k) s.
Proof.
  intros Hm Hk r s' E.
  destruct (bind_inv _ _ _ _ _ E) as [(a & s1 & E1 & E2)|[(e & E1 & _)|[E1 _]]].
  - etrans; [by eapply Hm|by eapply Hk].
  - by eapply Hm.
  - by eapply Hm.
Qed.

Lemma preserves_same {A} (R : relation S) `{!Reflexive R} (m : ST S A) s :
  (m s).2 = s → preserves R m s.
Proof. intros E r s' E'. rewrite E' in E. cbn in E. by subst. Qed.

Lemma preserves_ret {A} (R : relation S) `{!Reflexive R} (a : A) s :
  preserves R (st_ret a) s.
Proof. by apply preserves_same. Qed.

Lemma preserves_raise {A} (R : relation S) `{!Reflexive R} e s :
  preserves R (raise (A:=A) e) s.
Proof. by apply preserves_same. Qed.

Lemma preserves_fuel {A} (R : relation S) `{!Reflexive R} s :
  preserves R (out_of_fuel (A:=A)) s.
Proof. by apply preserves_same. Qed.

Lemma preserves_pure_ret {A} (R : relation S) `{!Reflexive R} (x : Ret A) s :
  preserves R (pure_ret x) s.
Proof. apply preserves_same; [done|]. by destruct x. Qed.

Lemma preserves_method (R : relation S) `{!Reflexive R} meth recv s :
  preserves R (method meth recv) s.
Proof. apply preserves_same; [done|]. by destruct recv. Qed.

Lemma preserves_weaken {A} (R R' : relation S) (m : ST S A) s :
  (∀ s', R s s' → R' s s') → preserves R m s → preserves R' m s.
Proof. intros HR Hm r s' E. apply HR. by eapply Hm. Qed.

End MonadFacts.

(** ** Elementary steps *)
Section Steps.
Context `{Collaborators}.

Lemma self_get_Ok {A} (f : Attrs → A) s x s' :
  self_get f s = (Ok x, s') ↔ x = f s.1 ∧ s' = s.
Proof. unfold self_get. split; [by inversion 1|by intros [-> ->]]. Qed.

Lemma self_attr_Ok {A} name (f : Attrs → option A) s x s' :
  self_attr name f s = (Ok x, s') ↔ f s.1 = Some x ∧ s' = s.
Proof.
  unfold self_attr. destruct (f s.1); split;
    try (by inversion 1); intros [? ?]; by simplify_eq.
Qed.

Lemma self_set_Ok f (a : Attrs) (w : World) u s' :
  self_set f (a, w) = (Ok u, s') ↔ s' = (f a, w).
Proof. destruct u. cbn. split; [by inversion 1|by intros ->]. Qed.

Lemma invoke_Ok {A} (op : Op A) ev w x w' :
  invoke op ev w = (Ok x, w') ↔
  ∃ h, op (heap w) = (Returns x, h)
       ∧ w' = {| heap := h; trace := trace w ++ [ev x] |}.
Proof.
  unfold invoke. destruct (op (heap w)) as [[y|msg] h]; split.
  - inversion 1; subst. eauto.
  - intros (h' & E & ->). by simplify_eq.
  - inversion 1.
  - intros (h' & E & _). done.
Qed.

Lemma on_snd_Ok {X S A} (m : ST S A) (x : X) s r s' :
  on_snd m (x, s) = (Ok r, s') ↔ ∃ s1, m s = (Ok r, s1) ∧ s' = (x, s1).
Proof.
  cbn. destruct (m s) as [r1 s1]. split.
  - inversion 1; subst. eauto.
  - intros (s2 & E & ->). by simplify_eq.
Qed.

Lemma on_snd_eq {X S A} (m : ST S A) (x : X) s :
  on_snd m (x, s) = ((m s).1, (x, (m s).2)).
Proof. cbn. by destruct (m s). Qed.

Lemma getattr_Ok obj name w v w' :
  getattr obj name w = (Ok v, w') → w' = w.
Proof.
  unfold getattr. destruct obj; try (by inversion 1).
  destruct (_ ≫= _); by inversion 1.
Qed.

Lemma print_Ok msg w u w' :
  print msg w = (Ok u, w') ↔ w' = {| heap := heap w; trace := trace w ++ [Print msg] |}.
Proof. destruct u. unfold print. split; [by inversion 1|by intros ->]. Qed.

Lemma on_self_Ok {A} (m : M A) ex w r s' :
  on_self m (ex, w) = (Ok r, s') ↔
  ∃ a' w', m (attrs ex, w) = (Ok r, (a', w')) ∧ s' = (with_attrs a' ex, w').
Proof.
  cbn. destruct (m (attrs ex, w)) as [r1 [a1 w1]]. split.
  - inversion 1; subst. eauto.
  - intros (a' & w' & E & ->). by simplify_eq.
Qed.

Lemma on_self_eq {A} (m : M A) ex w :
  on_self m (ex, w)
  = ((m (attrs ex, w)).1,
     (with_attrs (m (attrs ex, w)).2.1 ex, (m (attrs ex, w)).2.2)).
Proof. cbn. by destruct (m (attrs ex, w)) as [r1 [a1 w1]]. Qed.

Lemma on_inner_eq {A} (m : E A) a inner σ w :
  on_inner m (SplitExecutor a inner σ, w)
  = ((m (inner, w)).1,
     (SplitExecutor a (m (inner, w)).2.1 σ, (m (inner, w)).2.2)).
Proof. cbn. by destruct (m (inner, w)) as [r1 [a1 w1]]. Qed.

Lemma on_inner_Ok {A} (m : E A) a inner σ w r s' :
  on_inner m (SplitExecutor a inner σ, w) = (Ok r, s') ↔
  ∃ inner' w', m (inner, w) = (Ok r, (inner', w'))
               ∧ s' = (SplitExecutor a inner' σ, w').
Proof.
  rewrite on_inner_eq. destruct (m (inner, w)) as [r1 [i1 w1]]; cbn. split.
  - inversion 1; subst. eauto.
  - intros (a' & w' & E & ->). by simplify_eq.
Qed.

Lemma with_attrs_attrs ex : with_attrs (attrs ex) ex = ex.
Proof. by destruct ex. Qed.

Lemma attrs_with_attrs a ex : attrs (with_attrs a ex) = a.
Proof. by destruct ex. Qed.

Lemma set_calendar_calendar a : set_calendar (calendar a) a = a.
Proof. by destruct a. Qed.

Lemma static_with_attrs a ex :
  set_calendar blank a = set_calendar blank (attrs ex) →
  static (with_attrs a ex) = static ex.
Proof. destruct ex; cbn [static with_attrs attrs]; by intros ->. Qed.

Lemma static_attrs ex ex' :
  static ex' = static ex →
  set_calendar blank (attrs ex') = set_calendar blank (attrs ex).
Proof.
  destruct ex, ex'; cbn [static attrs]; congruence.
Qed.

Lemma blank_fields a a' :
  set_calendar blank a' = set_calendar blank a →
  time_per_step a' = time_per_step a ∧ generate_report a' = generate_report a
  ∧ verbose a' = verbose a ∧ track_data a' = track_data a
  ∧ common_infra a' = common_infra a ∧ trade_account a' = trade_account a
  ∧ trade_exchange a' = trade_exchange a.
Proof. destruct a, a'; cbn. intros [=]. by subst. Qed.

Lemma accounts_static ex ex' : static ex' = static ex → accounts ex' = accounts ex.
Proof.
  revert ex'. induction ex as [a|a|a inner IH σ]; intros [a'|a'|a' inner' σ'];
    cbn [static accounts attrs]; intros E; try discriminate E;
    (assert (set_calendar blank a' = set_calendar blank a) as Ea by congruence);
    apply blank_fields in Ea as (_&_&_&_&_&->&_); [done..|].
  f_equal. apply IH. congruence.
Qed.

Lemma depth_static ex ex' : static ex' = static ex → depth ex' = depth ex.
Proof.
  revert ex'. induction ex as [a|a|a inner IH σ]; intros [a'|a'|a' inner' σ'];
    cbn [static depth]; intros E; try discriminate E; [done..|].
  f_equal. apply IH. congruence.
Qed.

Lemma concrete_static ex ex' : static ex' = static ex → concrete ex' = concrete ex.
Proof.
  revert ex'. induction ex as [a|a|a inner IH σ]; intros [a'|a'|a' inner' σ'];
    cbn [static concrete]; intros E; try discriminate E; [done..|].
  apply IH. congruence.
Qed.

End Steps.

(** ** What a bar keeps and which bars it closes *)
Section Frames.
Context `{Collaborators}.

Global Instance emits_preorder P : PreOrder (emits P).
Proof.
  split.
  - intros w. exists []. by rewrite app_nil_r.
  - intros w1 w2 w3 (e1 & E1 & F1) (e2 & E2 & F2). exists (e1 ++ e2).
    rewrite E2, E1, (assoc_L (++)). split; [done|]. by apply Forall_app.
Qed.

Lemma emits_mono (P Q : Event → Prop) w w' :
  (∀ ev, P ev → Q ev) → emits P w w' → emits Q w w'.
Proof. intros PQ (evs & E & F). exists evs. split; [done|]. by eapply Forall_impl. Qed.

Lemma allowed_mono accts accts' ev :
  accts ⊆ accts' → allowed accts ev → allowed accts' ev.
Proof. intros Hs Ha a C. apply Hs, Ha, C. Qed.

Lemma allowed_other accts ev : is_close ev = false → allowed accts ev.
Proof. intros E a C. by destruct ev. Qed.

Lemma emits_log P h (w : World) ev :
  P ev → emits P w {| heap := h; trace := trace w ++ [ev] |}.
Proof. intros Hev. exists [ev]. split; [done|]. by apply Forall_singleton. Qed.

Lemma emits_heap P h (w : World) :
  emits P w {| heap := h; trace := trace w |}.
Proof. exists []. split; [by rewrite app_nil_r|done]. Qed.

Lemma inner_accounts_static ex ex' :
  static ex' = static ex → inner_accounts ex' = inner_accounts ex.
Proof.
  destruct ex, ex'; cbn [static inner_accounts]; intros E; try discriminate E;
    [done..|]. apply accounts_static. congruence.
Qed.

Global Instance own_rel_preorder : PreOrder own_rel.
Proof.
  split.
  - intros s. split; reflexivity.
  - intros s1 s2 s3 [E1 F1] [E2 F2]. split; [congruence|].
    etrans; [done|]. apply blank_fields in E1 as (_&_&_&_&_&E1&_).
    by rewrite <-E1.
Qed.

Global Instance bar_rel_preorder : PreOrder bar_rel.
Proof.
  split.
  - intros s. split; reflexivity.
  - intros s1 s2 s3 [E1 F1] [E2 F2]. split; [congruence|].
    etrans; [done|]. by rewrite <-(accounts_static _ _ E1).
Qed.

Global Instance loop_rel_preorder : PreOrder loop_rel.
Proof.
  split.
  - intros s. split; [|split]; reflexivity.
  - intros s1 s2 s3 (A1 & E1 & F1) (A2 & E2 & F2).
    split; [congruence|]. split; [congruence|].
    etrans; [done|]. by rewrite <-(inner_accounts_static _ _ E1).
Qed.

Global Instance quiet_rel_preorder : PreOrder quiet_rel.
Proof.
  split.
  - intros s. by split.
  - intros s1 s2 s3 [E1 F1] [E2 F2]. split; congruence.
Qed.

Lemma own_invoke {A} (op : Op A) ev (self : Attrs) (w : World) :
  (∀ x, allowed (option_list (trade_account self)) (ev x)) →
  preserves own_rel (on_snd (invoke op ev)) (self, w).
Proof.
  intros Hev r s' E. rewrite on_snd_eq in E. unfold invoke in E.
  destruct (op (heap w)) as [[x|msg] h]; inversion E; subst; cbn.
  - split; [done|]. by apply emits_log.
  - split; [done|]. apply emits_heap.
Qed.

Lemma own_print msg (self : Attrs) (w : World) :
  preserves own_rel (on_snd (print msg)) (self, w).
Proof.
  intros r s' E. inversion E; subst. split; [done|]. cbn.
  by apply emits_log, allowed_other.
Qed.

Lemma own_getattr obj name (s : Attrs * World) :
  preserves own_rel (on_snd (getattr obj name)) s.
Proof.
  apply preserves_same; [apply _|]. destruct s as [self w].
  rewrite on_snd_eq. cbn. f_equal. unfold getattr.
  destruct obj; try done. by destruct (_ ≫= _).
Qed.

Lemma own_set_calendar c (s : Attrs * World) :
  preserves own_rel (self_set (set_calendar c)) s.
Proof. destruct s as [self w]. intros r s' E. inversion E; subst. by split. Qed.

Lemma preserves_self_attr {A} (R : relation (Attrs * World)) `{!Reflexive R}
    name (f : Attrs → option A) s :
  preserves R (self_attr name f) s.
Proof. apply preserves_same; [done|]. unfold self_attr. by destruct (f s.1). Qed.

Lemma preserves_self_get {A} (R : relation (Attrs * World)) `{!Reflexive R}
    (f : Attrs → A) s :
  preserves R (self_get f) s.
Proof. by apply preserves_same. Qed.

Lemma allowed_bar_count self a :
  trade_account self = Some (VRef a) →
  allowed (option_list (trade_account self)) (UpdateBarCount a).
Proof.
  intros -> a' C. cbn in *. apply bool_decide_eq_true in C as ->.
  by apply list_elem_of_singleton.
Qed.

Lemma allowed_bar_report self a t0 t1 x :
  trade_account self = Some (VRef a) →
  allowed (option_list (trade_account self)) (UpdateBarReport a t0 t1 x).
Proof.
  intros -> a' C. cbn in *. apply bool_decide_eq_true in C as ->.
  by apply list_elem_of_singleton.
Qed.

End Frames.

Ltac pres_bind :=
  apply preserves_bind; [apply _| |intros ? ? ?].

Ltac pres_simple :=
  first [ apply preserves_self_attr; apply _
        | apply preserves_self_get; apply _
        | apply preserves_method; apply _
        | apply preserves_pure_ret; apply _
        | apply preserves_ret; apply _
        | apply preserves_raise; apply _
        | apply own_getattr
        | apply own_print
        | apply own_set_calendar
        | apply own_invoke; intros ?; apply allowed_other; reflexivity ].

Ltac pres_inv E :=
  first [ apply self_attr_Ok in E as [E ->]
        | apply self_get_Ok in E as [-> ->]
        | apply method_Ok in E as [-> ->]
        | apply pure_ret_Ok in E as [E ->]
        | apply ret_Ok in E as [<- <-]
        | idtac ].

Ltac pres :=
  repeat first
    [ pres_simple
    | lazymatch goal with
      | |- preserves _ (st_bind _ _) ?s =>
          let a := fresh "a" in let s1 := fresh "s" in let E := fresh "E" in
          apply preserves_bind; [apply _| |intros a s1 E; pres_inv E; try destruct s1 as [? ?]; cbn beta iota]
      | |- preserves _ (if ?b then _ else _) _ => destruct b
      | |- preserves _ (match ?x with _ => _ end) _ => destruct x
      end ].

Ltac own_close :=
  apply own_invoke; intros ?;
  first [by apply allowed_bar_count | by apply allowed_bar_report].

Section FramesExec.
Context `{Collaborators}.

Lemma own_deal_orders t orders acc s : preserves own_rel (deal_orders t orders acc) s.
Proof.
  revert acc s. induction orders as [|order orders IH]; intros acc [self w].
  - by apply preserves_ret.
  - cbn [deal_orders]. pres; try apply IH.
Qed.

Lemma self_calendar_step_Ok self w u s' :
  self_calendar_step (self, w) = (Ok u, s') ↔
  ∃ c, calendar_step (calendar self) = Returns c ∧ s' = (set_calendar c self, w).
Proof.
  unfold self_calendar_step. rewrite bind_Ok. split.
  - intros (c & s1 & [-> ->]%self_get_Ok & (c' & s2 & [E ->]%pure_ret_Ok & E2)%bind_Ok).
    apply self_set_Ok in E2. eauto.
  - intros (c & E & ->). eexists _, _. split; [by apply self_get_Ok|].
    apply bind_Ok. eexists _, _. split; [by apply pure_ret_Ok|]. by destruct u.
Qed.

Lemma self_trade_time_Ok s t s' :
  self_trade_time s = (Ok t, s') ↔
  get_calendar_time (calendar s.1) (get_trade_index (calendar s.1)) = Returns t
  ∧ s' = s.
Proof.
  unfold self_trade_time. rewrite bind_Ok. split.
  - by intros (c & s1 & [-> ->]%self_get_Ok & [E ->]%pure_ret_Ok).
  - intros [E ->]. eexists _, _. split; [by apply self_get_Ok|]. by apply pure_ret_Ok.
Qed.

Lemma own_self_calendar_step s : preserves own_rel self_calendar_step s.
Proof. unfold self_calendar_step. pres. Qed.

Lemma own_self_trade_time s : preserves own_rel self_trade_time s.
Proof. unfold self_trade_time. pres. Qed.

Lemma own_simulator_execute d s : preserves own_rel (simulator_execute d) s.
Proof.
  destruct s as [self w]. unfold simulator_execute.
  pres; try apply own_deal_orders; try apply own_self_calendar_step;
    try apply own_self_trade_time; own_close.
Qed.

Lemma own_update_trade_account s : preserves own_rel _update_trade_account s.
Proof.
  destruct s as [self w]. unfold _update_trade_account.
  pres; try apply own_self_trade_time; own_close.
Qed.

(** Lifting to the executor *)
Lemma bar_on_self {A} (m : M A) ex w :
  preserves own_rel m (attrs ex, w) → preserves bar_rel (on_self m) (ex, w).
Proof.
  intros Hm r s' E. rewrite on_self_eq in E.
  destruct (m (attrs ex, w)) as [r1 [a1 w1]] eqn:Em. inversion E; subst; clear E.
  destruct (Hm _ _ Em) as [E F]. cbn in *. split.
  - by apply static_with_attrs.
  - eapply emits_mono; [|done]. intros ev. apply allowed_mono.
    destruct ex; cbn; set_solver.
Qed.

Lemma quiet_bar s s' : quiet_rel s s' → bar_rel s s'.
Proof. intros [E1 E2]. split; [done|]. rewrite E2. reflexivity. Qed.

Lemma quiet_on_self_set_calendar c s :
  preserves quiet_rel (on_self (self_set (set_calendar c))) s.
Proof.
  destruct s as [ex w]. intros r s' E. inversion E; subst. split; [|done].
  cbn. apply static_with_attrs. by destruct (attrs ex).
Qed.

Lemma quiet_reset kw s : preserves quiet_rel (reset None None kw) s.
Proof.
  destruct s as [ex w]. unfold reset.
  apply preserves_bind; [apply _|by apply preserves_ret|intros [] s1 [_ ->]%ret_Ok].
  apply preserves_bind; [apply _| |intros [] s1 _; by apply preserves_ret].
  destruct (_ || _); [|by apply preserves_ret].
  apply preserves_bind; [apply _| |intros freq s1 E].
  { apply preserves_same; [apply _|]. rewrite on_self_eq. cbn. by rewrite with_attrs_attrs. }
  apply preserves_bind; [apply _|by apply preserves_pure_ret|intros c s2 _].
  apply quiet_on_self_set_calendar.
Qed.

Lemma loop_bar s s' : loop_rel s s' → bar_rel s s'.
Proof.
  intros (_ & E & F). split; [done|]. eapply emits_mono; [|done].
  intros ev. apply allowed_mono. destruct s as [[] ?]; cbn; set_solver.
Qed.

Lemma loop_on_inner {A} (R : relation (Executor * World)) (m : E A) s :
  (∀ s', R (inner_state s) s' → bar_rel (inner_state s) s') →
  preserves R m (inner_state s) → preserves loop_rel (on_inner m) s.
Proof.
  destruct s as [[a|a|a inner σ] w]; intros HR Hm;
    [by apply preserves_same|by apply preserves_same|].
  intros r s' E. rewrite on_inner_eq in E.
  destruct (m (inner, w)) as [r1 [i1 w1]] eqn:Em. inversion E; subst; clear E.
  destruct (HR _ (Hm _ _ Em)) as [E F]. cbn in *.
  split; [done|]. split; [cbn; by rewrite E|done].
Qed.

Lemma loop_invoke {A} (op : Op A) ev (s : Executor * World) :
  (∀ x, is_close (ev x) = false) →
  preserves loop_rel (on_snd (invoke op ev)) s.
Proof.
  destruct s as [ex w]. intros Hev r s' E. rewrite on_snd_eq in E. unfold invoke in E.
  destruct (op (heap w)) as [[x|msg] h]; inversion E; subst; cbn.
  - split; [done|]. split; [done|]. by apply emits_log, allowed_other.
  - split; [done|]. split; [done|]. apply emits_heap.
Qed.

Lemma self_inner_strategy_same s : (self_inner_strategy s).2 = s.
Proof. by destruct s as [[] ?]. Qed.

Lemma on_self_get_same {A} (f : Attrs → A) s : (on_self (self_get f) s).2 = s.
Proof. destruct s. rewrite on_self_eq. cbn. by rewrite with_attrs_attrs. Qed.

Lemma on_self_trade_time_same s : (on_self self_trade_time s).2 = s.
Proof.
  destruct s as [ex w]. rewrite on_self_eq. unfold self_trade_time, st_bind.
  cbn. destruct (get_calendar_time _ _); cbn; by rewrite with_attrs_attrs.
Qed.

Lemma on_inner_get_level_infra_same s : (on_inner get_level_infra s).2 = s.
Proof.
  destruct s as [[a|a|a inner σ] w]; try done. rewrite on_inner_eq.
  unfold get_level_infra. by rewrite on_self_get_same.
Qed.

Lemma on_inner_finished_same s : (on_inner finished s).2 = s.
Proof.
  destruct s as [[a|a|a inner σ] w]; try done. rewrite on_inner_eq.
  unfold finished, st_bind.
  destruct (on_self (self_get calendar) (inner, w)) as [r s1] eqn:E.
  pose proof (on_self_get_same calendar (inner, w)) as E'. rewrite E in E'.
  cbn in E'. subst. by destruct r.
Qed.

Lemma loop_init_sub_trading d s : preserves loop_rel (_init_sub_trading d) s.
Proof.
  unfold _init_sub_trading.
  apply preserves_bind; [apply _| |intros [t0 t1] s1 E].
  { apply preserves_same; [apply _|]. apply on_self_trade_time_same. }
  pose proof (on_self_trade_time_same s) as E'. rewrite E in E'. cbn in E'. subst s1.
  apply preserves_bind; [apply _| |intros [] s1 _].
  { eapply loop_on_inner; [apply quiet_bar|apply quiet_reset]. }
  apply preserves_bind; [apply _| |intros c s2 _].
  { apply preserves_same; [apply _|]. apply on_inner_get_level_infra_same. }
  apply preserves_bind; [apply _| |intros x s3 _].
  { apply preserves_same; [apply _|]. apply self_inner_strategy_same. }
  apply preserves_bind; [apply _|by apply preserves_method|intros σ s4 _].
  by apply loop_invoke.
Qed.

Lemma loop_ask_inner_strategy prev s : preserves loop_rel (ask_inner_strategy prev) s.
Proof.
  unfold ask_inner_strategy.
  apply preserves_bind; [apply _| |intros x s3 _].
  { apply preserves_same; [apply _|]. apply self_inner_strategy_same. }
  apply preserves_bind; [apply _|by apply preserves_method|intros σ s4 _].
  apply preserves_bind; [apply _| |intros c s2 _].
  { apply preserves_same; [apply _|]. apply on_inner_get_level_infra_same. }
  by apply loop_invoke.
Qed.

Lemma bar_close_outer_bar s : preserves bar_rel close_outer_bar s.
Proof.
  unfold close_outer_bar.
  apply preserves_bind; [apply _| |intros acct s1 _].
  { apply preserves_same; [apply _|]. apply on_self_get_same. }
  destruct acct; [|by apply preserves_ret]. destruct s1.
  apply bar_on_self, own_update_trade_account.
Qed.

Lemma execute_frames fuel :
  (∀ d s, preserves bar_rel (execute fuel d) s)
  ∧ (∀ prev acc s, preserves loop_rel (split_loop fuel prev acc) s).
Proof.
  induction fuel as [|fuel [IHe IHl]].
  { split; intros; by apply preserves_fuel. }
  split.
  - intros d [ex w]. cbn [execute]. destruct ex as [a|a|a inner σ]; cbn [fst].
    + by apply preserves_raise.
    + apply bar_on_self, own_simulator_execute.
    + apply preserves_bind; [apply _| |intros [] s1 _].
      { apply bar_on_self, own_self_calendar_step. }
      apply preserves_bind; [apply _| |intros [] s2 _].
      { eapply preserves_weaken; [apply loop_bar|apply loop_init_sub_trading]. }
      apply preserves_bind; [apply _| |intros r s3 _].
      { eapply preserves_weaken; [apply loop_bar|apply IHl]. }
      apply preserves_bind; [apply _|apply bar_close_outer_bar|intros [] s4 _].
      by apply preserves_ret.
  - intros prev acc s. cbn [split_loop].
    apply preserves_bind; [apply _| |intros fin s1 E].
    { apply preserves_same; [apply _|]. apply on_inner_finished_same. }
    destruct fin; [by apply preserves_ret|].
    apply preserves_bind; [apply _|apply loop_ask_inner_strategy|intros d s2 _].
    apply preserves_bind; [apply _| |intros r s3 _]; [|apply IHl].
    eapply loop_on_inner; [|apply IHe]. done.
Qed.
End FramesExec.

(** ** What a bar does when it returns *)

(** Take apart a hypothesis that monadic code returned a value. *)
Ltac inv_ok H :=
  lazymatch type of H with
  | st_bind _ _ _ = (Ok _, _) =>
      let a := fresh "a" in
      let s1 := fresh "s" in
      let H1 := fresh H in
      let H2 := fresh H in
      apply bind_Ok in H as (a & s1 & H1 & H2);
      inv_ok H1; cbn beta iota in H2; inv_ok H2
  | st_ret _ _ = (Ok _, _) => apply ret_Ok in H as [? ?]; simplify_eq
  | self_attr _ _ _ = (Ok _, _) =>
      apply self_attr_Ok in H as [H ->]; cbn [fst snd] in H
  | self_get _ _ = (Ok _, _) =>
      apply self_get_Ok in H as [-> ->]; cbn [fst snd] in *
  | method _ _ _ = (Ok _, _) => apply method_Ok in H as [-> ->]
  | pure_ret _ _ = (Ok _, _) => apply pure_ret_Ok in H as [H ->]
  | on_snd (invoke _ _) _ = (Ok _, _) =>
      let Hs := fresh in
      apply on_snd_Ok in H as (? & H & Hs);
      apply invoke_Ok in H as (? & H & ->); simplify_eq
  | on_snd (print _) _ = (Ok _, _) =>
      let Hs := fresh in
      apply on_snd_Ok in H as (? & H & Hs); apply print_Ok in H as ->;
      simplify_eq
  | on_snd (getattr _ _) _ = (Ok _, _) =>
      let H' := fresh H in
      apply on_snd_Ok in H as (? & H & ->);
      pose proof (getattr_Ok _ _ _ _ _ H) as H'; subst
  | self_set _ _ = (Ok _, _) => apply self_set_Ok in H as ->
  | (if ?b then _ else _) _ = (Ok _, _) => destruct b eqn:?; inv_ok H
  | (match ?x with _ => _ end) _ = (Ok _, _) => destruct x eqn:?; inv_ok H
  | _ => idtac
  end.

Section Bars.
Context `{Collaborators}.

Lemma deal_orders_Ok t orders acc self w r self' w' :
  deal_orders t orders acc (self, w) = (Ok r, (self', w')) →
  self' = self
  ∧ ∃ evs, trace w' = trace w ++ evs
      ∧ (checked evs).*1 = orders
      ∧ r = acc ++ dealt evs
      ∧ entry_order <$> dealt evs = (filter (λ c, is_True c.2 = true) (checked evs)).*1
      ∧ Forall (λ ev, of_order ev = true) evs.
Proof.
  revert acc w. induction orders as [|order orders IH]; intros acc w E.
  - cbn [deal_orders] in E. inv_ok E. split; [done|]. exists []. by rewrite !app_nil_r.
  - cbn [deal_orders] in E. inv_ok E;
      (match goal with
       | E' : deal_orders _ _ _ _ = _ |- _ =>
           apply IH in E' as (-> & evs & Et & Ec & Er & Ef & Fc)
       end);
      cbn [trace heap] in Et; rewrite <-?(assoc_L (++)) in Et; cbn [app] in Et;
      (split; [done|]); (eexists; split; [exact Et|]);
      unfold checked, dealt in *; cbn [omap list_omap fmap list_fmap fst];
      (split; [by f_equal|]);
      (split; [by rewrite Er, <-?(assoc_L (++))|]);
      (split; [|by repeat constructor]).
    1-3: rewrite filter_cons_True by done; cbn; by f_equal.
    1-2: rewrite filter_cons_False by (cbn; congruence); done.
Qed.

Lemma simulator_execute_Ok d self w r self' w' :
  simulator_execute d (self, w) = (Ok r, (self', w')) →
  ∃ c t0 t1 a x evs,
    calendar_step (calendar self) = Returns c
    ∧ self' = set_calendar c self
    ∧ get_calendar_time c (get_trade_index c) = Returns (t0, t1)
    ∧ trade_account self = Some (VRef a)
    ∧ (generate_report self = true → trade_exchange self = Some x)
    ∧ trace w' = trace w ++ evs ++ bar_close a (generate_report self) t0 t1 x
    ∧ (checked evs).*1 = d
    ∧ r = dealt evs
    ∧ entry_order <$> r = (filter (λ c, is_True c.2 = true) (checked evs)).*1
    ∧ Forall (λ ev, of_order ev = true) evs.
Proof.
  unfold simulator_execute. intros E.
  apply bind_Ok in E as ([] & [self1 w1] & E1 & E).
  apply self_calendar_step_Ok in E1 as (c & Ec & [= -> ->]).
  apply bind_Ok in E as ([t0 t1] & s2 & [Et ->]%self_trade_time_Ok & E).
  apply bind_Ok in E as (r0 & [self2 w2] & Ed & E).
  apply deal_orders_Ok in Ed as (-> & evs & Etr & Ech & -> & Ef & Fc).
  inv_ok E; cbn [trace heap] in *;
    change (generate_report (set_calendar c self)) with (generate_report self) in *;
    change (trade_account (set_calendar c self)) with (trade_account self) in *;
    change (trade_exchange (set_calendar c self)) with (trade_exchange self) in *.
  - exists c, t0, t1. eexists _, _, evs. rewrite Heqb.
    split_and!; [done|by destruct self|done|eassumption|intros _; eassumption| |done..].
    rewrite Etr, <-!(assoc_L (++)). cbn.
    repeat match goal with E : trade_account _ = _ |- _ => rewrite E in *; clear E end.
    by simplify_eq.
  - exists c, t0, t1. eexists _, VNone, evs. rewrite Heqb.
    split_and!; [done|by destruct self|done|eassumption|done| |done..].
    rewrite Etr, <-!(assoc_L (++)). done.
Qed.

Lemma on_inner_finished_Ok a inner σ w fin s' :
  on_inner finished (SplitExecutor a inner σ, w) = (Ok fin, s') ↔
  fin = calendar_finished (calendar (attrs inner))
  ∧ s' = (SplitExecutor a inner σ, w).
Proof.
  rewrite on_inner_eq. unfold finished, st_bind. rewrite on_self_eq. cbn.
  rewrite with_attrs_attrs. split; [by inversion 1|by intros [-> ->]].
Qed.

Lemma ask_inner_strategy_Ok prev a inner σ w d s' :
  ask_inner_strategy prev (SplitExecutor a inner σ, w) = (Ok d, s') ↔
  ∃ σa h, σ = VRef σa
    ∧ generate_trade_decision σa (calendar (attrs inner)) prev (heap w)
      = (Returns d, h)
    ∧ s' = (SplitExecutor a inner σ,
            {| heap := h; trace := trace w ++ [GenerateTradeDecision σa prev d] |}).
Proof.
  unfold ask_inner_strategy. rewrite bind_Ok. split.
  - intros (x & s1 & E1 & E). cbn in E1. simplify_eq.
    apply bind_Ok in E as (σa & s1 & [-> ->]%method_Ok & E).
    apply bind_Ok in E as (c & s1 & E1 & E).
    rewrite on_inner_eq in E1. unfold get_level_infra in E1.
    rewrite on_self_eq in E1. cbn in E1. rewrite with_attrs_attrs in E1.
    simplify_eq.
    apply on_snd_Ok in E as (w1 & E & ->). apply invoke_Ok in E as (h & E & ->).
    eauto.
  - intros (σa & h & -> & E & ->). eexists _, _. split; [done|].
    apply bind_Ok. eexists _, _. split; [by apply method_Ok|].
    apply bind_Ok. eexists (calendar (attrs inner)), _. split.
    { rewrite on_inner_eq. unfold get_level_infra. rewrite on_self_eq. cbn.
      by rewrite with_attrs_attrs. }
    apply on_snd_Ok. eexists. split; [|done]. apply invoke_Ok. eauto.
Qed.

Lemma split_loop_Ok fuel prev acc a inner σa w r s' :
  split_loop fuel prev acc (SplitExecutor a inner (VRef σa), w) = (Ok r, s') →
  ∃ its inner1 w1,
    inner_run σa prev (inner, w) its (inner1, w1)
    ∧ s' = (SplitExecutor a inner1 (VRef σa), w1)
    ∧ r = acc ++ concat its.*2
    ∧ calendar_finished (calendar (attrs inner1)) = true.
Proof.
  revert prev acc inner w. induction fuel as [|fuel IH]; intros prev acc inner w E.
  { done. }
  cbn [split_loop] in E.
  apply bind_Ok in E as (fin & s1 & [-> ->]%on_inner_finished_Ok & E).
  destruct (calendar_finished (calendar (attrs inner))) eqn:Efin.
  - apply ret_Ok in E as [-> ->]. exists [], inner, w.
    split_and!; [by constructor|done|by rewrite app_nil_r|done].
  - apply bind_Ok in E as (d & s1 & E1 & E).
    apply ask_inner_strategy_Ok in E1 as (σ' & h & [= <-] & Eg & ->).
    apply bind_Ok in E as (r1 & s2 & E1 & E).
    apply on_inner_Ok in E1 as (inner2 & w2 & E1 & ->).
    apply IH in E as (its & inner1 & w1 & Hrun & -> & -> & Hfin).
    exists ((d, r1) :: its), inner1, w1.
    split_and!; [by econstructor|done| |done].
    cbn. by rewrite (assoc_L (++)).
Qed.

Lemma reset_window_Ok t0 t1 inner w u s' :
  reset None None (<["start_time" := t0]> (<["end_time" := t1]> ∅)) (inner, w)
  = (Ok u, s') ↔
  ∃ bars, calendar_bars (time_per_step (attrs inner)) t0 t1 = Returns bars
    ∧ s' = (at_window inner bars, w).
Proof.
  unfold reset. rewrite lookup_insert_eq.
  rewrite bool_decide_eq_true_2 by eauto. cbn [orb].
  unfold dict_get. rewrite lookup_insert_eq, lookup_insert_ne by done.
  rewrite lookup_insert_eq. cbn [default].
  unfold new_calendar, st_bind at 1 2 3. cbn [st_ret]. rewrite on_self_eq. cbn.
  rewrite with_attrs_attrs.
  destruct (calendar_bars (time_per_step (attrs inner)) t0 t1) as [bars|msg]; cbn.
  - destruct u. split.
    + intros [= <-]. eauto.
    + intros (b & [= <-] & ->). done.
  - split; [done|]. by intros (b & [=] & _).
Qed.

Lemma _init_sub_trading_Ok d a inner σ w u s' :
  _init_sub_trading d (SplitExecutor a inner σ, w) = (Ok u, s') →
  ∃ t0 t1 bars σa h,
    get_calendar_time (calendar a) (get_trade_index (calendar a)) = Returns (t0, t1)
    ∧ calendar_bars (time_per_step (attrs inner)) t0 t1 = Returns bars
    ∧ σ = VRef σa
    ∧ strategy_reset σa (window_calendar inner bars) d (heap w) = (Returns tt, h)
    ∧ s' = (SplitExecutor a (at_window inner bars) (VRef σa),
            {| heap := h;
               trace := trace w ++ [StrategyReset σa (window_calendar inner bars) d] |}).
Proof.
  unfold _init_sub_trading. intros E.
  apply bind_Ok in E as ([t0 t1] & s1 & E1 & E).
  apply on_self_Ok in E1 as (a' & w' & E1 & ->).
  apply (proj1 (self_trade_time_Ok _ _ _)) in E1 as [Et E1].
  cbn [attrs with_attrs fst] in *.
  simplify_eq.
  apply bind_Ok in E as ([] & s1 & E1 & E).
  apply on_inner_Ok in E1 as (inner' & w' & (bars & Eb & [= -> ->])%reset_window_Ok & ->).
  apply bind_Ok in E as (c & s1 & E1 & E).
  rewrite on_inner_eq in E1. unfold get_level_infra in E1.
  rewrite on_self_eq in E1. cbn in E1. unfold at_window in E1.
  rewrite with_attrs_attrs, attrs_with_attrs in E1.
  simplify_eq.
  apply bind_Ok in E as (x & s1 & E1 & E). cbn in E1. simplify_eq.
  apply bind_Ok in E as (σa & s1 & [-> ->]%method_Ok & E).
  apply on_snd_Ok in E as (w1 & E & ->). apply invoke_Ok in E as (h & E & ->).
  destruct u. exists t0, t1, bars, σa, h. done.
Qed.

Lemma close_outer_bar_Ok ex w u s' :
  close_outer_bar (ex, w) = (Ok u, s') →
  match trade_account (attrs ex) with
  | None => s' = (ex, w)
  | Some v =>
      ∃ a t0 t1 x w',
        v = VRef a
        ∧ get_calendar_time (calendar (attrs ex))
            (get_trade_index (calendar (attrs ex))) = Returns (t0, t1)
        ∧ (generate_report (attrs ex) = true → trade_exchange (attrs ex) = Some x)
        ∧ trace w' = trace w ++ bar_close a (generate_report (attrs ex)) t0 t1 x
        ∧ s' = (ex, w')
  end.
Proof.
  unfold close_outer_bar. intros E.
  apply bind_Ok in E as (acct & s1 & E1 & E).
  rewrite on_self_eq in E1. cbn in E1. rewrite with_attrs_attrs in E1. simplify_eq.
  destruct (trade_account (attrs ex)) as [v|] eqn:Ev.
  - apply on_self_Ok in E as (a' & w' & E & ->). unfold _update_trade_account in E.
    apply bind_Ok in E as ([t0 t1] & s2 & [Et ->]%self_trade_time_Ok & E).
    cbn [fst] in Et. inv_ok E; cbn [trace heap] in *;
      rewrite with_attrs_attrs.
    + eexists a0, t0, t1, _, _. split_and!; [done|done|by intros _| |done].
      cbn. by rewrite <-(assoc_L (++)).
    + eexists a0, t0, t1, VNone, _. split_and!; [done|done|done| |done]. done.
  - by apply ret_Ok in E as [-> ->].
Qed.
End Bars.

(** ** The calls of a bar *)
Section BarClaims.
Context `{Collaborators}.

Lemma execute_simulator_Ok fuel d self w r s' :
  execute fuel d (SimulatorExecutor self, w) = (Ok r, s') →
  ∃ self' w', simulator_execute d (self, w) = (Ok r, (self', w'))
              ∧ s' = (SimulatorExecutor self', w').
Proof.
  destruct fuel as [|fuel]; [done|]. cbn [execute fst].
  intros (a' & w' & E & ->)%on_self_Ok. eauto.
Qed.

Lemma filter_closes_none a evs :
  Forall (λ ev, closes_bar a ev = false) evs →
  filter (λ ev, closes_bar a ev = true) evs = [].
Proof.
  induction 1 as [|ev evs Hev _ IH]; [done|].
  rewrite filter_cons_False by congruence. done.
Qed.

Lemma filter_closes_bar_close a g t0 t1 x :
  filter (λ ev, closes_bar a ev = true) (bar_close a g t0 t1 x)
  = bar_close a g t0 t1 x.
Proof.
  unfold bar_close. rewrite filter_cons_True by (cbn; by rewrite bool_decide_eq_true).
  f_equal. destruct g; [|done].
  by rewrite filter_cons_True by (cbn; by rewrite bool_decide_eq_true).
Qed.

Lemma static_at_window ex bars : static (at_window ex bars) = static ex.
Proof. unfold at_window. apply static_with_attrs. by destruct (attrs ex). Qed.

Lemma accounts_at_window ex bars : accounts (at_window ex bars) = accounts ex.
Proof. apply accounts_static, static_at_window. Qed.

Lemma of_order_closes a ev : of_order ev = true → closes_bar a ev = false.
Proof. by destruct ev. Qed.

Lemma of_order_generated evs :
  Forall (λ ev, of_order ev = true) evs → generated evs = [].
Proof.
  induction 1 as [|ev evs Hev _ IH]; [done|]. unfold generated in *. cbn.
  rewrite IH. by destruct ev.
Qed.

Lemma execute_simulator_entries fuel d self w r ex' w' :
  execute fuel d (SimulatorExecutor self, w) = (Ok r, (ex', w')) →
  ∃ evs,
    trace w' = trace w ++ evs
    ∧ (checked evs).*1 = d
    ∧ r = dealt evs
    ∧ entry_order <$> r = (filter (λ c, is_True c.2 = true) (checked evs)).*1
    ∧ length r ≤ length d
    ∧ ∃ a, UpdateBarCount a ∈ evs.
Proof.
  intros (self' & w1 & E & [= -> ->])%execute_simulator_Ok.
  apply simulator_execute_Ok in E
    as (c & t0 & t1 & a & x & evs & _ & _ & _ & _ & _ & Et & Ec & Er & Ef & Fc).
  assert (checked (evs ++ bar_close a (generate_report self) t0 t1 x) = checked evs
          ∧ dealt (evs ++ bar_close a (generate_report self) t0 t1 x) = dealt evs)
    as [Ec' Ed'].
  { unfold checked, dealt. rewrite !omap_app. unfold bar_close.
    destruct (generate_report self); cbn; by rewrite !app_nil_r. }
  exists (evs ++ bar_close a (generate_report self) t0 t1 x).
  rewrite Ec', Ed'. split_and!; try done.
  - rewrite <-(length_fmap entry_order), Ef, <-Ec, !length_fmap.
    apply length_filter.
  - exists a. apply elem_of_app. right. unfold bar_close. apply list_elem_of_here.
Qed.

Lemma execute_closes_bar fuel d ex w r ex' w' a :
  execute fuel d (ex, w) = (Ok r, (ex', w')) →
  trade_account (attrs ex) = Some (VRef a) →
  VRef a ∉ inner_accounts ex →
  ∃ evs t0 t1 x,
    let close := bar_close a (generate_report (attrs ex)) t0 t1 x in
    get_calendar_time (calendar (attrs ex'))
      (get_trade_index (calendar (attrs ex'))) = Returns (t0, t1)
    ∧ (generate_report (attrs ex) = true → trade_exchange (attrs ex) = Some x)
    ∧ trace w' = trace w ++ evs ++ close
    ∧ Forall (λ ev, closes_bar a ev = false) evs
    ∧ filter (λ ev, closes_bar a ev = true) (evs ++ close) = close.
Proof.
  intros E Ha Hin.
  cut (∃ evs t0 t1 x,
    get_calendar_time (calendar (attrs ex'))
      (get_trade_index (calendar (attrs ex'))) = Returns (t0, t1)
    ∧ (generate_report (attrs ex) = true → trade_exchange (attrs ex) = Some x)
    ∧ trace w' = trace w ++ evs ++ bar_close a (generate_report (attrs ex)) t0 t1 x
    ∧ Forall (λ ev, closes_bar a ev = false) evs).
  { intros (evs & t0 & t1 & x & ? & ? & ? & F). exists evs, t0, t1, x.
    split_and!; try done.
    by rewrite filter_app, filter_closes_none, filter_closes_bar_close. }
  destruct fuel as [|fuel]; [done|]. destruct ex as [self|self|self inner σ].
  - done.
  - apply execute_simulator_Ok in E as (self' & w1 & E & [= -> ->]).
    apply simulator_execute_Ok in E
      as (c & t0 & t1 & a' & x & evs & _ & -> & Et & Ea & Ex & Etr & _ & _ & _ & Fc).
    cbn [attrs] in *. rewrite Ha in Ea. injection Ea as <-.
    exists evs, t0, t1, x. split_and!; try done.
    eapply Forall_impl; [done|]. intros ev. apply of_order_closes.
  - cbn [execute fst] in E.
    apply bind_Ok in E as ([] & s1 & E1 & E).
    apply on_self_Ok in E1 as (self1 & w1 & (c & Ec & [= -> ->])%self_calendar_step_Ok & ->).
    cbn [with_attrs attrs] in *.
    apply bind_Ok in E as ([] & s2 & E2 & E).
    pose proof (loop_init_sub_trading _ _ _ _ E2) as (_ & _ & evs1 & Et1 & F1).
    apply _init_sub_trading_Ok in E2
      as (t0 & t1 & bars & σa & h & Et & _ & -> & _ & ->).
    apply bind_Ok in E as (r1 & s3 & E3 & E).
    pose proof (proj2 (execute_frames _) _ _ _ _ _ E3) as (_ & _ & evs2 & Et2 & F2).
    apply split_loop_Ok in E3 as (its & inner1 & w3 & _ & -> & _ & _).
    apply bind_Ok in E as ([] & s4 & E4 & [_ Es]%ret_Ok). subst s4.
    apply close_outer_bar_Ok in E4. cbn [attrs] in E4.
    change (trade_account (set_calendar c self)) with (trade_account self) in E4.
    rewrite Ha in E4. destruct E4 as (a' & t0' & t1' & x & w4 & [= <-] & Et' & Ex & Etr & [= -> ->]).
    change (generate_report (set_calendar c self)) with (generate_report self) in *.
    change (trade_exchange (set_calendar c self)) with (trade_exchange self) in *.
    cbn [attrs trace calendar set_calendar fst snd inner_accounts] in *.
    exists (evs1 ++ evs2), t0', t1', x. split_and!; try done.
    + rewrite Etr, Et2, Et1, <-!(assoc_L (++)). done.
    + apply Forall_app. split.
      * eapply Forall_impl; [exact F1|]. intros ev Hev.
        destruct (closes_bar a ev) eqn:C; [|done]. destruct Hin. by apply Hev.
      * eapply Forall_impl; [exact F2|]. intros ev Hev.
        destruct (closes_bar a ev) eqn:C; [|done]. destruct Hin.
        rewrite <-(accounts_at_window inner bars). by apply Hev.
Qed.

Lemma execute_split_Ok fuel d self inner σ w r ex' w' :
  execute fuel d (SplitExecutor self inner σ, w) = (Ok r, (ex', w')) →
  ∃ c t0 t1 bars σa h its inner1 w1,
    calendar_step (calendar self) = Returns c
    ∧ get_calendar_time c (get_trade_index c) = Returns (t0, t1)
    ∧ calendar_bars (time_per_step (attrs inner)) t0 t1 = Returns bars
    ∧ σ = VRef σa
    ∧ strategy_reset σa (window_calendar inner bars) d (heap w) = (Returns tt, h)
    ∧ inner_run σa None
        (at_window inner bars,
         {| heap := h;
            trace := trace w ++ [StrategyReset σa (window_calendar inner bars) d] |})
        its (inner1, w1)
    ∧ calendar_finished (calendar (attrs inner1)) = true
    ∧ r = concat its.*2
    ∧ ex' = SplitExecutor (set_calendar c self) inner1 σ
    ∧ emits (λ ev, is_close ev = true) w1 w'.
Proof.
  destruct fuel as [|fuel]; [done|]. cbn [execute fst]. intros E.
  apply bind_Ok in E as ([] & s1 & E1 & E).
  apply on_self_Ok in E1 as (self1 & w1 & (c & Ec & [= -> ->])%self_calendar_step_Ok & ->).
  cbn [with_attrs attrs] in *.
  apply bind_Ok in E as ([] & s2 & E2 & E).
  apply _init_sub_trading_Ok in E2
    as (t0 & t1 & bars & σa & h & Et & Eb & -> & Es & ->).
  apply bind_Ok in E as (r1 & s3 & E3 & E).
  apply split_loop_Ok in E3 as (its & inner1 & w3 & Hrun & -> & -> & Hfin).
  apply bind_Ok in E as ([] & s4 & E4 & [-> Es4]%ret_Ok). subst s4.
  apply close_outer_bar_Ok in E4. cbn [attrs] in E4.
  exists c, t0, t1, bars, σa, h, its, inner1, w3.
  destruct (trade_account (set_calendar c self)) as [v|].
  - destruct E4 as (a' & t0' & t1' & x & w4 & -> & Et' & Ex & Etr & [= -> ->]).
    split_and!; try done. eexists. split; [done|].
    unfold bar_close. destruct (generate_report _); by repeat constructor.
  - injection E4 as -> ->. split_and!; try done.
Qed.

End BarClaims.

Import Sample.

(** ** Fuel and termination *)
Section FuelMonad.
Context {S : Type}.

Lemma refines_refl {A} (m : ST S A) s : refines m m s.
Proof. by intros r s' E _. Qed.

Lemma refines_bind {A B} (m m' : ST S A) (k k' : A → ST S B) s :
  refines m m' s → (∀ a s1, refines (k a) (k' a) s1) →
  refines (st_bind m k) (st_bind m' k') s.
Proof.
  intros Hm Hk r s' E Hr.
  destruct (bind_inv _ _ _ _ _ E) as [(a & s1 & E1 & E2)|[(e & E1 & ->)|[_ ->]]].
  - rewrite (bind_step _ _ _ _ _ (Hm _ _ E1 ltac:(done))). by apply Hk.
  - by rewrite (bind_raise _ _ _ _ _ (Hm _ _ E1 ltac:(done))).
  - done.
Qed.

Lemma total_bind {A B} (m : ST S A) (k : A → ST S B) :
  total m → (∀ a, total (k a)) → total (st_bind m k).
Proof.
  intros Hm Hk s. unfold st_bind. specialize (Hm s).
  destruct (m s) as [[a|e|] s1]; cbn in *; [apply Hk|done|done].
Qed.

Lemma total_ret {A} (a : A) : total (st_ret (S:=S) a).
Proof. by intros s. Qed.

Lemma total_raise {A} e : total (raise (S:=S) (A:=A) e).
Proof. by intros s. Qed.

Lemma total_pure_ret {A} (x : Ret A) : total (pure_ret (S:=S) x).
Proof. intros s. by destruct x. Qed.

Lemma total_method meth recv : total (method (S:=S) meth recv).
Proof. intros s. by destruct recv. Qed.

Lemma total_on_snd {X A} (m : ST S A) : total m → total (on_snd (X:=X) m).
Proof. intros Hm [x s]. rewrite on_snd_eq. apply Hm. Qed.

End FuelMonad.

Section Totality.
Context `{Collaborators}.

Lemma total_invoke {A} (op : Op A) ev : total (invoke op ev).
Proof. intros w. unfold invoke. by destruct (op (heap w)) as [[] ?]. Qed.

Lemma total_print msg : total (print msg).
Proof. by intros w. Qed.

Lemma total_getattr obj name : total (getattr obj name).
Proof. intros w. unfold getattr. destruct obj; try done. by destruct (_ ≫= _). Qed.

Lemma total_self_attr {A} name (f : Attrs → option A) : total (self_attr name f).
Proof. intros s. unfold self_attr. by destruct (f s.1). Qed.

Lemma total_self_get {A} (f : Attrs → A) : total (self_get f).
Proof. by intros s. Qed.

Lemma total_self_set f : total (self_set f).
Proof. by intros [a w]. Qed.

Lemma total_on_self {A} (m : M A) : total m → total (on_self m).
Proof. intros Hm [ex w]. rewrite on_self_eq. apply Hm. Qed.

Lemma total_on_inner {A} (m : E A) : total m → total (on_inner m).
Proof.
  intros Hm [[a|a|a inner σ] w]; try done. rewrite on_inner_eq. apply Hm.
Qed.

Lemma total_self_inner_strategy : total self_inner_strategy.
Proof. by intros [[] ?]. Qed.

End Totality.

Ltac total :=
  repeat first
    [ apply total_ret | apply total_raise | apply total_pure_ret
    | apply total_method | apply total_self_attr | apply total_self_get
    | apply total_self_set | apply total_invoke | apply total_print
    | apply total_getattr | apply total_self_inner_strategy
    | apply total_on_snd | apply total_on_self | apply total_on_inner
    | apply total_bind; [|intros ?]
    | lazymatch goal with
      | |- total (if ?b then _ else _) => destruct b
      | |- total (match ?x with _ => _ end) => destruct x
      end ].

Section Termination.
Context `{Collaborators}.

Lemma total_deal_orders t orders acc : total (deal_orders t orders acc).
Proof.
  revert acc. induction orders as [|order orders IH]; intros acc; cbn [deal_orders];
    total; apply IH.
Qed.

Lemma total_simulator_execute d : total (simulator_execute d).
Proof.
  unfold simulator_execute, self_calendar_step, self_trade_time.
  total; apply total_deal_orders.
Qed.

Lemma total_reset kw : total (reset None None kw).
Proof. unfold reset. total. Qed.

Lemma total_init_sub_trading d : total (_init_sub_trading d).
Proof.
  unfold _init_sub_trading, self_trade_time, get_level_infra. total.
Qed.

Lemma total_close_outer_bar : total close_outer_bar.
Proof. unfold close_outer_bar, _update_trade_account, self_trade_time. total. Qed.

Lemma total_ask_inner_strategy prev : total (ask_inner_strategy prev).
Proof. unfold ask_inner_strategy, get_level_infra. total. Qed.

Lemma total_finished : total (on_inner finished).
Proof. unfold finished. total. Qed.

Lemma fuel_monotone fuel :
  (∀ d fuel' s, fuel ≤ fuel' → refines (execute fuel d) (execute fuel' d) s)
  ∧ (∀ prev acc fuel' s, fuel ≤ fuel' →
       refines (split_loop fuel prev acc) (split_loop fuel' prev acc) s).
Proof.
  induction fuel as [|fuel [IHe IHl]].
  { split; intros; intros r s' E; by inversion E. }
  split.
  - intros d [|fuel'] [ex w] Hle; [lia|]. unfold refines. cbn [execute].
    destruct ex as [a|a|a inner σ]; cbn [fst]; try done.
    apply (refines_bind _ _ _ _ (SplitExecutor a inner σ, w));
      [apply refines_refl|intros [] s1].
    apply refines_bind; [apply refines_refl|intros [] s2].
    apply refines_bind; [apply IHl; lia|intros r2 s3].
    apply refines_refl.
  - intros prev acc [|fuel'] s Hle; [lia|]. cbn [split_loop].
    apply refines_bind; [apply refines_refl|intros fin s1].
    destruct fin; [apply refines_refl|].
    apply refines_bind; [apply refines_refl|intros d s2].
    apply refines_bind; [|intros r s3; apply IHl; lia].
    destruct s2 as [[a|a|a inner σ] w];
      [by intros r s' E Hr|by intros r s' E Hr|].
    intros r s' E Hr. rewrite on_inner_eq in E. rewrite on_inner_eq.
    destruct (execute fuel d (inner, w)) as [r1 [i1 w1]] eqn:E1. cbn in E.
    injection E as <- <-.
    by rewrite (IHe d fuel' (inner, w) ltac:(lia) _ _ E1 Hr).
Qed.

Lemma calendar_step_Returns c c' :
  calendar_step c = Returns c' →
  calendar_finished c = false
  ∧ current_index c' = S (current_index c) ∧ cal_bars c' = cal_bars c
  ∧ cal_freq c' = cal_freq c.
Proof.
  unfold calendar_step. destruct (calendar_finished c); [done|].
  by intros [= <-].
Qed.

Lemma execute_steps_calendar fuel d ex w r ex' w' :
  execute fuel d (ex, w) = (Ok r, (ex', w')) →
  calendar_step (calendar (attrs ex)) = Returns (calendar (attrs ex')).
Proof.
  destruct ex as [self|self|self inner σ]; intros E.
  - by destruct fuel.
  - apply execute_simulator_Ok in E as (self' & w1 & E & [= -> ->]).
    apply simulator_execute_Ok in E as (c & ? & ? & ? & ? & ? & Ec & -> & _).
    done.
  - apply execute_split_Ok in E
      as (c & ? & ? & ? & ? & ? & ? & ? & ? & Ec & _ & _ & _ & _ & _ & _ & _ & -> & _).
    done.
Qed.

Lemma execute_keeps_static fuel d s r s' :
  execute fuel d s = (r, s') → static s'.1 = static s.1.
Proof. intros E. by destruct (proj1 (execute_frames fuel) d s r s' E). Qed.

Lemma raise_not_fuel {S A} (m : ST S A) s e s' :
  m s = (Raise e, s') → (m s).1 ≠ OutOfFuel.
Proof. by intros ->. Qed.

(** The loop ends when every bar of the inner executor does. *)
Lemma split_loop_ends n :
  (∀ ex, depth ex ≤ n → ∀ d w, ∃ fuel, (execute fuel d (ex, w)).1 ≠ OutOfFuel) →
  ∀ k a inner σ w prev acc,
    depth inner ≤ n →
    bar_count (calendar (attrs inner)) - current_index (calendar (attrs inner)) = k →
    current_index (calendar (attrs inner)) ≤ bar_count (calendar (attrs inner)) →
    ∃ fuel, (split_loop fuel prev acc (SplitExecutor a inner σ, w)).1 ≠ OutOfFuel.
Proof.
  intros Hex k. induction k as [|k IH]; intros a inner σ w prev acc Hd Hk Hle.
  - exists 1. cbn [split_loop].
    rewrite (bind_step _ _ _ _ _ (proj2 (on_inner_finished_Ok _ _ _ _ _ _)
                                    (conj eq_refl eq_refl))).
    unfold calendar_finished. rewrite (proj2 (Nat.eqb_eq _ _)) by lia. done.
  - destruct (ask_inner_strategy prev (SplitExecutor a inner σ, w))
      as [[d|e|] s1] eqn:Eask.
    2:{ exists 1. cbn [split_loop].
        rewrite (bind_step _ _ _ _ _ (proj2 (on_inner_finished_Ok _ _ _ _ _ _)
                                        (conj eq_refl eq_refl))).
        destruct (calendar_finished _); [done|].
        by rewrite (bind_raise _ _ _ _ _ Eask). }
    2:{ by destruct (total_ask_inner_strategy prev (SplitExecutor a inner σ, w));
          rewrite Eask. }
    apply ask_inner_strategy_Ok in Eask as (σa & h & -> & Eg & ->).
    set (w1 := {| heap := h; trace := trace w ++ [GenerateTradeDecision σa prev d] |}).
    destruct (Hex inner Hd d w1) as [f1 Hf1].
    destruct (execute f1 d (inner, w1)) as [[r|e|] [inner2 w2]] eqn:E1; [| |done].
    + pose proof (execute_steps_calendar _ _ _ _ _ _ _ E1) as Hstep.
      apply calendar_step_Returns in Hstep as (Hfin & Hi & Hb & _).
      pose proof (execute_keeps_static _ _ _ _ _ E1) as Hst. cbn in Hst.
      destruct (IH a inner2 (VRef σa) w2 (Some r) (acc ++ r)) as [f2 Hf2].
      { by rewrite (depth_static _ _ Hst). }
      { unfold bar_count in *. rewrite Hi, Hb. lia. }
      { unfold bar_count, calendar_finished in *. rewrite Hi, Hb.
        apply Nat.eqb_neq in Hfin. lia. }
      exists (S (f1 `max` f2)). cbn [split_loop].
      rewrite (bind_step _ _ _ _ _ (proj2 (on_inner_finished_Ok _ _ _ _ _ _)
                                      (conj eq_refl eq_refl))).
      rewrite Hfin.
      rewrite (bind_step _ _ _ _ _
                 (proj2 (ask_inner_strategy_Ok _ _ _ _ _ _ _)
                    (ex_intro _ σa (ex_intro _ h (conj eq_refl (conj Eg eq_refl)))))).
      fold w1.
      rewrite (bind_step _ _ (SplitExecutor a inner (VRef σa), w1) r
                 (SplitExecutor a inner2 (VRef σa), w2)).
      2:{ apply on_inner_Ok. eexists _, _. split; [|done].
          apply (proj1 (fuel_monotone f1) d (f1 `max` f2) (inner, w1) ltac:(lia) _ _ E1). done. }
      destruct (split_loop f2 (Some r) (acc ++ r) (SplitExecutor a inner2 (VRef σa), w2))
        as [r2 s2] eqn:E2.
      rewrite (proj2 (fuel_monotone f2) _ _ (f1 `max` f2) _ ltac:(lia) _ _ E2 Hf2).
      done.
    + exists (S f1). cbn [split_loop].
      rewrite (bind_step _ _ _ _ _ (proj2 (on_inner_finished_Ok _ _ _ _ _ _)
                                      (conj eq_refl eq_refl))).
      destruct (calendar_finished _); [done|].
      rewrite (bind_step _ _ _ _ _
                 (proj2 (ask_inner_strategy_Ok _ _ _ _ _ _ _)
                    (ex_intro _ σa (ex_intro _ h (conj eq_refl (conj Eg eq_refl)))))).
      fold w1.
      rewrite (bind_raise _ _ _ e (SplitExecutor a inner2 (VRef σa), w2)); [done|].
      rewrite on_inner_eq, E1. done.
Qed.

Lemma execute_ends n :
  ∀ ex, depth ex ≤ n → ∀ d w, ∃ fuel, (execute fuel d (ex, w)).1 ≠ OutOfFuel.
Proof.
  induction n as [|n IH]; intros ex Hd d w.
  - destruct ex as [a|a|a inner σ]; [exists 1; done| |cbn in Hd; lia].
    exists 1. cbn [execute fst]. apply total_on_self, total_simulator_execute.
  - destruct ex as [a|a|a inner σ]; [exists 1; done| |].
    { exists 1. cbn [execute fst]. apply total_on_self, total_simulator_execute. }
    cbn in Hd.
    destruct (on_self self_calendar_step (SplitExecutor a inner σ, w))
      as [[[]|e|] s1] eqn:E0.
    2:{ exists 1. cbn [execute fst]. by rewrite (bind_raise _ _ _ _ _ E0). }
    2:{ by destruct (total_on_self self_calendar_step ltac:(unfold self_calendar_step; total)
                       (SplitExecutor a inner σ, w)); rewrite E0. }
    destruct (_init_sub_trading d s1) as [[[]|e|] s2] eqn:E1.
    2:{ exists 1. cbn [execute fst].
        by rewrite (bind_step _ _ _ _ _ E0), (bind_raise _ _ _ _ _ E1). }
    2:{ by destruct (total_init_sub_trading d s1); rewrite E1. }
    pose proof (execute_keeps_static 1 d (SplitExecutor a inner σ, w)) as Hs1.
    pose proof E0 as E0'.
    apply on_self_Ok in E0' as (a1 & w1 & _ & ->). cbn [with_attrs] in E1.
    pose proof E1 as E1'.
    apply _init_sub_trading_Ok in E1'
      as (t0 & t1 & bars & σa & h & _ & _ & -> & _ & ->).
    destruct (split_loop_ends n IH (length bars) a1
                (at_window inner bars) (VRef σa)
                {| heap := h;
                   trace := trace w1 ++ [StrategyReset σa (window_calendar inner bars) d] |}
                None []) as [f Hf].
    { rewrite (depth_static _ _ (static_at_window _ _)). lia. }
    { unfold at_window. rewrite attrs_with_attrs. cbn. lia. }
    { unfold at_window. rewrite attrs_with_attrs. cbn. lia. }
    exists (S f). cbn [execute fst].
    rewrite (bind_step _ _ _ _ _ E0). cbn [with_attrs].
    rewrite (bind_step _ _ _ _ _ E1).
    destruct (split_loop f None [] _) as [[r|e|] s3] eqn:E3; [| |done].
    + rewrite (bind_step _ _ _ _ _ E3).
      apply total_bind; [apply total_close_outer_bar|intros; apply total_ret].
    + by rewrite (bind_raise _ _ _ _ _ E3).
Qed.

(** Enough fuel makes [execute] end, and more fuel changes nothing. *)
Lemma execute_terminates d s :
  ∃ fuel, ∀ fuel', fuel ≤ fuel' →
    (execute fuel' d s).1 ≠ OutOfFuel ∧ execute fuel' d s = execute fuel d s.
Proof.
  destruct s as [ex w].
  destruct (execute_ends (depth ex) ex (le_n _) d w) as [f Hf].
  exists f. intros f' Hle.
  destruct (execute f d (ex, w)) as [r s'] eqn:E.
  rewrite (proj1 (fuel_monotone f) d f' (ex, w) Hle _ _ E Hf). done.
Qed.

Lemma inner_run_steps σ prev s its s' :
  inner_run σ prev s its s' →
  cal_bars (calendar (attrs s'.1)) = cal_bars (calendar (attrs s.1))
  ∧ current_index (calendar (attrs s'.1))
    = current_index (calendar (attrs s.1)) + length its
  ∧ calendar_finished (calendar (attrs s'.1)) = true.
Proof.
  induction 1 as [prev inner w Hfin|prev inner w d h fuel r [inner2 w2] its s' Hfin Eg E1 _ IH].
  - cbn. split_and!; [done|lia|done].
  - apply execute_steps_calendar, calendar_step_Returns in E1 as (_ & Hi & Hb & _).
    cbn [fst] in *. destruct IH as (-> & -> & ->). rewrite Hb, Hi. cbn.
    split_and!; [done|lia|done].
Qed.

(** C6: the inner loop of [SplitExecutor.execute] terminates: with enough
    fuel the bar does not run out of it; when the bar returns, the loop has
    run exactly as many times as the inner calendar of the window has bars
    (a finite list) and has left it with the inner executor finished; and
    every [execute] that returns, so every iteration of the loop, increases
    the calendar index of its executor by one and keeps the bar count. *)
Theorem inner_loop_terminates d self inner σ w :
  (∃ fuel, ∀ fuel', fuel ≤ fuel' →
     (execute fuel' d (SplitExecutor self inner σ, w)).1 ≠ OutOfFuel)
  ∧ (∀ fuel r ex' w',
       execute fuel d (SplitExecutor self inner σ, w) = (Ok r, (ex', w')) →
       ∃ bars σa w0 its inner1 w1,
         inner_run σa None (at_window inner bars, w0) its (inner1, w1)
         ∧ length its = length bars
         ∧ current_index (calendar (attrs inner1)) = length bars
         ∧ calendar_finished (calendar (attrs inner1)) = true
         ∧ (inner_state (ex', w')).1 = inner1)
  ∧ (∀ fuel d' inner0 w0 r inner' w',
       execute fuel d' (inner0, w0) = (Ok r, (inner', w')) →
       current_index (calendar (attrs inner'))
       = S (current_index (calendar (attrs inner0)))
       ∧ bar_count (calendar (attrs inner')) = bar_count (calendar (attrs inner0))).
Proof.
  split_and!.
  - destruct (execute_terminates d (SplitExecutor self inner σ, w)) as [f Hf].
    exists f. intros f' Hle. by destruct (Hf f' Hle).
  - intros fuel r ex' w' E.
    apply execute_split_Ok in E
      as (c & t0 & t1 & bars & σa & h & its & inner1 & w1
          & _ & _ & _ & _ & _ & Hrun & Hfin & _ & -> & _).
    pose proof (inner_run_steps _ _ _ _ _ Hrun) as (Hb & Hi & _).
    cbn [fst] in Hb, Hi. unfold at_window in Hi. rewrite attrs_with_attrs in Hi.
    cbn in Hi.
    assert (current_index (calendar (attrs inner1)) = length bars) as Hidx.
    { unfold calendar_finished, bar_count in Hfin. apply Nat.eqb_eq in Hfin.
      rewrite Hb in Hfin. unfold at_window in Hfin.
      rewrite attrs_with_attrs in Hfin. done. }
    eexists bars, σa, _, its, inner1, w1.
    split_and!; [done|lia|done|done|done].
  - intros fuel d' inner0 w0 r inner' w' E.
    apply execute_steps_calendar, calendar_step_Returns in E as (_ & Hi & Hb & _).
    unfold bar_count. by rewrite Hb.
Qed.
End Termination.


Lemma inner_loop_terminates_witness :
  let res := execute 5 [VRef 6%positive] split1 in
  ∃ bars σa w0 its inner1 w1,
    inner_run σa None (at_window (inner_state split1).1 bars, w0) its (inner1, w1)
    ∧ length its = length bars
    ∧ current_index (calendar (attrs inner1)) = length bars
    ∧ calendar_finished (calendar (attrs inner1)) = true
    ∧ (inner_state (res.2.1, res.2.2)).1 = inner1.
Proof.
  apply (proj1 (proj2 (inner_loop_terminates [VRef 6%positive] (attrs split1.1)
                         (inner_state split1).1 (VRef 8%positive) split1.2))
           5 [(VRef 6%positive, VInt 2000, VInt 5, VInt 10)]).
  vm_compute. reflexivity.
Defined.

(** ** An order that fails the check *)

Section Dropped.
Context `{Collaborators}.

Lemma self_attr_Raise {A} name (f : Attrs → option A) s e s' :
  self_attr name f s = (Raise e, s') → f s.1 = None.
Proof. unfold self_attr. by destruct (f s.1). Qed.

Lemma method_Raise {S} meth recv (s : S) e s' :
  method meth recv s = (Raise e, s') → ∀ a, recv ≠ VRef a.
Proof. destruct recv; by intros ? ?. Qed.

Lemma invoke_Raise {A} (op : Op A) ev w e w' :
  invoke op ev w = (Raise e, w') →
  ∃ msg h, e = Foreign msg ∧ op (heap w) = (Raises msg, h).
Proof.
  unfold invoke. destruct (op (heap w)) as [[x|msg] h]; [done|].
  intros [= <- _]. eauto.
Qed.

Lemma on_snd_Raise {X S A} (m : ST S A) (x : X) s e s' :
  on_snd m (x, s) = (Raise e, s') → ∃ s1, m s = (Raise e, s1).
Proof. cbn. destruct (m s) as [r s1]. intros [= -> _]. eauto. Qed.

Lemma getattr_Raise obj name w e w' :
  getattr obj name w = (Raise e, w') → e = AttributeError name.
Proof.
  unfold getattr. destruct obj; try (by intros [= <- _]).
  destruct (_ ≫= _); [done|]. by intros [= <- _].
Qed.

Lemma pure_ret_Raise {S A} (x : Ret A) (s : S) e s' :
  pure_ret x s = (Raise e, s') → ∃ msg, x = Raises msg ∧ e = Foreign msg.
Proof. destruct x; [done|]. intros [= <- _]. eauto. Qed.

(** An order for which [check_order] returns anything but [True] adds the
    check, and with [verbose] the warning, to the record of calls and
    nothing to the list; the loop goes on with the next order. *)
Lemma deal_orders_dropped t order orders acc self w x v h :
  trade_exchange self = Some (VRef x) →
  check_order x order (heap w) = (Returns v, h) →
  is_True v = false →
  let w1 := {| heap := h; trace := trace w ++ [CheckOrder x order v] |} in
  (verbose self = false →
   deal_orders t (order :: orders) acc (self, w)
   = deal_orders t orders acc (self, w1))
  ∧ (∀ stock_id,
       verbose self = true →
       getattr order "stock_id" w1 = (Ok stock_id, w1) →
       deal_orders t (order :: orders) acc (self, w)
       = deal_orders t orders acc
           (self, {| heap := h;
                     trace := trace w1 ++ [Print (MsgWrong t stock_id)] |})).
Proof.
  intros Hx Hc Hv w1.
  assert (deal_orders t (order :: orders) acc (self, w)
          = (do vb <- self_get verbose;
             (if vb then
                do stock_id <- on_snd (getattr order "stock_id");
                on_snd (print (MsgWrong t stock_id))
              else st_ret tt);;
             deal_orders t orders acc) (self, w1)) as ->.
  { cbn [deal_orders].
    rewrite (bind_step _ _ (self, w) (VRef x) (self, w))
      by (by apply self_attr_Ok).
    rewrite (bind_step _ _ (self, w) x (self, w)) by (by apply method_Ok).
    rewrite (bind_step _ _ (self, w) v (self, w1))
      by (apply on_snd_Ok; eexists; split; [apply invoke_Ok; by eauto|done]).
    by rewrite Hv. }
  split.
  - intros Hvb.
    rewrite (bind_step _ _ (self, w1) false (self, w1)) by (by apply self_get_Ok).
    by rewrite (bind_step _ _ (self, w1) tt (self, w1)) by (by apply ret_Ok).
  - intros stock_id Hvb Hs.
    rewrite (bind_step _ _ (self, w1) true (self, w1)) by (by apply self_get_Ok).
    rewrite (bind_step _ _ (self, w1) tt
               (self, {| heap := h; trace := trace w1 ++ [Print (MsgWrong t stock_id)] |})).
    + done.
    + rewrite (bind_step _ _ (self, w1) stock_id (self, w1)); [done|].
      apply on_snd_Ok. by eauto.
Qed.

(** What can make the loop over the orders raise: a call on the exchange
    that raised, or, with [verbose], an attribute that an order does not
    have. *)
Lemma deal_orders_Raise t orders acc self w e s' x a :
  deal_orders t orders acc (self, w) = (Raise e, s') →
  trade_exchange self = Some (VRef x) →
  trade_account self = Some (VRef a) →
  (∃ msg o h h', e = Foreign msg ∧ o ∈ orders
     ∧ (check_order x o h = (Raises msg, h')
        ∨ deal_order x o (VRef a) h = (Raises msg, h')))
  ∨ (verbose self = true ∧ ∃ name, e = AttributeError name).
Proof.
  intros E Hx Ha. revert acc w E.
  induction orders as [|order orders IH]; intros acc w E; [done|].
  assert (∀ acc w,
    deal_orders t orders acc (self, w) = (Raise e, s') →
    (∃ msg o h h', e = Foreign msg ∧ o ∈ order :: orders
       ∧ (check_order x o h = (Raises msg, h')
          ∨ deal_order x o (VRef a) h = (Raises msg, h')))
    ∨ (verbose self = true ∧ ∃ name, e = AttributeError name)) as IH'.
  { intros acc' w' E'. destruct (IH _ _ E') as [(msg & o & h & h' & ? & ? & ?)|?];
      [left|by right]. exists msg, o, h, h'. split_and!; [done| |done].
    by apply elem_of_cons; right. }
  clear IH. cbn [deal_orders] in E.
  repeat match goal with
  | E : st_bind _ _ _ = (Raise _, _) |- _ =>
      apply bind_inv in E as [(? & [? ?] & ? & E)|[(? & E & [= <-])|[_ [=]]]]
  | E : self_attr _ _ _ = (Ok _, _) |- _ =>
      apply self_attr_Ok in E as [E [= -> ->]]; cbn [fst] in E
  | E : self_attr _ _ _ = (Raise _, _) |- _ =>
      apply self_attr_Raise in E; cbn [fst] in E; congruence
  | E : method _ _ _ = (Ok _, _) |- _ => apply method_Ok in E as [-> [= -> ->]]
  | E : method _ ?r _ = (Raise _, _) |- _ =>
      pose proof (method_Raise _ _ _ _ _ E); congruence
  | E : self_get _ _ = (Ok _, _) |- _ =>
      apply self_get_Ok in E as [-> [= -> ->]]; cbn [fst] in *
  | E : self_get _ _ = (Raise _, _) |- _ => discriminate E
  | E : st_ret _ _ = (Ok _, _) |- _ => apply ret_Ok in E as [-> [= -> ->]]
  | E : st_ret _ _ = (Raise _, _) |- _ => discriminate E
  | E : on_snd _ _ = (Ok _, _) |- _ => apply on_snd_Ok in E as (? & E & [= -> ->])
  | E : on_snd _ _ = (Raise _, _) |- _ => apply on_snd_Raise in E as [? E]
  | E : invoke _ _ _ = (Raise _, _) |- _ =>
      apply invoke_Raise in E as (msg & h' & -> & E)
  | E : getattr _ _ _ = (Raise _, _) |- _ => apply getattr_Raise in E as ->
  | E : print _ _ = (Raise _, _) |- _ => discriminate E
  | E : (if ?b then _ else _) _ = (Raise _, _) |- _ => destruct b eqn:?
  | E : (let '(_, _) := ?p in _) _ = (Raise _, _) |- _ => destruct p as [[? ?] ?]
  | E : (if _ then _ else _) _ = (Ok _, _) |- _ => inv_ok E
  | E : deal_orders _ _ _ _ = (Raise _, _) |- _ => by apply IH' in E
  end;
  simplify_eq;
  try (right; split; [done|by eauto]);
  try (left; eexists _, order, _, _; split_and!;
       [done|by apply elem_of_cons; left|by eauto]).
Qed.

(** What can make the bar of a leaf raise when its exchange and its account
    are in place: the calendar, a call on the exchange or on the account
    that raised, or, with [verbose], an attribute that an order does not
    have.  What [check_order] returns is not among the causes. *)
Lemma simulator_execute_Raise d self w e s' x a :
  simulator_execute d (self, w) = (Raise e, s') →
  trade_exchange self = Some (VRef x) →
  trade_account self = Some (VRef a) →
  (∃ msg, e = Foreign msg
     ∧ (calendar_step (calendar self) = Raises msg
        ∨ (∃ c, calendar_step (calendar self) = Returns c
             ∧ get_calendar_time c (get_trade_index c) = Raises msg)
        ∨ (∃ o h h', o ∈ d
             ∧ (check_order x o h = (Raises msg, h')
                ∨ deal_order x o (VRef a) h = (Raises msg, h')))
        ∨ (∃ h h', update_bar_count a h = (Raises msg, h'))
        ∨ (∃ t0 t1 h h', update_bar_report a t0 t1 (VRef x) h = (Raises msg, h'))))
  ∨ (verbose self = true ∧ ∃ name, e = AttributeError name).
Proof.
  intros E Hx Ha. unfold simulator_execute in E.
  apply bind_inv in E as [([] & [self1 w1] & E1 & E)|[(? & E & [= <-])|[_ [=]]]].
  2:{ unfold self_calendar_step in E.
      apply bind_inv in E as [(c & s1 & [-> ->]%self_get_Ok & E)|[(? & E & [= <-])|[_ [=]]]];
        [|done].
      apply bind_inv in E as [(c' & s1 & _ & E)|[(? & E & [= <-])|[_ [=]]]].
      { by destruct s1. }
      apply pure_ret_Raise in E as (msg & E & ->). left. exists msg. by eauto. }
  apply self_calendar_step_Ok in E1 as (c & Ec & [= -> ->]).
  apply bind_inv in E as [([t0 t1] & s2 & [Et ->]%self_trade_time_Ok & E)|[(? & E & [= <-])|[_ [=]]]].
  2:{ unfold self_trade_time in E.
      apply bind_inv in E as [(c' & s1 & [-> ->]%self_get_Ok & E)|[(? & E & [= <-])|[_ [=]]]];
        [|done].
      apply pure_ret_Raise in E as (msg & E & ->). left. exists msg.
      split; [done|]. right; left. by eauto. }
  change (trade_exchange (set_calendar c self)) with (trade_exchange self) in *.
  apply bind_inv in E as [(r0 & [self2 w2] & Ed & E)|[(? & E & [= <-])|[_ [=]]]].
  2:{ eapply deal_orders_Raise in E; [|done..].
      destruct E as [(msg & o & h & h' & -> & Ho & Hc)|?]; [left|by right].
      exists msg. split; [done|]. do 2 right; left. by eauto. }
  apply deal_orders_Ok in Ed as (-> & _).
  change (trade_account (set_calendar c self)) with (trade_account self) in *.
  change (generate_report (set_calendar c self)) with (generate_report self) in *.
  repeat match goal with
  | E : st_bind _ _ _ = (Raise _, _) |- _ =>
      apply bind_inv in E as [(? & [? ?] & ? & E)|[(? & E & [= <-])|[_ [=]]]]
  | E : self_attr _ _ _ = (Ok _, _) |- _ =>
      apply self_attr_Ok in E as [E [= -> ->]]; cbn [fst] in E
  | E : self_attr _ _ _ = (Raise _, _) |- _ =>
      apply self_attr_Raise in E; cbn [fst] in E;
      change (trade_account (set_calendar c self)) with (trade_account self) in *;
      change (trade_exchange (set_calendar c self)) with (trade_exchange self) in *;
      congruence
  | E : method _ _ _ = (Ok _, _) |- _ => apply method_Ok in E as [-> [= -> ->]]
  | E : method _ ?r _ = (Raise _, _) |- _ =>
      pose proof (method_Raise _ _ _ _ _ E);
      change (trade_account (set_calendar c self)) with (trade_account self) in *;
      congruence
  | E : self_get _ _ = (Ok _, _) |- _ =>
      apply self_get_Ok in E as [-> [= -> ->]]; cbn [fst] in *
  | E : self_get _ _ = (Raise _, _) |- _ => discriminate E
  | E : st_ret _ _ = (Ok _, _) |- _ => apply ret_Ok in E as [-> [= -> ->]]
  | E : st_ret _ _ = (Raise _, _) |- _ => discriminate E
  | E : on_snd _ _ = (Ok _, _) |- _ => apply on_snd_Ok in E as (? & E & [= -> ->])
  | E : on_snd _ _ = (Raise _, _) |- _ => apply on_snd_Raise in E as [? E]
  | E : invoke _ _ _ = (Raise _, _) |- _ =>
      apply invoke_Raise in E as (msg & h' & -> & E)
  | E : (if ?b then _ else _) _ = (Raise _, _) |- _ => destruct b eqn:?
  end;
  change (trade_account (set_calendar c self)) with (trade_account self) in *;
  change (trade_exchange (set_calendar c self)) with (trade_exchange self) in *;
  simplify_eq; left; eexists; (split; [done|]).
  - do 4 right. by eauto.
  - do 3 right; left. by eauto.
Qed.
End Dropped.

(** ** The bar of a leaf and of a split executor *)
Section BarTheorems.
Context `{Collaborators}.

(** C1, as amended: [SimulatorExecutor.execute] has every order of the
    decision checked by the exchange, once and in decision order, deals the
    orders for which [check_order] returned [True], and returns one entry
    per dealt order, in that order; an order that fails the check is
    dropped without aborting the bar (the bar is still closed on the
    account) and has no entry in the returned list, which is therefore at
    most as long as the decision.

    The first two parts say that the bar does not run out of fuel and what
    holds when it returns.  The third is the step of the loop at an order
    whose check returned anything but [True]: the check is recorded, with
    [verbose] the warning is printed, the list is left as it is and the loop
    goes on with the orders that follow.  The fourth names what can abort
    the bar of a leaf that has its exchange and its account: an exception of
    the calendar, of a call on the exchange or of a call on the account, or,
    with [verbose], a missing attribute of an order; the result of a check
    is not among them. *)
Theorem simulator_execute_entries d self w :
  (∀ fuel, (execute (S fuel) d (SimulatorExecutor self, w)).1 ≠ OutOfFuel)
  ∧ (∀ fuel r ex' w',
       execute fuel d (SimulatorExecutor self, w) = (Ok r, (ex', w')) →
       ∃ evs,
         trace w' = trace w ++ evs
         ∧ (checked evs).*1 = d
         ∧ r = dealt evs
         ∧ entry_order <$> r
           = (filter (λ c, is_True c.2 = true) (checked evs)).*1
         ∧ length r ≤ length d
         ∧ ∃ a, UpdateBarCount a ∈ evs)
  ∧ (∀ t order orders acc x v h,
       trade_exchange self = Some (VRef x) →
       check_order x order (heap w) = (Returns v, h) →
       is_True v = false →
       let w1 := {| heap := h; trace := trace w ++ [CheckOrder x order v] |} in
       (verbose self = false →
        deal_orders t (order :: orders) acc (self, w)
        = deal_orders t orders acc (self, w1))
       ∧ (∀ stock_id,
            verbose self = true →
            getattr order "stock_id" w1 = (Ok stock_id, w1) →
            deal_orders t (order :: orders) acc (self, w)
            = deal_orders t orders acc
                (self, {| heap := h;
                          trace := trace w1 ++ [Print (MsgWrong t stock_id)] |})))
  ∧ (∀ fuel e s' x a,
       execute fuel d (SimulatorExecutor self, w) = (Raise e, s') →
       trade_exchange self = Some (VRef x) →
       trade_account self = Some (VRef a) →
       (∃ msg, e = Foreign msg
          ∧ (calendar_step (calendar self) = Raises msg
             ∨ (∃ c, calendar_step (calendar self) = Returns c
                  ∧ get_calendar_time c (get_trade_index c) = Raises msg)
             ∨ (∃ o h h', o ∈ d
                  ∧ (check_order x o h = (Raises msg, h')
                     ∨ deal_order x o (VRef a) h = (Raises msg, h')))
             ∨ (∃ h h', update_bar_count a h = (Raises msg, h'))
             ∨ (∃ t0 t1 h h',
                  update_bar_report a t0 t1 (VRef x) h = (Raises msg, h'))))
       ∨ (verbose self = true ∧ ∃ name, e = AttributeError name)).
Proof.
  split_and!.
  - intros fuel. cbn [execute fst]. apply total_on_self, total_simulator_execute.
  - intros fuel r ex' w'. apply execute_simulator_entries.
  - intros t order orders acc x v h. apply deal_orders_dropped.
  - intros fuel e s' x a E. destruct fuel as [|fuel]; [done|].
    cbn [execute fst] in E. rewrite on_self_eq in E. cbn [attrs] in E.
    destruct (simulator_execute d (self, w)) as [r [self1 w1]] eqn:E1.
    injection E as -> _. by eapply simulator_execute_Raise.
Qed.

(** C2: a bar that an executor completes on its account [a] closes that
    account exactly once: the events of the bar end with one
    [update_bar_count] on [a], followed when reporting by one
    [update_bar_report] on [a] for the bounds of the bar just stepped into,
    and no other event of the bar, be it an order of a leaf or the whole
    inner loop of a split executor, is a bar close on [a].  The accounts of
    the inner levels are other objects than [a], as each level keeps a copy
    of its own. *)
Theorem bar_closed_once d ex w a :
  trade_account (attrs ex) = Some (VRef a) →
  VRef a ∉ inner_accounts ex →
  (∃ fuel0, ∀ fuel, fuel0 ≤ fuel → (execute fuel d (ex, w)).1 ≠ OutOfFuel)
  ∧ ∀ fuel r ex' w',
      execute fuel d (ex, w) = (Ok r, (ex', w')) →
      ∃ evs t0 t1 x,
        let close := bar_close a (generate_report (attrs ex)) t0 t1 x in
        get_calendar_time (calendar (attrs ex'))
          (get_trade_index (calendar (attrs ex'))) = Returns (t0, t1)
        ∧ (generate_report (attrs ex) = true → trade_exchange (attrs ex) = Some x)
        ∧ trace w' = trace w ++ evs ++ close
        ∧ Forall (λ ev, closes_bar a ev = false) evs
        ∧ filter (λ ev, closes_bar a ev = true) (evs ++ close) = close.
Proof.
  intros Ha Hin. split.
  - destruct (execute_terminates d (ex, w)) as [f Hf].
    exists f. intros f' Hle. by destruct (Hf f' Hle).
  - intros fuel r ex' w' E. by eapply execute_closes_bar.
Qed.

(** C3: [SplitExecutor.execute] steps the outer calendar by one bar, gives
    the inner executor the calendar of the bars of exactly the outer bar's
    window, resets the inner strategy with the outer decision, and then runs
    the inner loop of the spec from [None] until the inner executor is
    finished; what it returns is the concatenation of the inner results,
    and all that follows the loop is the bar close of its own account. *)
Theorem split_execute_runs_inner d self inner σ w :
  (∃ fuel0, ∀ fuel, fuel0 ≤ fuel →
     (execute fuel d (SplitExecutor self inner σ, w)).1 ≠ OutOfFuel)
  ∧ ∀ fuel r ex' w',
      execute fuel d (SplitExecutor self inner σ, w) = (Ok r, (ex', w')) →
      ∃ c t0 t1 bars σa h its inner1 w1,
        calendar_step (calendar self) = Returns c
        ∧ get_calendar_time c (get_trade_index c) = Returns (t0, t1)
        ∧ calendar_bars (time_per_step (attrs inner)) t0 t1 = Returns bars
        ∧ σ = VRef σa
        ∧ strategy_reset σa (window_calendar inner bars) d (heap w)
          = (Returns tt, h)
        ∧ inner_run σa None
            (at_window inner bars,
             {| heap := h;
                trace := trace w
                         ++ [StrategyReset σa (window_calendar inner bars) d] |})
            its (inner1, w1)
        ∧ calendar_finished (calendar (attrs inner1)) = true
        ∧ r = concat its.*2
        ∧ ex' = SplitExecutor (set_calendar c self) inner1 σ
        ∧ emits (λ ev, is_close ev = true) w1 w'.
Proof.
  split.
  - destruct (execute_terminates d (SplitExecutor self inner σ, w)) as [f Hf].
    exists f. intros f' Hle. by destruct (Hf f' Hle).
  - intros fuel r ex' w'. apply execute_split_Ok.
Qed.

End BarTheorems.

Lemma simulator_execute_entries_witness :
  (∃ evs,
     trace (execute 1 decision1 leaf1).2.2 = trace leaf1.2 ++ evs
     ∧ (checked evs).*1 = decision1
     ∧ [(VRef 6%positive, VInt 2000, VInt 5, VInt 10)] = dealt evs
     ∧ entry_order <$> [(VRef 6%positive, VInt 2000, VInt 5, VInt 10)]
       = (filter (λ c, is_True c.2 = true) (checked evs)).*1
     ∧ length [(VRef 6%positive, VInt 2000, VInt 5, VInt 10)] ≤ length decision1
     ∧ ∃ a, UpdateBarCount a ∈ evs)
  ∧ deal_orders (VInt 0) [VRef 7%positive; VRef 6%positive] []
      (attrs leaf1.1, leaf1.2)
    = deal_orders (VInt 0) [VRef 6%positive] []
        (attrs leaf1.1,
         {| heap := heap leaf1.2;
            trace := trace leaf1.2
                     ++ [CheckOrder 1%positive (VRef 7%positive) (VBool false)] |})
  ∧ deal_orders (VInt 0) [VRef 7%positive; VRef 6%positive] []
      (attrs leaf2.1, leaf2.2)
    = deal_orders (VInt 0) [VRef 6%positive] []
        (attrs leaf2.1,
         {| heap := heap leaf2.2;
            trace := (trace leaf2.2
                      ++ [CheckOrder 1%positive (VRef 7%positive) (VBool false)])
                     ++ [Print (MsgWrong (VInt 0) (VStr "Y"))] |})
  ∧ ((∃ msg, Foreign "check_order" = Foreign msg
        ∧ (calendar_step (calendar (attrs leaf1.1)) = Raises msg
           ∨ (∃ c, calendar_step (calendar (attrs leaf1.1)) = Returns c
                ∧ get_calendar_time c (get_trade_index c) = Raises msg)
           ∨ (∃ o h h', o ∈ [VRef 7%positive; VInt 3]
                ∧ (check_order 1%positive o h = (Raises msg, h')
                   ∨ deal_order 1%positive o (VRef 9%positive) h = (Raises msg, h')))
           ∨ (∃ h h', update_bar_count 9%positive h = (Raises msg, h'))
           ∨ (∃ t0 t1 h h',
                update_bar_report 9%positive t0 t1 (VRef 1%positive) h
                = (Raises msg, h'))))
     ∨ (verbose (attrs leaf1.1) = true
        ∧ ∃ name, Foreign "check_order" = AttributeError name)).
Proof.
  split_and!.
  - apply (proj1 (proj2 (simulator_execute_entries decision1 (attrs leaf1.1) leaf1.2))
             1 [(VRef 6%positive, VInt 2000, VInt 5, VInt 10)]
             (execute 1 decision1 leaf1).2.1 (execute 1 decision1 leaf1).2.2).
    vm_compute. reflexivity.
  - destruct (proj1 (proj2 (proj2 (simulator_execute_entries [] (attrs leaf1.1) leaf1.2)))
                (VInt 0) (VRef 7%positive) [VRef 6%positive] [] 1%positive (VBool false)
                (heap leaf1.2)) as [Hquiet _].
    + vm_compute. reflexivity.
    + vm_compute. reflexivity.
    + reflexivity.
    + apply Hquiet. reflexivity.
  - destruct (proj1 (proj2 (proj2 (simulator_execute_entries [] (attrs leaf2.1) leaf2.2)))
                (VInt 0) (VRef 7%positive) [VRef 6%positive] [] 1%positive (VBool false)
                (heap leaf2.2)) as [_ Hloud].
    + vm_compute. reflexivity.
    + vm_compute. reflexivity.
    + reflexivity.
    + apply (Hloud (VStr "Y")).
      * reflexivity.
      * vm_compute. reflexivity.
  - apply (proj2 (proj2 (proj2 (simulator_execute_entries [VRef 7%positive; VInt 3]
                                   (attrs leaf1.1) leaf1.2)))
             1 (Foreign "check_order")
             (execute 1 [VRef 7%positive; VInt 3] leaf1).2 1%positive 9%positive).
    + vm_compute. reflexivity.
    + vm_compute. reflexivity.
    + vm_compute. reflexivity.
Defined.

(** C1, counterexample: of the two orders of [decision1] the second fails
    the check; the bar returns normally and the returned list holds the
    entry of the first order only, no marker stands for the second. *)
Lemma dropped_order_has_no_entry :
  let res := execute 1 decision1 leaf1 in
  res.1 = Ok [(VRef 6%positive, VInt 2000, VInt 5, VInt 10)]
  ∧ checked (drop (length (trace leaf1.2)) (trace res.2.2))
    = [(VRef 6%positive, VBool true); (VRef 7%positive, VBool false)]
  ∧ length decision1 = 2.
Proof. vm_compute. done. Qed.

Lemma bar_closed_once_witness :
  let res := execute 5 [VRef 6%positive] split1 in
  trade_account (attrs split1.1) = Some (VRef 9%positive)
  ∧ (VRef 9%positive ∉ inner_accounts split1.1)
  ∧ ∃ evs t0 t1 x,
      let close := bar_close 9%positive (generate_report (attrs split1.1)) t0 t1 x in
      get_calendar_time (calendar (attrs res.2.1))
        (get_trade_index (calendar (attrs res.2.1))) = Returns (t0, t1)
      ∧ (generate_report (attrs split1.1) = true
         → trade_exchange (attrs split1.1) = Some x)
      ∧ trace res.2.2 = trace split1.2 ++ evs ++ close
      ∧ Forall (λ ev, closes_bar 9%positive ev = false) evs
      ∧ filter (λ ev, closes_bar 9%positive ev = true) (evs ++ close) = close.
Proof.
  assert (trade_account (attrs split1.1) = Some (VRef 9%positive)) as Ha
    by (vm_compute; reflexivity).
  assert (VRef 9%positive ∉ inner_accounts split1.1) as Hin
    by (apply (bool_decide_unpack _); vm_compute; exact I).
  split; [exact Ha|]. split; [exact Hin|].
  apply (proj2 (bar_closed_once [VRef 6%positive] split1.1 split1.2 9%positive
                  Ha Hin) 5 [(VRef 6%positive, VInt 2000, VInt 5, VInt 10)]).
  vm_compute. reflexivity.
Defined.

Lemma split_execute_runs_inner_witness :
  let res := execute 5 [VRef 6%positive] split1 in
  ∃ c t0 t1 bars σa h its inner1 w1,
    calendar_step (calendar (attrs split1.1)) = Returns c
    ∧ get_calendar_time c (get_trade_index c) = Returns (t0, t1)
    ∧ calendar_bars (time_per_step (attrs (inner_state split1).1)) t0 t1
      = Returns bars
    ∧ VRef 8%positive = VRef σa
    ∧ strategy_reset σa (window_calendar (inner_state split1).1 bars)
        [VRef 6%positive] (heap split1.2) = (Returns tt, h)
    ∧ inner_run σa None
        (at_window (inner_state split1).1 bars,
         {| heap := h;
            trace := trace split1.2
                     ++ [StrategyReset σa
                           (window_calendar (inner_state split1).1 bars)
                           [VRef 6%positive]] |})
        its (inner1, w1)
    ∧ calendar_finished (calendar (attrs inner1)) = true
    ∧ [(VRef 6%positive, VInt 2000, VInt 5, VInt 10)] = concat its.*2
    ∧ res.2.1 = SplitExecutor (set_calendar c (attrs split1.1)) inner1 (VRef 8%positive)
    ∧ emits (λ ev, is_close ev = true) w1 res.2.2.
Proof.
  apply (proj2 (split_execute_runs_inner [VRef 6%positive] (attrs split1.1)
                  (inner_state split1).1 (VRef 8%positive) split1.2) 5).
  vm_compute. reflexivity.
Defined.

(** ** Generators and [collect_data] *)
Section Generators.
Context {S : Type}.

Lemma GenStep_induction {A} (P : GenStep S A → Prop) :
  (∀ d k, (∀ s, P (k s).1) → P (GYield d k)) →
  (∀ a, P (GReturn a)) → (∀ e, P (GRaise e)) → P GOutOfFuel →
  ∀ x, P x.
Proof.
  intros Hy Hr He Hf. fix IH 1. intros [d k|a|e|].
  - apply Hy. intros s. apply IH.
  - apply Hr.
  - apply He.
  - apply Hf.
Qed.

Lemma drain_lift {A} (m : ST S A) s : drain (gen_lift m) s = ([], m s).
Proof. unfold drain, gen_lift. by destruct (m s) as [[a|e|] s']. Qed.

Lemma drain_ret {A} (a : A) (s : S) : drain (gen_ret a) s = ([], (Ok a, s)).
Proof. done. Qed.

Lemma drain_yield d (s : S) : drain (gen_yield d) s = ([d], (Ok tt, s)).
Proof. done. Qed.

Lemma drain_step_bind {A B} (x : GenStep S A) (f : A → Gen S B) s :
  (let '(y, s') := gen_bind_step x f s in drain_step y s')
  = drain_then f (drain_step x s).
Proof.
  revert s. induction x as [d k IH|a|e|] using GenStep_induction; intros s; cbn.
  - specialize (IH s). destruct (k s) as [x' s']. cbn in IH. specialize (IH s').
    destruct (gen_bind_step x' f s') as [y s'']. rewrite IH.
    destruct (drain_step x' s') as [ys [[a|e|] s1]]; cbn; try done.
    by destruct (drain (f a) s1).
  - unfold drain. destruct (f a s) as [y s']. by destruct (drain_step y s').
  - done.
  - done.
Qed.

Lemma drain_bind {A B} (g : Gen S A) (f : A → Gen S B) s :
  drain (gen_bind g f) s = drain_then f (drain g s).
Proof.
  unfold drain, gen_bind. destruct (g s) as [x s']. apply drain_step_bind.
Qed.
End Generators.

Section CollectDataFacts.
Context `{Collaborators}.

Lemma drain_step_on_inner {A} (x : GenStep (Executor * World) A) a inner σ w :
  drain_step (step_on_inner x) (SplitExecutor a inner σ, w)
  = let '(ys, (r, (inner', w'))) := drain_step x (inner, w) in
    (ys, (r, (SplitExecutor a inner' σ, w'))).
Proof.
  revert inner w. induction x as [d k IH|r|e|] using GenStep_induction;
    intros inner w; cbn; try done.
  specialize (IH (inner, w)). destruct (k (inner, w)) as [x' [inner' w']].
  cbn in IH. rewrite IH. by destruct (drain_step x' (inner', w')) as [ys [r [i2 w2]]].
Qed.

Lemma drain_on_inner {A} (g : Gen (Executor * World) A) a inner σ w :
  drain (gen_on_inner g) (SplitExecutor a inner σ, w)
  = let '(ys, (r, (inner', w'))) := drain g (inner, w) in
    (ys, (r, (SplitExecutor a inner' σ, w'))).
Proof.
  unfold drain, gen_on_inner. destruct (g (inner, w)) as [x [inner' w']].
  apply drain_step_on_inner.
Qed.

Lemma drain_yield_if_tracked d ex w :
  drain (yield_if_tracked d) (ex, w)
  = (if track_data (attrs ex) then [d] else [], (Ok tt, (ex, w))).
Proof.
  unfold yield_if_tracked. rewrite drain_bind, drain_lift, on_self_eq. cbn.
  rewrite with_attrs_attrs. by destruct (track_data (attrs ex)).
Qed.

Lemma execute_split fuel d a inner σ w :
  execute (S fuel) d (SplitExecutor a inner σ, w)
  = (on_self self_calendar_step;;
     _init_sub_trading d;;
     do execute_result <- split_loop fuel None [];
     close_outer_bar;;
     st_ret execute_result) (SplitExecutor a inner σ, w).
Proof. done. Qed.

Lemma tracked_split fuel d a inner σ w :
  tracked (S fuel) d (SplitExecutor a inner σ, w)
  = (if track_data a then [d] else [])
    ++ match (on_self self_calendar_step;; _init_sub_trading d)
               (SplitExecutor a inner σ, w) with
       | (Ok _, s1) => tracked_loop fuel None s1
       | _ => []
       end.
Proof. done. Qed.

Lemma split_loop_S fuel prev acc s :
  split_loop (S fuel) prev acc s
  = (do fin <- on_inner finished;
     if fin then st_ret acc
     else
       do d <- ask_inner_strategy prev;
       do r <- on_inner (execute fuel d);
       split_loop fuel (Some r) (acc ++ r)) s.
Proof. done. Qed.

Lemma tracked_loop_S fuel prev s :
  tracked_loop (S fuel) prev s
  = match on_inner finished s with
    | (Ok false, _) =>
        match ask_inner_strategy prev s with
        | (Ok d, s1) =>
            tracked fuel d (inner_state s1)
            ++ match on_inner (execute fuel d) s1 with
               | (Ok r, s2) => tracked_loop fuel (Some r) s2
               | _ => []
               end
        | _ => []
        end
    | _ => []
    end.
Proof. done. Qed.

Lemma collect_data_drained fuel :
  (∀ d s, drain (collect_data fuel d) s = (tracked fuel d s, execute fuel d s))
  ∧ (∀ prev acc s,
       drain (collect_loop fuel prev acc) s
       = (tracked_loop fuel prev s, split_loop fuel prev acc s)).
Proof.
  induction fuel as [|fuel [IHe IHl]].
  { split; intros; reflexivity. }
  split.
  - intros d [ex w]. destruct ex as [a|a|a inner σ].
    + change (drain (collect_data (S fuel) d) (BaseExecutor a, w))
        with (drain (yield_if_tracked d;;; gen_lift (execute (S fuel) d))
                (BaseExecutor a, w)).
      rewrite drain_bind, drain_yield_if_tracked. cbn. by rewrite app_nil_r.
    + change (drain (collect_data (S fuel) d) (SimulatorExecutor a, w))
        with (drain (yield_if_tracked d;;; gen_lift (execute (S fuel) d))
                (SimulatorExecutor a, w)).
      rewrite drain_bind, drain_yield_if_tracked. cbn [drain_then].
      rewrite drain_lift. cbn [tracked attrs fst]. by rewrite app_nil_r.
    + change (drain (collect_data (S fuel) d) (SplitExecutor a inner σ, w))
        with (drain (yield_if_tracked d;;;
                     gen_lift (on_self self_calendar_step);;;
                     gen_lift (_init_sub_trading d);;;
                     gen execute_result <- collect_loop fuel None [];
                     gen_lift close_outer_bar;;;
                     gen_ret execute_result) (SplitExecutor a inner σ, w)).
      rewrite execute_split, tracked_split.
      rewrite drain_bind, drain_yield_if_tracked. cbn [drain_then attrs].
      rewrite drain_bind, drain_lift.
      destruct (on_self self_calendar_step _) as [[[]|e|] s1] eqn:E0;
        cbn [drain_then].
      2:{ by rewrite !(bind_raise _ _ _ _ _ E0). }
      2:{ by rewrite !(bind_fuel _ _ _ _ E0). }
      rewrite !(bind_step _ _ _ _ _ E0).
      rewrite drain_bind, drain_lift.
      destruct (_init_sub_trading d s1) as [[[]|e|] s2] eqn:E1; cbn [drain_then].
      2:{ by rewrite !(bind_raise _ _ _ _ _ E1). }
      2:{ by rewrite !(bind_fuel _ _ _ _ E1). }
      rewrite !(bind_step _ _ _ _ _ E1).
      rewrite drain_bind, IHl.
      destruct (split_loop fuel None [] s2) as [[r|e|] s3] eqn:E2; cbn [drain_then].
      2:{ by rewrite !(bind_raise _ _ _ _ _ E2), ?app_nil_r. }
      2:{ by rewrite !(bind_fuel _ _ _ _ E2), ?app_nil_r. }
      rewrite !(bind_step _ _ _ _ _ E2).
      rewrite drain_bind, drain_lift.
      destruct (close_outer_bar s3) as [[[]|e|] s4] eqn:E3; cbn [drain_then].
      2:{ by rewrite !(bind_raise _ _ _ _ _ E3), ?app_nil_r. }
      2:{ by rewrite !(bind_fuel _ _ _ _ E3), ?app_nil_r. }
      rewrite !(bind_step _ _ _ _ _ E3). rewrite drain_ret. by rewrite ?app_nil_r.
  - intros prev acc s. rewrite split_loop_S, tracked_loop_S.
    change (drain (collect_loop (S fuel) prev acc) s)
      with (drain (gen fin <- gen_lift (on_inner finished);
                   if fin then gen_ret acc
                   else
                     gen d <- gen_lift (ask_inner_strategy prev);
                     gen r <- gen_on_inner (collect_data fuel d);
                     collect_loop fuel (Some r) (acc ++ r)) s).
    rewrite drain_bind, drain_lift.
    pose proof (on_inner_finished_same s) as Es.
    destruct (on_inner finished s) as [[[]|e|] s1] eqn:E0; cbn [drain_then].
    2:{ cbn in Es. subst s1. rewrite !(bind_step _ _ _ _ _ E0).
        rewrite drain_bind, drain_lift.
        destruct (ask_inner_strategy prev s) as [[d|e|] s1] eqn:Eask;
          cbn [drain_then].
        2:{ by rewrite !(bind_raise _ _ _ _ _ Eask). }
        2:{ by rewrite !(bind_fuel _ _ _ _ Eask). }
        rewrite !(bind_step _ _ _ _ _ Eask).
        destruct s as [[a|a|a inner σ] w]; try done.
        apply ask_inner_strategy_Ok in Eask as (σa & h & -> & Eg & ->).
        rewrite drain_bind, drain_on_inner, IHe. cbn [inner_state fst snd].
        destruct (execute fuel d _) as [[r|e|] [inner2 w2]] eqn:E2;
          cbn [drain_then fst snd].
        2:{ erewrite !bind_raise; [by rewrite !on_inner_eq, E2, ?app_nil_r|].
            by rewrite on_inner_eq, E2. }
        2:{ erewrite !bind_fuel; [by rewrite !on_inner_eq, E2, ?app_nil_r|].
            by rewrite on_inner_eq, E2. }
        erewrite !bind_step; [|by rewrite on_inner_eq, E2].
        rewrite on_inner_eq, E2. cbn [fst snd]. by rewrite IHl. }
    + by rewrite !(bind_step _ _ _ _ _ E0).
    + by rewrite !(bind_raise _ _ _ _ _ E0).
    + by rewrite !(bind_fuel _ _ _ _ E0).
Qed.

Lemma all_track_static ex ex' : static ex' = static ex → all_track ex' = all_track ex.
Proof.
  revert ex'. induction ex as [a|a|a inner IH σ]; intros [a'|a'|a' inner' σ'];
    cbn [static all_track attrs]; intros E; try discriminate E;
    (assert (set_calendar blank a' = set_calendar blank a) as Ea by congruence);
    apply blank_fields in Ea as (_&_&_&->&_); [done..|].
  f_equal. apply IH. congruence.
Qed.

Lemma generated_app evs1 evs2 :
  generated (evs1 ++ evs2) = generated evs1 ++ generated evs2.
Proof. apply omap_app. Qed.

Lemma generated_bar_close a g t0 t1 x : generated (bar_close a g t0 t1 x) = [].
Proof. by destruct g. Qed.

Lemma tracked_generated fuel :
  (∀ d s r s',
     all_track s.1 = true → execute fuel d s = (Ok r, s') →
     ∃ evs, trace s'.2 = trace s.2 ++ evs ∧ tracked fuel d s = d :: generated evs)
  ∧ (∀ prev acc a inner σ w r s',
       all_track inner = true →
       split_loop fuel prev acc (SplitExecutor a inner σ, w) = (Ok r, s') →
       ∃ evs, trace s'.2 = trace w ++ evs
         ∧ tracked_loop fuel prev (SplitExecutor a inner σ, w) = generated evs).
Proof.
  induction fuel as [|fuel [IHe IHl]]; [by split|]. split.
  - intros d [ex w] r [ex' w'] Ht E. destruct ex as [a|a|a inner σ]; [done| |].
    + apply execute_simulator_Ok in E as (self' & w1 & E & [= -> ->]).
      apply simulator_execute_Ok in E
        as (c & t0 & t1 & a' & x & evs & _ & _ & _ & _ & _ & Etr & _ & _ & _ & Fo).
      eexists. split; [exact Etr|]. cbn [tracked fst attrs all_track] in *.
      apply andb_prop in Ht as [-> _].
      by rewrite generated_app, (of_order_generated _ Fo), generated_bar_close.
    + cbn [all_track attrs fst] in Ht. apply andb_prop in Ht as [Hta Hti].
      rewrite tracked_split, Hta. rewrite execute_split in E.
      apply bind_Ok in E as ([] & s1 & E1 & E).
      apply bind_Ok in E as ([] & s2 & E2 & E).
      rewrite (bind_step _ _ _ _ _ E1), E2.
      apply on_self_Ok in E1
        as (self1 & w1 & (c & Ec & [= -> ->])%self_calendar_step_Ok & ->).
      cbn [with_attrs] in E2.
      apply _init_sub_trading_Ok in E2
        as (t0 & t1 & bars & σa & h & _ & _ & -> & _ & ->).
      apply bind_Ok in E as (r1 & s3 & E3 & E).
      apply IHl in E3 as (evs & Etr & ->);
        [|by rewrite (all_track_static _ _ (static_at_window _ _))].
      apply bind_Ok in E as ([] & s4 & E4 & [_ Es]%ret_Ok). subst s4.
      destruct s3 as [ex3 w3]. apply close_outer_bar_Ok in E4.
      cbn [trace snd] in *.
      destruct (trade_account (attrs ex3)) as [v|].
      * destruct E4 as (a' & t0' & t1' & x & w4 & _ & _ & _ & Etr' & [= _ ->]).
        eexists. split; [by rewrite Etr', Etr, <-!(assoc_L (++))|].
        rewrite !generated_app, generated_bar_close. cbn. by rewrite app_nil_r.
      * injection E4 as _ ->. eexists. split; [by rewrite Etr, <-(assoc_L (++))|].
        by rewrite generated_app.
  - intros prev acc a inner σ w r s' Ht E. rewrite split_loop_S in E.
    rewrite tracked_loop_S.
    apply bind_Ok in E as (fin & s1 & E1 & E). rewrite E1.
    apply on_inner_finished_Ok in E1 as [-> ->].
    destruct (calendar_finished (calendar (attrs inner))).
    { apply ret_Ok in E as [-> ->]. exists []. by rewrite app_nil_r. }
    apply bind_Ok in E as (d & s1 & E1 & E). rewrite E1.
    apply ask_inner_strategy_Ok in E1 as (σa & h & -> & Eg & ->).
    apply bind_Ok in E as (r1 & s2 & E2 & E). rewrite E2.
    apply on_inner_Ok in E2 as (inner2 & w2 & E2 & ->).
    cbn [inner_state fst snd].
    pose proof (execute_keeps_static _ _ _ _ _ E2) as Hst. cbn in Hst.
    apply IHe in E2 as (evs1 & Etr1 & ->); [|done].
    apply IHl in E as (evs2 & Etr2 & ->); [|by rewrite (all_track_static _ _ Hst)].
    cbn [trace snd] in *. eexists. split.
    { by rewrite Etr2, Etr1, <-!(assoc_L (++)). }
    by rewrite !generated_app.
Qed.

(** C5, as amended: [collect_data], fully drained, ends with the same
    result and in the same state of executors, heap and call trace as
    [execute] on the same decision with the same fuel, and yields the
    decisions that reach an executor whose [track_data] is set: the decision
    itself when [track_data] is set on this executor, and a sub-decision of
    the inner strategy when it is set on the executor that the sub-decision
    is handed to.  When [track_data] is set on every level and [execute]
    returns, the yielded sequence is the decision followed by every
    sub-decision the inner strategies generated, in the order of the
    calls. *)
Theorem collect_data_refines_execute fuel d s :
  drain (collect_data fuel d) s = (tracked fuel d s, execute fuel d s)
  ∧ (all_track s.1 = true →
     ∀ r s', execute fuel d s = (Ok r, s') →
       ∃ evs, trace s'.2 = trace s.2 ++ evs
         ∧ tracked fuel d s = d :: generated evs).
Proof.
  split; [apply collect_data_drained|].
  intros Ht r s'. by apply tracked_generated.
Qed.

Lemma first_yield {A} (g rest : Gen (Executor * World) A) d s :
  g s = (GYield d rest, s) →
  advance 1 g s = ([d], s)
  ∧ drain g s = (d :: (drain rest s).1, (drain rest s).2).
Proof.
  intros E. unfold advance, drain. rewrite E. cbn [drain_step]. split; [done|].
  destruct (rest s) as [x s']. by destruct (drain_step x s').
Qed.

Lemma collect_data_yields_first fuel d s :
  track_data (attrs s.1) = true →
  ∃ rest : Gen (Executor * World) (list Entry),
    collect_data (S fuel) d s = (GYield d rest, s).
Proof.
  intros Ht.
  assert (∀ rest : Gen (Executor * World) (list Entry),
            (yield_if_tracked d;;; rest) s = (GYield d rest, s)) as Hy.
  { intros rest. destruct s as [ex w]. unfold gen_bind at 1, yield_if_tracked.
    unfold gen_bind at 1, gen_lift. rewrite on_self_eq. cbn [fst snd self_get].
    rewrite with_attrs_attrs. cbn [gen_bind_step fst] in *. rewrite Ht. cbn.
    done. }
  destruct s as [[a|a|a inner σ] w]; eexists; apply Hy.
Qed.

(** C4, as amended: the effects of [collect_data] happen only while the
    generator is advanced.  With [track_data] set, the first element is the
    decision itself and it is yielded before anything else has run: a
    caller who stops there leaves executors, heap and call trace as they
    were; the calendar step, the dealing and the account updates of the bar
    happen when the generator is resumed, and resuming it to its end gives
    the result and the state of [execute]. *)
Theorem collect_data_first_yield fuel d s :
  track_data (attrs s.1) = true →
  ∃ rest : Gen (Executor * World) (list Entry),
    collect_data (S fuel) d s = (GYield d rest, s)
    ∧ advance 1 (collect_data (S fuel) d) s = ([d], s)
    ∧ (drain rest s).2 = execute (S fuel) d s.
Proof.
  intros Ht. destruct (collect_data_yields_first fuel d s Ht) as [rest E].
  exists rest. destruct (first_yield _ _ _ _ E) as [Ha Hd].
  split_and!; [done..|].
  rewrite (proj1 (collect_data_drained _)) in Hd. by injection Hd.
Qed.
End CollectDataFacts.


Lemma collect_data_first_yield_witness :
  ∃ rest : Gen (Executor * World) (list Entry),
    collect_data 1 decision1 leaf1 = (GYield decision1 rest, leaf1)
    ∧ advance 1 (collect_data 1 decision1) leaf1 = ([decision1], leaf1)
    ∧ (drain rest leaf1).2 = execute 1 decision1 leaf1.
Proof. apply (collect_data_first_yield 0 decision1 leaf1). vm_compute. reflexivity. Defined.

(** C4, counterexample: a leaf executor that tracks yields the decision
    first; abandoning the generator there leaves the calendar at index 0,
    the cash of the executor's account untouched and no call made, while
    draining it steps the calendar, deals the first order and closes the
    bar. *)
Lemma abandoned_collect_data_skips_the_bar :
  let abandoned := (advance 1 (collect_data 1 decision1) leaf1).2 in
  let drained := (drain (collect_data 1 decision1) leaf1).2.2 in
  abandoned = leaf1
  ∧ current_index (calendar (attrs abandoned.1)) = 0
  ∧ current_index (calendar (attrs drained.1)) = 1
  ∧ int_attr (heap abandoned.2) 9%positive "cash" = Some 1000000%Z
  ∧ int_attr (heap drained.2) 9%positive "cash" = Some 997995%Z
  ∧ length (trace abandoned.2) = 1
  ∧ length (trace drained.2) = 6.
Proof. vm_compute. done. Qed.

Lemma collect_data_refines_execute_witness :
  let out := drain (collect_data 5 decision1) split2 in
  out.2 = execute 5 decision1 split2
  ∧ all_track split2.1 = true
  ∧ ∃ evs, trace out.2.2.2 = trace split2.2 ++ evs
      ∧ out.1 = decision1 :: generated evs.
Proof.
  destruct (collect_data_refines_execute 5 decision1 split2) as [Hd Hall].
  cbn zeta. rewrite Hd. cbn [fst snd]. split; [done|]. split; [reflexivity|].
  apply (Hall eq_refl [(VRef 6%positive, VInt 2000, VInt 5, VInt 10)]).
  vm_compute. reflexivity.
Defined.

(** C5, counterexample: on a split executor that tracks over a leaf that
    does not, the drained generator yields the outer decision only, although
    the inner strategy generated two sub-decisions along the way. *)
Lemma collect_data_skips_untracked_levels :
  let out := drain (collect_data 5 decision1) split1 in
  out.1 = [decision1]
  ∧ generated (drop (length (trace split1.2)) (trace out.2.2.2))
    = [[VRef 6%positive]; []]
  ∧ out.2.1 = Ok [(VRef 6%positive, VInt 2000, VInt 5, VInt 10)].
Proof. vm_compute. done. Qed.

(** ** The abstract methods *)
Section SupportedMonad.
Context {S : Type}.

Lemma supported_bind {A B} (m : ST S A) (k : A → ST S B) s :
  raises_supported m s →
  (∀ a s1, m s = (Ok a, s1) → raises_supported (k a) s1) →
  raises_supported (st_bind m k) s.
Proof.
  intros Hm Hk e s' E.
  destruct (bind_inv _ _ _ _ _ E) as [(a & s1 & E1 & E2)|[(e' & E1 & [= ->])|[_ ?]]].
  - by eapply Hk.
  - by eapply Hm.
  - done.
Qed.

Lemma supported_ret {A} (a : A) (s : S) : raises_supported (st_ret a) s.
Proof. by intros e s' E. Qed.

Lemma supported_pure_ret {A} (x : Ret A) (s : S) : raises_supported (pure_ret x) s.
Proof. intros e s' E. destruct x; by inversion E. Qed.

Lemma supported_method meth recv (s : S) : raises_supported (method meth recv) s.
Proof. intros e s' E. destruct recv; by inversion E. Qed.

Lemma supported_on_snd {X A} (m : ST S A) (xs : X * S) :
  raises_supported m xs.2 → raises_supported (on_snd m) xs.
Proof.
  destruct xs as [x s]. cbn [snd].
  intros Hm e s' E. rewrite on_snd_eq in E. destruct (m s) as [r s1] eqn:Em.
  cbn in E. injection E as -> <-. by eapply Hm.
Qed.

End SupportedMonad.

Section SupportedSteps.
Context `{Collaborators}.

Lemma supported_invoke {A} (op : Op A) ev w : raises_supported (invoke op ev) w.
Proof.
  intros e s' E. unfold invoke in E. destruct (op (heap w)) as [[] ?]; by inversion E.
Qed.

Lemma supported_print msg w : raises_supported (print msg) w.
Proof. by intros e s' E. Qed.

Lemma supported_getattr obj name w : raises_supported (getattr obj name) w.
Proof.
  intros e s' E. unfold getattr in E. destruct obj; try by inversion E.
  destruct (_ ≫= _); by inversion E.
Qed.

Lemma supported_self_attr {A} name (f : Attrs → option A) s :
  raises_supported (self_attr name f) s.
Proof. intros e s' E. unfold self_attr in E. destruct (f s.1); by inversion E. Qed.

Lemma supported_self_get {A} (f : Attrs → A) s : raises_supported (self_get f) s.
Proof. by intros e s' E. Qed.

Lemma supported_self_set f s : raises_supported (self_set f) s.
Proof. destruct s. by intros e s' E. Qed.

Lemma supported_on_self {A} (m : M A) s :
  raises_supported m (attrs s.1, s.2) → raises_supported (on_self m) s.
Proof.
  destruct s as [ex w]. cbn [fst snd].
  intros Hm e s' E. rewrite on_self_eq in E.
  destruct (m (attrs ex, w)) as [r [a1 w1]] eqn:Em.
  cbn in E. injection E as -> <-. by eapply Hm.
Qed.

Lemma supported_on_inner {A} (m : E A) s :
  raises_supported m (inner_state s) → raises_supported (on_inner m) s.
Proof.
  destruct s as [[a|a|a inner σ] w]; intros Hm e s' E; try by inversion E.
  rewrite on_inner_eq in E. destruct (m (inner, w)) as [r [i1 w1]] eqn:Em.
  cbn in E. injection E as -> <-. by eapply Hm.
Qed.

Lemma supported_self_inner_strategy s : raises_supported self_inner_strategy s.
Proof. destruct s as [[] ?]; intros e s' E; by inversion E. Qed.

Lemma supported_reading {A} (m : M A) self w :
  raises_supported m (self, w) → raises_supported (reading self m) w.
Proof.
  intros Hm e s' E. unfold reading in E.
  destruct (m (self, w)) as [r [a1 w1]] eqn:Em. injection E as -> <-. by eapply Hm.
Qed.

End SupportedSteps.

Ltac supported :=
  repeat first
    [ apply supported_ret | apply supported_pure_ret | apply supported_method
    | apply supported_self_attr | apply supported_self_get
    | apply supported_self_set | apply supported_invoke | apply supported_print
    | apply supported_getattr | apply supported_self_inner_strategy
    | apply supported_on_snd | apply supported_on_self
    | apply supported_on_inner | apply supported_reading
    | apply supported_bind; [|intros ? ? _]
    | lazymatch goal with
      | |- raises_supported (if ?b then _ else _) _ => destruct b
      | |- raises_supported (match ?x with _ => _ end) _ => destruct x
      end ].

Section AbstractMethods.
Context `{Collaborators}.

Lemma supported_deal_orders t orders acc s :
  raises_supported (deal_orders t orders acc) s.
Proof.
  revert acc s. induction orders as [|order orders IH]; intros acc s;
    cbn [deal_orders]; supported; apply IH.
Qed.

Lemma supported_simulator_execute d s : raises_supported (simulator_execute d) s.
Proof.
  unfold simulator_execute, self_calendar_step, self_trade_time.
  supported; apply supported_deal_orders.
Qed.


Lemma supported_init_sub_trading d s : raises_supported (_init_sub_trading d) s.
Proof.
  destruct s as [ex w]. unfold _init_sub_trading, self_trade_time, get_level_infra.
  supported.
Qed.

Lemma supported_close_outer_bar s : raises_supported close_outer_bar s.
Proof.
  destruct s as [ex w]. unfold close_outer_bar, _update_trade_account, self_trade_time.
  supported.
Qed.

Lemma supported_ask_inner_strategy prev s :
  raises_supported (ask_inner_strategy prev) s.
Proof.
  destruct s as [ex w]. unfold ask_inner_strategy, get_level_infra. supported.
Qed.

Lemma supported_finished s : raises_supported (on_inner finished) s.
Proof. unfold finished. supported. Qed.

Lemma concrete_inner_state s : concrete s.1 = true → concrete (inner_state s).1 = true.
Proof. by destruct s as [[] ?]. Qed.

Lemma supported_execute fuel :
  (∀ d s, concrete s.1 = true → raises_supported (execute fuel d) s)
  ∧ (∀ prev acc s, concrete s.1 = true →
       raises_supported (split_loop fuel prev acc) s).
Proof.
  induction fuel as [|fuel [IHe IHl]].
  { split; intros; by intros e s' E. }
  split.
  - intros d [ex w] Hc. destruct ex as [a|a|a inner σ]; [done| |].
    + cbn [execute fst]. apply supported_on_self, supported_simulator_execute.
    + unfold raises_supported. cbn [execute fst].
      apply (supported_bind _ _ (SplitExecutor a inner σ, w));
        [unfold self_calendar_step; supported|intros [] s1 E1].
      apply supported_bind; [apply supported_init_sub_trading|intros [] s2 E2].
      apply supported_bind; [|intros r s3 _].
      { apply IHl.
        destruct (bar_on_self _ _ _ (own_self_calendar_step _) _ _ E1) as [Hs1 _].
        destruct (loop_init_sub_trading _ _ _ _ E2) as (_ & Hs2 & _).
        rewrite (concrete_static _ _ Hs2), (concrete_static _ _ Hs1). done. }
      apply supported_bind; [apply supported_close_outer_bar|intros [] s4 _].
      apply supported_ret.
  - intros prev acc s Hc. unfold raises_supported. cbn [split_loop].
    apply (supported_bind _ _ s); [apply supported_finished|intros fin s1 E1].
    pose proof (on_inner_finished_same s) as Es. rewrite E1 in Es. cbn in Es. subst s1.
    destruct fin; [apply supported_ret|].
    apply supported_bind; [apply supported_ask_inner_strategy|intros d s2 E2].
    destruct (loop_ask_inner_strategy _ _ _ _ E2) as (_ & Hs2 & _).
    assert (concrete s2.1 = true) as Hc2 by by rewrite (concrete_static _ _ Hs2).
    apply supported_bind; [|intros r s3 E3].
    { apply supported_on_inner, IHe. by apply concrete_inner_state. }
    apply IHl.
    assert (preserves loop_rel (on_inner (execute fuel d)) s2) as Hp.
    { eapply loop_on_inner; [|apply execute_frames]. done. }
    destruct (Hp _ _ E3) as (_ & Hs3 & _). by rewrite (concrete_static _ _ Hs3).
Qed.

Lemma supported_own_report s : raises_supported own_report s.
Proof. unfold own_report. supported. Qed.

Lemma supported_get_report ex w :
  concrete ex = true → raises_supported (get_report ex) w.
Proof.
  revert w. induction ex as [a|a|a inner IH σ]; intros w Hc; [done| |];
    cbn [get_report].
  - destruct (generate_report a); [|apply supported_ret].
    apply supported_bind; [apply supported_reading, supported_own_report|].
    intros [label entry] w1 _. apply supported_ret.
  - apply supported_bind; [by apply IH|intros sub w1 _].
    destruct (generate_report a); [|apply supported_ret].
    apply supported_bind; [apply supported_reading, supported_own_report|].
    intros [label entry] w2 _. apply supported_ret.
Qed.

(** C8, as amended: on the abstract base executor [execute] and
    [get_report] fail with [NotImplementedError] for every input and leave
    executor, heap and call trace as they were, and so does
    [get_trade_account], on the base and on both subclasses, which inherit
    it.  [SimulatorExecutor] and [SplitExecutor] override [execute] and
    [get_report]: on a tree of them that holds no abstract base executor,
    neither method ever raises [NotImplementedError]. *)
Theorem abstract_methods_not_supported :
  (∀ fuel d self w,
     execute (S fuel) d (BaseExecutor self, w)
     = (Raise (NotImplementedError "execute is not implemented!"),
        (BaseExecutor self, w)))
  ∧ (∀ self w,
       get_report (BaseExecutor self) w
       = (Raise (NotImplementedError "get_report is not implemented!"), w))
  ∧ (∀ s,
       get_trade_account s
       = (Raise (NotImplementedError "get_trade_account is not implemented!"), s))
  ∧ (∀ ex, concrete ex = true →
       ∀ fuel d w msg,
         (execute fuel d (ex, w)).1 ≠ Raise (NotImplementedError msg)
         ∧ (get_report ex w).1 ≠ Raise (NotImplementedError msg)).
Proof.
  split_and!; try done.
  intros ex Hc fuel d w msg. split.
  - destruct (execute fuel d (ex, w)) as [r s'] eqn:E. cbn. intros ->.
    apply (proj1 (supported_execute fuel) d (ex, w) Hc _ _ E).
  - destruct (get_report ex w) as [r s'] eqn:E. cbn. intros ->.
    apply (supported_get_report ex w Hc _ _ E).
Qed.
End AbstractMethods.


Lemma abstract_methods_not_supported_witness :
  concrete split1.1 = true
  ∧ ∀ msg, (execute 5 decision1 split1).1 ≠ Raise (NotImplementedError msg)
           ∧ (get_report split1.1 split1.2).1 ≠ Raise (NotImplementedError msg).
Proof.
  split; [reflexivity|]. intros msg.
  apply (proj2 (proj2 (proj2 abstract_methods_not_supported)) split1.1).
  reflexivity.
Defined.

(** C8, counterexample: [get_trade_account] is overridden by neither
    subclass, so it fails on a leaf and on a split executor as it does on
    the base; and [execute] of a split executor reaches the base's error
    when its inner executor is an abstract base executor. *)
Lemma subclasses_inherit_get_trade_account :
  (∃ self w, leaf1 = (SimulatorExecutor self, w))
  ∧ (get_trade_account leaf1).1
    = Raise (NotImplementedError "get_trade_account is not implemented!")
  ∧ (∃ self inner σ w, split1 = (SplitExecutor self inner σ, w))
  ∧ (get_trade_account split1).1
    = Raise (NotImplementedError "get_trade_account is not implemented!")
  ∧ (∃ self inner σ w, split_base1 = (SplitExecutor self inner σ, w))
  ∧ (execute 5 decision1 split_base1).1
    = Raise (NotImplementedError "execute is not implemented!").
Proof.
  split_and!; try (vm_compute; reflexivity).
  - eexists _, _. vm_compute. reflexivity.
  - eexists _, _, _, _. vm_compute. reflexivity.
  - eexists _, _, _, _. vm_compute. reflexivity.
Qed.

(** ** Reports and the injected account *)
Section Reports.
Context `{Collaborators}.

Lemma own_report_Ok self w label entry s' :
  own_report (self, w) = (Ok (label, entry), s') →
  ∃ a count freq rep pos h1 h2,
    trade_account self = Some (VRef a)
    ∧ parse_freq (time_per_step self) = Returns (count, freq)
    ∧ generate_report_dataframe a (heap w) = (Returns rep, h1)
    ∧ get_positions a h1 = (Returns pos, h2)
    ∧ label = pretty count +:+ freq
    ∧ entry = (rep, pos)
    ∧ s' = (self, {| heap := h2;
                     trace := trace w ++ [GenerateReportDataframe a rep;
                                          GetPositions a pos] |}).
Proof.
  unfold own_report. intros E. inv_ok E. cbn [heap trace] in *.
  unfold report_label in *.
  destruct (parse_freq (time_per_step self)) as [[count freq]|] eqn:Ep; [|done].
  repeat match goal with E : trade_account _ = _ |- _ => rewrite E in *; clear E end.
  simplify_eq. eexists _, count, freq, _, _, _, _.
  split_and!; try done. by rewrite <-(assoc_L (++)).
Qed.

Lemma reading_Ok {A} self (m : M A) w x w' :
  reading self m w = (Ok x, w') ↔ ∃ self', m (self, w) = (Ok x, (self', w')).
Proof.
  unfold reading. destruct (m (self, w)) as [r [a1 w1]]. split.
  - intros [= -> ->]. eauto.
  - intros (self' & [= -> _ ->]). done.
Qed.

(** C9: a leaf executor that is not configured to report returns the empty
    mapping and calls nothing; one that is returns the single entry of its
    own label; a split executor returns the mapping of its inner executor,
    to which, only when it is configured to report, it adds its own entry.
    The label is the count followed by the frequency that [parse_freq]
    gives for [time_per_step], the entry pairs the report dataframe of the
    level's account with its positions. *)
Theorem get_report_merges :
  (∀ self w,
     generate_report self = false →
     get_report (SimulatorExecutor self) w = (Ok ∅, w))
  ∧ (∀ self w m w',
       generate_report self = true →
       get_report (SimulatorExecutor self) w = (Ok m, w') →
       ∃ a count freq rep pos h1,
         trade_account self = Some (VRef a)
         ∧ parse_freq (time_per_step self) = Returns (count, freq)
         ∧ generate_report_dataframe a (heap w) = (Returns rep, h1)
         ∧ get_positions a h1 = (Returns pos, heap w')
         ∧ m = {[pretty count +:+ freq := (rep, pos)]})
  ∧ (∀ self inner σ w m w',
       get_report (SplitExecutor self inner σ) w = (Ok m, w') →
       ∃ sub w1,
         get_report inner w = (Ok sub, w1)
         ∧ if generate_report self then
             ∃ a count freq rep pos h1,
               trade_account self = Some (VRef a)
               ∧ parse_freq (time_per_step self) = Returns (count, freq)
               ∧ generate_report_dataframe a (heap w1) = (Returns rep, h1)
               ∧ get_positions a h1 = (Returns pos, heap w')
               ∧ m = <[pretty count +:+ freq := (rep, pos)]> sub
           else m = sub ∧ w' = w1).
Proof.
  split_and!.
  - intros self w Hg. cbn [get_report]. by rewrite Hg.
  - intros self w m w' Hg E. cbn [get_report] in E. rewrite Hg in E.
    apply bind_Ok in E as ([label entry] & w1 & E1 & [-> ->]%ret_Ok).
    apply reading_Ok in E1 as (self' & E1).
    apply own_report_Ok in E1
      as (a & count & freq & rep & pos & h1 & h2 & Ea & Ep & Er & Eg & -> & -> & [= _ ->]).
    by exists a, count, freq, rep, pos, h1.
  - intros self inner σ w m w' E. cbn [get_report] in E.
    apply bind_Ok in E as (sub & w1 & E1 & E). exists sub, w1. split; [done|].
    destruct (generate_report self).
    + apply bind_Ok in E as ([label entry] & w2 & E2 & [-> ->]%ret_Ok).
      apply reading_Ok in E2 as (self' & E2).
      apply own_report_Ok in E2
        as (a & count & freq & rep & pos & h1 & h2 & Ea & Ep & Er & Eg & -> & -> & [= _ ->]).
      by exists a, count, freq, rep, pos, h1.
    + by apply ret_Ok in E as [-> ->].
Qed.
End Reports.

Section AccountCopy.
Context `{Collaborators}.

Lemma fresh_heap (h : Heap) : h !! fresh (dom h) = None.
Proof. apply not_elem_of_dom, is_fresh. Qed.

(** X18: for an account object [a] injected under "trade_account",
    [BaseExecutor.reset_common_infra] makes the executor's [trade_account]
    a new object [a'], not in the heap before and so other than [a], with
    the attribute table of [a] (the copy of [copy.copy]: an attribute that
    holds a reference holds the same reference in the copy), leaves the
    caller's object as it was, and calls [Account.reset] with the
    executor's [time_per_step] and [init_report=True] on the copy, whether
    that call returns or raises; rebinding an attribute of the executor's
    account does not change the caller's object. *)
Theorem reset_common_infra_copies infra self w a obj r self' w' :
  infra !! "trade_account" = Some (VRef a) →
  heap w !! a = Some obj →
  base_reset_common_infra infra (self, w) = (r, (self', w')) →
  let a' := fresh (dom (heap w)) in
  let copied := <[a' := obj]> (heap w) in
  a' ≠ a
  ∧ heap w !! a' = None
  ∧ trade_account self' = Some (VRef a')
  ∧ copied !! a' = Some obj
  ∧ copied !! a = Some obj
  ∧ (∃ ret, account_reset a' (time_per_step self) true copied = (ret, heap w'))
  ∧ (∀ name v h, setattr a' name v h !! a = h !! a).
Proof.
  intros Hi Ha E a' copied.
  assert (a' ≠ a) as Hne.
  { intros Heq. pose proof (fresh_heap (heap w)) as Hf. fold a' in Hf.
    rewrite Heq in Hf. congruence. }
  unfold base_reset_common_infra in E. rewrite Hi in E.
  unfold st_bind, self_get, self_set, on_fst, modify, copy_copy, on_snd,
    self_attr, method, st_ret, invoke in E.
  cbn in E. rewrite Ha in E. cbn in E. fold a' copied in E.
  destruct (account_reset a' (time_per_step self) true copied) as [[[]|msg] h] eqn:Er;
    injection E as <- <- <-; cbn.
  all: split_and!; try done.
  all: try apply fresh_heap.
  all: try (subst copied; by rewrite lookup_insert_eq).
  all: try (subst copied; by rewrite lookup_insert_ne).
  all: try (by eexists).
  all: intros name v h'; unfold setattr; by rewrite lookup_alter_ne.
Qed.
End AccountCopy.


Lemma get_report_merges_witness :
  ∃ sub w1,
    get_report (inner_state split1).1 split1.2 = (Ok sub, w1)
    ∧ if generate_report (attrs split1.1) then
        ∃ a count freq rep pos h1,
          trade_account (attrs split1.1) = Some (VRef a)
          ∧ parse_freq (time_per_step (attrs split1.1)) = Returns (count, freq)
          ∧ generate_report_dataframe a (heap w1) = (Returns rep, h1)
          ∧ get_positions a h1
            = (Returns pos, heap (get_report split1.1 split1.2).2)
          ∧ (<["1day" := (VRef 10%positive, VRef 4%positive)]>
               {["120min" := (VRef 12%positive, VRef 4%positive)]}
             : gmap string (PyVal * PyVal))
            = <[pretty count +:+ freq := (rep, pos)]> sub
      else (<["1day" := (VRef 10%positive, VRef 4%positive)]>
              {["120min" := (VRef 12%positive, VRef 4%positive)]}
            : gmap string (PyVal * PyVal)) = sub
           ∧ (get_report split1.1 split1.2).2 = w1.
Proof.
  apply (proj2 (proj2 get_report_merges) (attrs split1.1) (inner_state split1).1
           (VRef 8%positive) split1.2).
  vm_compute. reflexivity.
Defined.

Lemma reset_common_infra_copies_witness :
  let out := base_reset_common_infra infra0 (attrs0 "day" true true, world0) in
  let a' := fresh (dom (heap world0)) in
  let copied := <[a' := default ∅ (heap0 !! 3%positive)]> (heap world0) in
  a' ≠ 3%positive
  ∧ heap world0 !! a' = None
  ∧ trade_account out.2.1 = Some (VRef a')
  ∧ copied !! a' = Some (default ∅ (heap0 !! 3%positive))
  ∧ copied !! 3%positive = Some (default ∅ (heap0 !! 3%positive))
  ∧ (∃ ret, account_reset a' (time_per_step (attrs0 "day" true true)) true copied
            = (ret, heap out.2.2))
  ∧ (∀ name v h, setattr a' name v h !! 3%positive = h !! 3%positive).
Proof.
  apply (reset_common_infra_copies infra0 (attrs0 "day" true true) world0
           3%positive (default ∅ (heap0 !! 3%positive))
           (base_reset_common_infra infra0 (attrs0 "day" true true, world0)).1).
  - vm_compute. reflexivity.
  - vm_compute. reflexivity.
  - vm_compute. reflexivity.
Defined.

(** * Further properties *)

(** ** What a call of [execute] does and needs *)
Section ExecuteFacts.
Context `{Collaborators}.

Lemma dealt_app evs1 evs2 : dealt (evs1 ++ evs2) = dealt evs1 ++ dealt evs2.
Proof. apply omap_app. Qed.

Lemma dealt_bar_close a g t0 t1 x : dealt (bar_close a g t0 t1 x) = [].
Proof. by destruct g. Qed.

Lemma execute_dealt fuel :
  (∀ d s r s', execute fuel d s = (Ok r, s') →
     ∃ evs, trace s'.2 = trace s.2 ++ evs ∧ r = dealt evs)
  ∧ (∀ prev acc a inner σ w r s',
       split_loop fuel prev acc (SplitExecutor a inner σ, w) = (Ok r, s') →
       ∃ evs, trace s'.2 = trace w ++ evs ∧ r = acc ++ dealt evs).
Proof.
  induction fuel as [|fuel [IHe IHl]]; [by split|]. split.
  - intros d [ex w] r [ex' w'] E. destruct ex as [a|a|a inner σ]; [done| |].
    + apply execute_simulator_Ok in E as (self' & w1 & E & [= -> ->]).
      apply simulator_execute_Ok in E
        as (c & t0 & t1 & a' & x & evs & _ & _ & _ & _ & _ & Etr & _ & -> & _ & _).
      eexists. split; [exact Etr|].
      by rewrite dealt_app, dealt_bar_close, app_nil_r.
    + rewrite execute_split in E.
      apply bind_Ok in E as ([] & s1 & E1 & E).
      apply bind_Ok in E as ([] & s2 & E2 & E).
      apply on_self_Ok in E1
        as (self1 & w1 & (c & Ec & [= -> ->])%self_calendar_step_Ok & ->).
      cbn [with_attrs] in E2.
      apply _init_sub_trading_Ok in E2
        as (t0 & t1 & bars & σa & h & _ & _ & -> & _ & ->).
      apply bind_Ok in E as (r1 & s3 & E3 & E).
      apply IHl in E3 as (evs & Etr & ->).
      apply bind_Ok in E as ([] & s4 & E4 & [-> Es]%ret_Ok). subst s4.
      destruct s3 as [ex3 w3]. apply close_outer_bar_Ok in E4.
      cbn [trace snd] in *.
      destruct (trade_account (attrs ex3)) as [v|].
      * destruct E4 as (a' & t0' & t1' & x & w4 & _ & _ & _ & Etr' & [= _ ->]).
        eexists. split; [by rewrite Etr', Etr, <-!(assoc_L (++))|].
        rewrite !dealt_app, dealt_bar_close. cbn. by rewrite app_nil_r.
      * injection E4 as _ ->. eexists. split; [by rewrite Etr, <-(assoc_L (++))|].
        by rewrite dealt_app.
  - intros prev acc a inner σ w r s' E. rewrite split_loop_S in E.
    apply bind_Ok in E as (fin & s1 & E1 & E).
    apply on_inner_finished_Ok in E1 as [-> ->].
    destruct (calendar_finished (calendar (attrs inner))).
    { apply ret_Ok in E as [-> ->]. exists []. by rewrite !app_nil_r. }
    apply bind_Ok in E as (d & s1 & E1 & E).
    apply ask_inner_strategy_Ok in E1 as (σa & h & -> & Eg & ->).
    apply bind_Ok in E as (r1 & s2 & E2 & E).
    apply on_inner_Ok in E2 as (inner2 & w2 & E2 & ->).
    apply IHe in E2 as (evs1 & Etr1 & ->).
    apply IHl in E as (evs2 & Etr2 & ->).
    cbn [trace snd] in *. eexists. split.
    { by rewrite Etr2, Etr1, <-!(assoc_L (++)). }
    rewrite !dealt_app. cbn. by rewrite (assoc_L (++)).
Qed.

(** X1: The result of [execute], at every level of a tree of executors, is the
    list of the deals that the exchange completed during the call, in the
    order of the calls: the split levels lose, repeat and reorder nothing. *)
Theorem execute_returns_the_deals fuel d s r s' :
  execute fuel d s = (Ok r, s') →
  ∃ evs, trace s'.2 = trace s.2 ++ evs ∧ r = dealt evs.
Proof.
  intros E. destruct (execute_dealt fuel) as [Hexecute _].
  destruct (Hexecute d s r s' E) as (evs & Ht & Hr).
  exists evs. by split.
Qed.

(** X2: However [execute] ends, with a result or an exception, it has changed
    nothing of the tree of executors but calendars, has only added to the
    record of calls, and has closed bars on accounts of executors of the
    tree only. *)
Theorem execute_changes_calendars_only fuel d s :
  let out := execute fuel d s in
  static out.2.1 = static s.1
  ∧ ∃ evs, trace out.2.2 = trace s.2 ++ evs
      ∧ ∀ ev a, ev ∈ evs → closes_bar a ev = true → VRef a ∈ accounts s.1.
Proof.
  cbn zeta. destruct (execute fuel d s) as [r s'] eqn:E.
  destruct (proj1 (execute_frames fuel) d s r s' E) as (Hs & evs & Et & F).
  split; [done|]. exists evs. split; [done|]. intros ev a Hev.
  rewrite Forall_forall in F. by apply F.
Qed.

Lemma deal_orders_exchange t order orders acc s r s' :
  deal_orders t (order :: orders) acc s = (Ok r, s') →
  ∃ x, trade_exchange s.1 = Some (VRef x).
Proof.
  cbn [deal_orders]. intros E.
  apply bind_Ok in E as (x & s1 & [Ex ->]%self_attr_Ok & E).
  apply bind_Ok in E as (xa & s1 & [-> ->]%method_Ok & _). eauto.
Qed.

(** X3: What [SimulatorExecutor.execute] needs to return: an account object in
    [trade_account], an exchange object in [trade_exchange] as soon as there
    is an order, and the attribute [trade_exchange] to report.  Without
    [trade_account] even the empty decision fails, with an [AttributeError],
    and by then the calendar has been stepped: the bar is used up. *)
Theorem simulator_execute_needs_account self w :
  (∀ fuel d r s',
     execute fuel d (SimulatorExecutor self, w) = (Ok r, s') →
     (∃ a, trade_account self = Some (VRef a))
     ∧ (d ≠ [] → ∃ x, trade_exchange self = Some (VRef x))
     ∧ (generate_report self = true → is_Some (trade_exchange self)))
  ∧ (∀ fuel c bar,
       trade_account self = None →
       calendar_step (calendar self) = Returns c →
       get_calendar_time c (get_trade_index c) = Returns bar →
       execute (S fuel) [] (SimulatorExecutor self, w)
       = (Raise (AttributeError "trade_account"),
          (SimulatorExecutor (set_calendar c self), w))).
Proof.
  split.
  - intros fuel d r s' E.
    apply execute_simulator_Ok in E as (self' & w1 & E & ->).
    pose proof E as E'.
    apply simulator_execute_Ok in E
      as (c & t0 & t1 & a & x & evs & _ & _ & _ & Ea & Ex & _).
    split_and!; [by eauto| |intros Hg; by rewrite (Ex Hg)].
    intros Hd. unfold simulator_execute in E'.
    apply bind_Ok in E' as ([] & [self1 w2] & E1 & E').
    apply self_calendar_step_Ok in E1 as (c1 & Ec & [= -> ->]).
    apply bind_Ok in E' as ([t0' t1'] & s2 & [Et ->]%self_trade_time_Ok & E').
    apply bind_Ok in E' as (r0 & s3 & Ed & _).
    destruct d as [|o d]; [done|].
    by apply deal_orders_exchange in Ed.
  - intros fuel c [t0 t1] Ha Ec Et. cbn [execute fst]. rewrite on_self_eq.
    cbn [attrs with_attrs]. unfold simulator_execute, self_calendar_step, self_trade_time.
    unfold st_bind, self_get, pure_ret, self_set, on_fst, modify, st_ret. cbn.
    rewrite Ec. cbn. rewrite Et. cbn. unfold self_attr. cbn. by rewrite Ha.
Qed.

Lemma printed_app evs1 evs2 : printed (evs1 ++ evs2) = printed evs1 ++ printed evs2.
Proof. apply omap_app. Qed.

Lemma checked_app evs1 evs2 : checked (evs1 ++ evs2) = checked evs1 ++ checked evs2.
Proof. apply omap_app. Qed.

Lemma deal_orders_prints t orders acc self w r s' :
  deal_orders t orders acc (self, w) = (Ok r, s') →
  ∃ evs, trace s'.2 = trace w ++ evs
    ∧ Forall (λ ev, of_order ev = true) evs
    ∧ Forall (λ m, message_date m = t) (printed evs)
    ∧ if verbose self
      then is_wrong <$> printed evs = (λ c, negb (is_True c.2)) <$> checked evs
      else printed evs = [].
Proof.
  revert acc w. induction orders as [|order orders IH]; intros acc w E.
  - cbn [deal_orders] in E. inv_ok E. exists []. rewrite app_nil_r.
    split_and!; [done|done|done|]. by destruct (verbose self).
  - cbn [deal_orders] in E. inv_ok E;
      (match goal with
       | E' : deal_orders _ _ _ _ = _ |- _ =>
           apply IH in E' as (evs & Et & Fo & Fd & Hp)
       end);
      cbn [trace heap snd] in Et; rewrite <-?(assoc_L (++)) in Et; cbn [app] in Et;
      (eexists; split; [exact Et|]);
      (split; [by repeat constructor|]);
      unfold printed, checked in *; cbn [omap list_omap fmap list_fmap];
      (split; [by repeat constructor|]);
      rewrite ?Heqb0, ?Heqb1 in *; cbn [fmap list_fmap snd is_wrong];
      rewrite ?Heqb; cbn [negb]; try done; by f_equal.
Qed.

(** X4: With [verbose] off [SimulatorExecutor.execute] prints nothing; with
    [verbose] on it prints one message per order of the decision, in the
    order of the decision, the warning for exactly the orders that failed
    the check, each message dated with the start of the bar. *)
Theorem simulator_execute_prints fuel d self w r s' :
  execute fuel d (SimulatorExecutor self, w) = (Ok r, s') →
  ∃ evs t0 t1,
    trace s'.2 = trace w ++ evs
    ∧ get_calendar_time (calendar (attrs s'.1)) (get_trade_index (calendar (attrs s'.1)))
      = Returns (t0, t1)
    ∧ Forall (λ m, message_date m = t0) (printed evs)
    ∧ if verbose self
      then length (printed evs) = length d
           ∧ is_wrong <$> printed evs = (λ c, negb (is_True c.2)) <$> checked evs
      else printed evs = [].
Proof.
  intros (self' & w1 & E & ->)%execute_simulator_Ok.
  unfold simulator_execute in E.
  apply bind_Ok in E as ([] & [self1 w2] & E1 & E).
  apply self_calendar_step_Ok in E1 as (c & Ec & [= -> ->]).
  apply bind_Ok in E as ([t0 t1] & s2 & [Et ->]%self_trade_time_Ok & E).
  cbn [fst calendar set_calendar] in Et.
  apply bind_Ok in E as (r0 & [self3 w3] & Ed & E).
  pose proof (deal_orders_Ok _ _ _ _ _ _ _ _ Ed) as (-> & evs' & Etr' & Ech' & _).
  apply deal_orders_prints in Ed as (evs & Etr & Fo & Fd & Hp).
  cbn [snd trace] in *.
  assert (evs' = evs) as -> by (rewrite Etr' in Etr; by apply (inj (app _)) in Etr).
  change (verbose (set_calendar c self)) with (verbose self) in Hp.
  assert (self' = set_calendar c self
          ∧ ∃ evs2, trace w1 = trace w3 ++ evs2 ∧ printed evs2 = []
              ∧ checked evs2 = []) as (-> & evs2 & Etr2 & Hp2 & Hc2).
  { inv_ok E; cbn [trace heap] in *; (split; [done|]); eexists;
      rewrite <-?(assoc_L (++)); (split; [done|done]). }
  exists (evs ++ evs2), t0, t1. cbn [attrs calendar set_calendar fst snd].
  rewrite printed_app, checked_app, Hp2, Hc2, !app_nil_r.
  split_and!; [by rewrite Etr2, Etr, (assoc_L (++))|done|done|].
  destruct (verbose self); [|done]. split; [|done].
  by rewrite <-(length_fmap is_wrong), Hp, !length_fmap, <-Ech', length_fmap.
Qed.
End ExecuteFacts.

(** ** [reset_common_infra] on a tree *)
Section Injection.
Context `{Collaborators}.

Lemma base_reset_common_infra_Ok infra self w u self' w' :
  base_reset_common_infra infra (self, w) = (Ok u, (self', w')) →
  let merged := infra ∪ default ∅ (common_infra self) in
  match infra !! "trade_account" with
  | None => self' = set_common_infra merged self ∧ w' = w
  | Some v =>
      ∃ a obj h,
        v = VRef a ∧ heap w !! a = Some obj
        ∧ let a' := fresh (dom (heap w)) in
          a' ≠ a
          ∧ self' = set_trade_account (VRef a') (set_common_infra merged self)
          ∧ account_reset a' (time_per_step self) true (<[a' := obj]> (heap w))
            = (Returns tt, h)
          ∧ w' = {| heap := h;
                    trace := trace w ++ [AccountReset a' (time_per_step self) true] |}
  end.
Proof.
  intros E merged. unfold base_reset_common_infra in E.
  apply bind_Ok in E as (old & s1 & [-> ->]%self_get_Ok & E). cbn [fst] in E.
  apply bind_Ok in E as ([] & s1 & ->%self_set_Ok & E).
  assert (match common_infra self with
          | Some m => infra ∪ m
          | None => infra
          end = merged) as Em.
  { subst merged. destruct (common_infra self); [done|]. cbn.
    by rewrite (right_id_L ∅ (∪)). }
  rewrite Em in E. clearbody merged. clear Em.
  destruct (infra !! "trade_account") as [v|] eqn:Ev.
  - apply bind_Ok in E as (v' & s1 & E1 & E).
    apply on_snd_Ok in E1 as (w1 & E1 & ->).
    apply bind_Ok in E as ([] & s1 & ->%self_set_Ok & E).
    apply bind_Ok in E as (acct & s1 & [Eacct ->]%self_attr_Ok & E).
    cbn in Eacct. injection Eacct as <-.
    apply bind_Ok in E as (a0 & s1 & [-> ->]%method_Ok & E).
    apply bind_Ok in E as (freq & s1 & [-> ->]%self_get_Ok & E).
    cbn [fst] in E.
    apply on_snd_Ok in E as (w2 & E & [= -> ->]).
    destruct v as [| | | |a]; try (by cbn in E1).
    cbn [copy_copy] in E1. destruct (heap w !! a) as [obj|] eqn:Ea; [|done].
    injection E1 as <- <-.
    apply invoke_Ok in E as (h & E & ->). cbn [heap trace] in *.
    exists a, obj, h. split_and!; try done.
    + intros Heq. pose proof (fresh_heap (heap w)) as Hf.
      rewrite Heq in Hf. congruence.
    + by destruct u.
  - by apply ret_Ok in E as [_ [= <- <-]].
Qed.

Lemma own_reset_common_infra_Ok ex infra w u self' w' :
  (match ex with
   | BaseExecutor _ => base_reset_common_infra infra
   | SimulatorExecutor _ => simulator_reset_common_infra infra
   | SplitExecutor _ _ _ => split_reset_common_infra infra
   end) (attrs ex, w) = (Ok u, (self', w')) →
  injected_level infra ex (with_attrs self' ex)
  ∧ trace w' = trace w ++ (if infra !! "trade_account" is Some _
                           then account_resets (with_attrs self' (BaseExecutor self'))
                           else [])
  ∧ (infra !! "trade_account" = None → w' = w).
Proof.
  intros E.
  assert (∃ self1,
    base_reset_common_infra infra (attrs ex, w) = (Ok tt, (self1, w'))
    ∧ self' = match infra !! "trade_exchange" with
              | Some x => if takes_exchange ex then set_trade_exchange x self1 else self1
              | None => self1
              end) as (self1 & E1 & ->).
  { destruct ex as [a|a|a inner σ]; cbn [attrs takes_exchange] in *.
    - destruct u. exists self'. split; [done|]. by destruct (infra !! "trade_exchange").
    - unfold simulator_reset_common_infra in E.
      apply bind_Ok in E as ([] & [self1 w1] & E1 & E). exists self1.
      destruct (infra !! "trade_exchange").
      + apply self_set_Ok in E as [= <- <-]. done.
      + apply ret_Ok in E as [_ [= <- <-]]. done.
    - unfold split_reset_common_infra in E.
      apply bind_Ok in E as ([] & [self1 w1] & E1 & E). exists self1.
      apply bind_Ok in E as (g & s1 & [-> ->]%self_get_Ok & E). cbn [fst] in E.
      pose proof (base_reset_common_infra_Ok _ _ _ _ _ _ E1) as Hb. cbn zeta in Hb.
      assert (generate_report self1 = generate_report a) as Hg.
      { destruct (infra !! "trade_account").
        - destruct Hb as (? & ? & ? & _ & _ & _ & -> & _). done.
        - destruct Hb as [-> _]. done. }
      rewrite Hg in E. destruct (infra !! "trade_exchange").
      + destruct (generate_report a).
        * apply self_set_Ok in E as [= <- <-]. done.
        * apply ret_Ok in E as [_ [= <- <-]]. done.
      + apply ret_Ok in E as [_ [= <- <-]]. done. }
  apply base_reset_common_infra_Ok in E1. cbn zeta in E1.
  unfold injected_level. rewrite attrs_with_attrs.
  destruct (infra !! "trade_account") as [v|].
  - destruct E1 as (a & obj & h & -> & Ha & Hne & -> & Er & ->).
    split; [|split; [|done]].
    + destruct (infra !! "trade_exchange"); [destruct (takes_exchange ex)|];
        cbn; split_and!; try done; eexists; (split; [done|congruence]).
    + cbn [trace]. f_equal. unfold account_resets. cbn.
      by destruct (infra !! "trade_exchange"); [destruct (takes_exchange ex)|].
  - destruct E1 as [-> ->]. rewrite app_nil_r. split; [|done].
    destruct (infra !! "trade_exchange"); [destruct (takes_exchange ex)|];
      cbn; split_and!; done.
Qed.

Lemma reset_common_infra_at_Ok infra ex : ∀ w u ex' w',
  reset_common_infra_at ex infra w = (Ok u, (ex', w')) →
  Forall2 (injected_level infra) (levels ex) (levels ex')
  ∧ ∃ σs, strategies ex = VRef <$> σs ∧ strategies ex' = VRef <$> σs
      ∧ trace w'
        = trace w
          ++ (if infra !! "trade_account" is Some _ then account_resets ex' else [])
          ++ ((λ σ, StrategyResetCommonInfra σ infra) <$> reverse σs).
Proof.
  induction ex as [a|a|a inner IH σ]; intros w u ex' w' E;
    cbn [reset_common_infra_at] in E.
  - destruct (base_reset_common_infra infra (a, w)) as [r [self1 w1]] eqn:E1.
    injection E as -> <- <-.
    apply (own_reset_common_infra_Ok (BaseExecutor a)) in E1 as (Hl & Ht & _).
    split; [constructor; [done|constructor]|]. exists []. cbn. rewrite app_nil_r.
    split_and!; [done|done|]. rewrite Ht. by destruct (infra !! "trade_account").
  - destruct (simulator_reset_common_infra infra (a, w)) as [r [self1 w1]] eqn:E1.
    injection E as -> <- <-.
    apply (own_reset_common_infra_Ok (SimulatorExecutor a)) in E1 as (Hl & Ht & _).
    split; [constructor; [done|constructor]|]. exists []. cbn. rewrite app_nil_r.
    split_and!; [done|done|]. rewrite Ht. by destruct (infra !! "trade_account").
  - destruct (split_reset_common_infra infra (a, w)) as [r1 [self1 w1]] eqn:E1.
    destruct r1 as [[]| |]; [|by injection E..].
    destruct (reset_common_infra_at inner infra w1) as [r2 [inner1 w2]] eqn:E2.
    destruct r2 as [[]| |]; [|by injection E..].
    apply (own_reset_common_infra_Ok (SplitExecutor a inner σ)) in E1 as (Hl & Ht & _).
    apply IH in E2 as (Hls & σs & Hσ & Hσ' & Ht2).
    destruct (st_bind _ _ w2) as [r3 w3] eqn:E3.
    injection E as -> <- <-.
    apply bind_Ok in E3 as (σa & s1 & [-> ->]%method_Ok & E3).
    apply invoke_Ok in E3 as (h & E3 & ->). cbn [trace].
    split.
    { cbn [levels]. constructor; [|done]. unfold injected_level in *.
      cbn [attrs with_attrs takes_exchange] in *. done. }
    exists (σa :: σs). cbn [strategies fmap list_fmap]. rewrite Hσ, Hσ'.
    split_and!; [done|done|].
    rewrite reverse_cons, fmap_app. cbn [fmap list_fmap].
    rewrite Ht2, Ht. rewrite <-!(assoc_L (++)). f_equal.
    destruct (infra !! "trade_account"); [|done].
    unfold account_resets. cbn [levels omap list_omap attrs with_attrs].
    destruct (trade_account self1) as [[| | | |c]|]; cbn; done.
Qed.

(** X5: [reset_common_infra] on a tree of executors, when it returns, has
    reached every level: each executor holds the given entries in its
    [common_infra] (new entries win over old ones), has [trade_exchange]
    rebound if the key is given and its class takes it, and, if
    "trade_account" is given, holds an account object of its own, other than
    the one given, on which [reset] was called with the frequency of the
    level; the inner strategy of every split executor was handed the same
    entries.  Accounts are reset from the outermost level inwards, the
    strategies are reached afterwards, from the innermost outwards.  Nothing
    else of the executors has changed. *)
Theorem reset_common_infra_reaches_every_level infra ex w u ex' w' :
  reset_common_infra infra (ex, w) = (Ok u, (ex', w')) →
  Forall2 (injected_level infra) (levels ex) (levels ex')
  ∧ ∃ σs, strategies ex = VRef <$> σs ∧ strategies ex' = VRef <$> σs
      ∧ trace w'
        = trace w
          ++ (if infra !! "trade_account" is Some _ then account_resets ex' else [])
          ++ ((λ σ, StrategyResetCommonInfra σ infra) <$> reverse σs).
Proof.
  intros E. cbn [reset_common_infra] in E.
  destruct (reset_common_infra_at_Ok infra ex w u ex' w' E) as (Hl & σs & Hσ & Hσ' & Ht).
  split; [exact Hl|]. exists σs. by split_and!.
Qed.
End Injection.

(** ** The constructors *)
Section ConstructorFacts.
Context `{Collaborators}.

Lemma construct_Ok self init w ex w' :
  construct self init w = (Ok ex, w') ↔ ∃ u, init (self, w) = (Ok u, (ex, w')).
Proof.
  unfold construct. destruct (init (self, w)) as [[u| |] [ex1 w1]]; split;
    try (by inversion 1); try (by intros [? ?]).
  - intros [= -> ->]. eauto.
  - intros [u' [= _ -> ->]]. done.
Qed.

Lemma BaseExecutor__init___Ok st et td infra ex w u s' :
  BaseExecutor__init__ st et td infra (ex, w) = (Ok u, s') →
  ∃ bars,
    calendar_bars (time_per_step (attrs ex)) st et = Returns bars
    ∧ reset_common_infra infra
        (at_window (with_attrs (set_track_data td (attrs ex)) ex) bars, w)
      = (Ok u, s').
Proof.
  unfold BaseExecutor__init__, reset. rewrite lookup_insert_eq.
  rewrite bool_decide_eq_true_2 by eauto. cbn [orb].
  unfold dict_get. rewrite lookup_insert_eq, lookup_insert_ne by done.
  rewrite lookup_insert_eq. cbn [default]. intros E.
  apply bind_Ok in E as ([] & s1 & E1 & E).
  apply on_self_Ok in E1 as (a1 & w1 & [= -> ->]%self_set_Ok & ->).
  apply bind_Ok in E as ([] & s2 & E2 & E).
  apply bind_Ok in E2 as (freq & s3 & E3 & E2).
  apply on_self_Ok in E3 as (a3 & w3 & [-> [= -> ->]]%self_get_Ok & ->).
  cbn [fst] in E2. rewrite with_attrs_attrs in E2.
  apply bind_Ok in E2 as (c & s4 & [Ec ->]%pure_ret_Ok & E2).
  apply on_self_Ok in E2 as (a4 & w4 & [= -> ->]%self_set_Ok & ->).
  unfold new_calendar in Ec. rewrite attrs_with_attrs in *.
  change (time_per_step (set_track_data td (attrs ex))) with (time_per_step (attrs ex)) in *.
  unfold id in Ec.
  destruct (calendar_bars (time_per_step (attrs ex)) st et) as [bars|] eqn:Eb; [|done].
  injection Ec as <-. exists bars. split; [done|].
  unfold at_window, window_calendar. rewrite attrs_with_attrs. exact E.
Qed.


Lemma BaseExecutor__init___Raises st et td infra ex w msg :
  calendar_bars (time_per_step (attrs ex)) st et = Raises msg →
  BaseExecutor__init__ st et td infra (ex, w)
  = (Raise (Foreign msg), (with_attrs (set_track_data td (attrs ex)) ex, w)).
Proof.
  intros Eb.
  unfold BaseExecutor__init__, reset. rewrite lookup_insert_eq.
  rewrite bool_decide_eq_true_2 by eauto. cbn [orb].
  unfold dict_get. rewrite lookup_insert_eq, lookup_insert_ne by done.
  rewrite lookup_insert_eq. cbn [default]. unfold id.
  unfold st_bind at 1. rewrite on_self_eq. cbn [self_set on_fst modify fst snd].
  unfold st_bind at 1 2 3. rewrite on_self_eq. cbn [self_get fst snd].
  rewrite with_attrs_attrs, attrs_with_attrs. unfold new_calendar.
  change (time_per_step (set_track_data td (attrs ex))) with (time_per_step (attrs ex)).
  by rewrite Eb.
Qed.

(** X6: A leaf executor that was constructed holds the arguments of the call as
    its attributes and a calendar of its frequency over the given range, at
    its first bar; its [common_infra] is the dict given; its exchange is the
    one passed as [trade_exchange] if that is not [None], and otherwise the
    one of the dict, if any; its account is an object of its own, reset for
    the frequency of the level, if the dict holds an account, and is missing
    otherwise.  The calendar is built first: a range that
    [TradeCalendarManager] refuses fails the construction before the
    account is copied or anything is called. *)
Theorem new_SimulatorExecutor_attributes tps st et x g v td infra w :
  (∀ ex w',
     new_SimulatorExecutor tps st et x g v td infra w = (Ok ex, w') →
     ∃ self bars,
       ex = SimulatorExecutor self
       ∧ calendar_bars tps st et = Returns bars
       ∧ time_per_step self = tps ∧ generate_report self = g
       ∧ verbose self = v ∧ track_data self = td
       ∧ calendar self = {| cal_freq := tps; cal_bars := bars; current_index := 0 |}
       ∧ common_infra self = Some infra
       ∧ trade_exchange self
         = (if x is VNone then infra !! "trade_exchange" else Some x)
       ∧ match infra !! "trade_account" with
         | Some acct =>
             ∃ c, trade_account self = Some (VRef c) ∧ VRef c ≠ acct
               ∧ trace w' = trace w ++ [AccountReset c tps true]
         | None => trade_account self = None ∧ w' = w
         end)
  ∧ (∀ msg,
       calendar_bars tps st et = Raises msg →
       new_SimulatorExecutor tps st et x g v td infra w = (Raise (Foreign msg), w)).
Proof.
  split.
  - intros ex w' E. unfold new_SimulatorExecutor in E.
    apply construct_Ok in E as [u E]. unfold SimulatorExecutor__init__ in E.
    apply bind_Ok in E as ([] & [ex1 w1] & E1 & E).
    apply BaseExecutor__init___Ok in E1 as (bars & Eb & E1).
    cbn [attrs assigned time_per_step with_attrs at_window] in *.
    unfold at_window in E1. cbn [attrs with_attrs] in E1.
    cbn [reset_common_infra reset_common_infra_at] in E1.
    destruct (simulator_reset_common_infra _ _) as [r1 [self1 w2]] eqn:E2.
    injection E1 as -> <- <-.
    apply (own_reset_common_infra_Ok (SimulatorExecutor _)) in E2 as (Hl & Ht & Hw).
    unfold injected_level in Hl. cbn [attrs with_attrs takes_exchange] in Hl.
    destruct Hl as (Htps & Hg & Hv & Htd & Hc & Hci & Hx & Ha).
    cbn in Htps, Hg, Hv, Htd, Hc, Hci, Hx.
    assert (∃ self, ex = SimulatorExecutor self ∧ w' = w2
              ∧ self = (if x is VNone then self1 else set_trade_exchange x self1))
      as (self & -> & -> & Hself).
    { destruct x; [apply ret_Ok in E as [_ [= -> ->]]; by eauto|..].
      all: apply on_self_Ok in E as (a' & w3 & [= -> ->]%self_set_Ok & [= -> ->]);
        by eauto. }
    exists self, bars.
    assert (∀ y, (if infra !! "trade_exchange" is Some x0 then Some x0 else None)
                 = infra !! "trade_exchange") as Hopt by (by destruct (infra !! _)).
    rewrite (right_id_L ∅ (∪)) in Hci.
    split_and!; try done.
    1-7: destruct x; subst self; cbn; try done.
    1: by rewrite Hx; destruct (infra !! "trade_exchange").
    destruct (infra !! "trade_account") as [acct|].
    + destruct Ha as (c & Ha & Hne). exists c.
      cbn in Ha. split_and!; [by destruct x; subst self|done|].
      rewrite Ht. f_equal. unfold account_resets. cbn. rewrite Ha. by rewrite Htps.
    + cbn in Ha. rewrite app_nil_r in Ht. split; [by destruct x; subst self|].
      by apply Hw.
  - intros msg Eb. unfold new_SimulatorExecutor, construct, SimulatorExecutor__init__.
    unfold st_bind.
    by rewrite (BaseExecutor__init___Raises st et td infra
                  (SimulatorExecutor (assigned tps g v td)) w msg Eb).
Qed.


(** X7: A split executor that was constructed holds the arguments of the call as
    its attributes and a calendar of its frequency over the given range, at
    its first bar.  It holds an exchange only if it reports: then the one
    passed as [trade_exchange] if that is not [None], and otherwise the one
    of the dict, if any.  The construction hands the dict on to the inner
    executor it was given, at every level, and to the inner strategies. *)
Theorem new_SplitExecutor_attributes tps inner σ st et x g v td infra w ex w' :
  new_SplitExecutor tps inner σ st et x g v td infra w = (Ok ex, w') →
  ∃ self inner' bars σs,
    ex = SplitExecutor self inner' σ
    ∧ calendar_bars tps st et = Returns bars
    ∧ time_per_step self = tps ∧ generate_report self = g
    ∧ verbose self = v ∧ track_data self = td
    ∧ calendar self = {| cal_freq := tps; cal_bars := bars; current_index := 0 |}
    ∧ common_infra self = Some infra
    ∧ trade_exchange self
      = (if g then if x is VNone then infra !! "trade_exchange" else Some x
         else None)
    ∧ match infra !! "trade_account" with
      | Some acct => ∃ c, trade_account self = Some (VRef c) ∧ VRef c ≠ acct
      | None => trade_account self = None
      end
    ∧ Forall2 (injected_level infra) (levels inner) (levels inner')
    ∧ strategies ex = VRef <$> σs
    ∧ trace w'
      = trace w
        ++ (if infra !! "trade_account" is Some _ then account_resets ex else [])
        ++ ((λ σ, StrategyResetCommonInfra σ infra) <$> reverse σs).
Proof.
  intros E. unfold new_SplitExecutor in E.
  apply construct_Ok in E as [u E]. unfold SplitExecutor__init__ in E.
  apply bind_Ok in E as ([] & [ex1 w1] & E1 & E).
  apply BaseExecutor__init___Ok in E1 as (bars & Eb & E1).
  cbn [attrs assigned time_per_step with_attrs] in Eb.
  unfold at_window in E1. cbn [attrs with_attrs] in E1.
  apply reset_common_infra_at_Ok in E1 as (Hls & σs & Hσ & Hσ' & Ht).
  cbn [strategies] in Hσ. destruct σs as [|σa σs]; [done|].
  destruct ex1 as [?|?|self1 inner1 σ1]; [done..|].
  cbn [levels] in Hls. apply Forall2_cons in Hls as [Hl Hls].
  unfold injected_level in Hl. cbn [attrs with_attrs takes_exchange] in Hl.
  destruct Hl as (Htps & Hg & Hv & Htd & Hc & Hci & Hx & Ha).
  cbn in Htps, Hg, Hv, Htd, Hc, Hci, Hx, Ha.
  rewrite (right_id_L ∅ (∪)) in Hci.
  assert (σ1 = σ) as ->.
  { cbn in Hσ, Hσ'. congruence. }
  assert (∃ self, ex = SplitExecutor self inner1 σ ∧ w' = w1
            ∧ self = (if g && negb (if x is VNone then true else false)
                      then set_trade_exchange x self1 else self1))
    as (self & -> & -> & Hself).
  { destruct (g && _).
    - apply on_self_Ok in E as (a' & w3 & [= -> ->]%self_set_Ok & [= -> ->]).
      by eauto.
    - apply ret_Ok in E as [_ [= -> ->]]. by eauto. }
  exists self, inner1, bars, (σa :: σs).
  assert (trade_account self = trade_account self1
          ∧ time_per_step self = time_per_step self1) as [Hacc Htp].
  { subst self. by destruct (g && _). }
  split_and!; try done.
  1-6: subst self; destruct (g && _); cbn; done.
  - subst self. destruct g; cbn [andb negb].
    + destruct x; cbn; try done. rewrite Hx. by destruct (infra !! "trade_exchange").
    + rewrite Hx. by destruct (infra !! "trade_exchange").
  - rewrite Hacc. destruct (infra !! "trade_account"); [|done].
    destruct Ha as (c & -> & Hne). eauto.
  - rewrite Ht. do 2 f_equal. destruct (infra !! "trade_account"); [|done].
    unfold account_resets. cbn [levels omap list_omap attrs]. by rewrite Hacc, Htp.
Qed.

End ConstructorFacts.

(** ** The report and the exchange *)
Section ReportFacts.
Context `{Collaborators}.

Lemma get_report_rows ex : ∀ w m w',
  get_report ex w = (Ok m, w') →
  ∃ rows : list Row,
    Forall2 (λ a row, trade_account a = Some (VRef row.1.1)
                      ∧ report_label (time_per_step a) = Returns row.1.2)
      (reporting ex) rows
    ∧ m = list_to_map ((λ row : Row, (row.1.2, row.2)) <$> rows)
    ∧ trace w' = trace w ++ (reverse rows ≫= row_events).
Proof.
  assert (∀ self w label entry w',
    reading self own_report w = (Ok (label, entry), w') →
    ∃ a, trade_account self = Some (VRef a)
      ∧ report_label (time_per_step self) = Returns label
      ∧ trace w' = trace w ++ row_events (a, label, entry)) as Hown.
  { intros self w label entry w' (self' & E)%reading_Ok.
    apply own_report_Ok in E
      as (a & count & freq & rep & pos & h1 & h2 & Ea & Ep & Er & Eg & -> & -> & [= _ ->]).
    exists a. split_and!; [done| |done]. unfold report_label. by rewrite Ep. }
  unfold reporting.
  induction ex as [a|a|a inner IH σ]; intros w m w' E; cbn [get_report] in E.
  - done.
  - cbn [levels fmap list_fmap attrs].
    destruct (generate_report a) eqn:Hg.
    + apply bind_Ok in E as ([label entry] & w1 & E1 & [-> ->]%ret_Ok).
      apply Hown in E1 as (c & Ha & Hl & Ht).
      exists [(c, label, entry)]. rewrite filter_cons_True by done.
      split_and!; [by repeat constructor|done|].
      rewrite Ht. cbn. by rewrite ?app_nil_r.
    + apply ret_Ok in E as [-> ->]. exists []. rewrite filter_cons_False by congruence.
      split_and!; [constructor|done|]. cbn. by rewrite app_nil_r.
  - cbn [levels fmap list_fmap attrs].
    apply bind_Ok in E as (sub & w1 & E1 & E).
    apply IH in E1 as (rows & Hrows & -> & Ht1).
    destruct (generate_report a) eqn:Hg.
    + apply bind_Ok in E as ([label entry] & w2 & E2 & [-> ->]%ret_Ok).
      apply Hown in E2 as (c & Ha & Hl & Ht).
      exists ((c, label, entry) :: rows). rewrite filter_cons_True by done.
      split_and!; [by constructor|done|].
      rewrite Ht, Ht1, reverse_cons, bind_app, <-(assoc_L (++)). cbn.
      by rewrite ?app_nil_r.
    + apply ret_Ok in E as [-> ->]. exists rows.
      rewrite filter_cons_False by congruence. done.
Qed.

(** X8: The dict that [get_report] returns is built from one row for every level
    of the tree that reports, and from nothing else: the key of a row is the
    label of the level, its value the report and the positions of the
    level's account.  The accounts are asked from the innermost reporting
    level outwards.  Where two reporting levels have the same label, the
    outer one's row replaces the inner one's, so the dict can have fewer
    entries than there are reporting levels; the row of the outermost
    reporting level is always in it. *)
Theorem get_report_has_a_row_per_label ex w m w' :
  get_report ex w = (Ok m, w') →
  ∃ rows : list Row,
    Forall2 (λ a row, trade_account a = Some (VRef row.1.1)
                      ∧ report_label (time_per_step a) = Returns row.1.2)
      (reporting ex) rows
    ∧ m = list_to_map ((λ row : Row, (row.1.2, row.2)) <$> rows)
    ∧ trace w' = trace w ++ (reverse rows ≫= row_events)
    ∧ dom m = list_to_set ((λ row : Row, row.1.2) <$> rows)
    ∧ size m ≤ length (reporting ex)
    ∧ (∀ row, head rows = Some row → m !! row.1.2 = Some row.2).
Proof.
  intros (rows & Hrows & -> & Ht)%get_report_rows. exists rows.
  split_and!; [done..| | |].
  - rewrite dom_list_to_map_L. f_equal. rewrite <-list_fmap_compose.
    by apply list_fmap_ext.
  - rewrite (Forall2_length _ _ _ Hrows).
    clear. induction rows as [|row rows IH]; cbn.
    + by rewrite map_size_empty.
    + destruct ((list_to_map ((λ row : Row, (row.1.2, row.2)) <$> rows)
                   : gmap string (PyVal * PyVal)) !! row.1.2) eqn:El.
      * rewrite map_size_insert_Some by eauto. lia.
      * rewrite map_size_insert_None by done. lia.
  - intros row Hh. destruct rows as [|row' rows]; [done|]. injection Hh as ->.
    cbn. by rewrite lookup_insert_eq.
Qed.

(** X9: With an abstract [BaseExecutor] anywhere in the tree (it can only be the
    innermost executor), [get_report] fails with its [NotImplementedError]
    whatever the levels above are configured to report, and does so before
    any account was asked: the world is as it was. *)
Theorem get_report_abstract_inside ex w :
  concrete ex = false →
  get_report ex w
  = (Raise (NotImplementedError "get_report is not implemented!"), w).
Proof.
  induction ex as [a|a|a inner IH σ]; cbn [concrete get_report]; intros Hc.
  - done.
  - done.
  - unfold st_bind. by rewrite (IH Hc).
Qed.
End ReportFacts.

Section GetExchangeMore.
Import GetExchange.

(** X10: Apart from what [Exchange(...)] or [init_instance_by_config] may
    raise, [get_exchange] fails in exactly two cases, both with [exchange=None]:
    with a [TypeError] when no [deal_price] is passed and the configuration
    has none either, and with an [IndexError] when the [deal_price] in
    effect is the empty string.  In both it has already logged that it
    creates a new exchange. *)
Theorem get_exchange_fails_iff (C : Config) (a : Args) e :
  (get_exchange C a).2 = Failed e ↔
  exchange a = VNone
  ∧ ((effective_deal_price C a = None
      ∧ e = TypeError "'NoneType' object is not subscriptable")
     ∨ (effective_deal_price C a = Some ""
        ∧ e = IndexError "string index out of range")).
Proof.
  unfold get_exchange, effective_deal_price.
  destruct (exchange a) eqn:Ex; cbn [snd].
  2-5: split; [done|by intros [? _]].
  destruct (deal_price a) as [p|]; [|destruct (C_deal_price C) as [p|]].
  3:{ split; [intros [= <-]; by eauto|]. by intros [_ [[_ ->]|[? _]]]. }
  all: destruct p as [|c p]; cbn [dollar].
  all: try (split; [intros [= <-]; by eauto|]; by intros [_ [[? _]|[_ ->]]]).
  all: destruct (bool_decide _); (split; [done|]); by intros [_ [[? _]|[? _]]].
Qed.

(** X11: The prefixing of [deal_price] is idempotent: the [deal_price] that
    [get_exchange] hands to [Exchange], passed to [get_exchange] again with
    the other arguments unchanged, gives the same call of [Exchange].  What
    is handed over is the [deal_price] in effect or that with "$" put in
    front; the configuration is read for the arguments passed as [None]
    only, and every other argument is handed over as it is. *)
Theorem get_exchange_normalises_once (C : Config) (a : Args) log kw :
  get_exchange C a = (log, Constructed kw) →
  get_exchange C (with_deal_price (Some (x_deal_price kw)) a) = (log, Constructed kw)
  ∧ (∃ p, effective_deal_price C a = Some p
       ∧ x_deal_price kw = (if starts_with_dollar p then p else "$" +:+ p))
  ∧ x_trade_unit kw = (if trade_unit a is VNone then C_trade_unit C else trade_unit a)
  ∧ x_limit_threshold kw
    = (if limit_threshold a is VNone then C_limit_threshold C else limit_threshold a)
  ∧ (x_freq kw, x_start_time kw, x_end_time kw, x_codes kw, x_subscribe_fields kw,
     x_open_cost kw, x_close_cost kw, x_min_cost kw)
    = (freq a, start_time a, end_time a, codes a, subscribe_fields a,
       open_cost a, close_cost a, min_cost a).
Proof.
  unfold get_exchange, effective_deal_price.
  destruct (exchange a) eqn:Ex; [|done..]. cbn [with_deal_price exchange deal_price].
  rewrite Ex.
  set (dp := if deal_price a is Some p then Some p else C_deal_price C).
  destruct dp as [p|] eqn:Edp; [|done].
  destruct p as [|c p]; [done|]. cbn [dollar starts_with_dollar].
  destruct (decide (String c EmptyString = "$")) as [Hc|Hc].
  - rewrite bool_decide_eq_false_2 by (by intros ?).
    intros [= <- <-]. cbn. rewrite bool_decide_eq_false_2 by (by intros ?).
    split_and!; try done. exists (String c p). split; [done|].
    cbn. by rewrite (bool_decide_eq_true_2 _ Hc).
  - rewrite (bool_decide_eq_true_2 _ Hc).
    intros [= <- <-]. cbn. split_and!; try done. exists (String c p).
    split; [done|]. cbn. by rewrite (bool_decide_eq_false_2 _ Hc).
Qed.
End GetExchangeMore.

(** ** The inner level of a split executor *)
Section SplitFacts.
Context `{Collaborators}.

Lemma bind_eq {S A B} (m : ST S A) (k : A → ST S B) s :
  st_bind m k s
  = match m s with
    | (Ok a, s') => k a s'
    | (Raise e, s') => (Raise e, s')
    | (OutOfFuel, s') => (OutOfFuel, s')
    end.
Proof. done. Qed.

Lemma execute_split_close fuel d self inner σ w r ex' w' :
  execute fuel d (SplitExecutor self inner σ, w) = (Ok r, (ex', w')) →
  ∃ c t0 t1 bars σa h its inner1 w1,
    calendar_step (calendar self) = Returns c
    ∧ get_calendar_time c (get_trade_index c) = Returns (t0, t1)
    ∧ calendar_bars (time_per_step (attrs inner)) t0 t1 = Returns bars
    ∧ σ = VRef σa
    ∧ inner_run σa None
        (at_window inner bars,
         {| heap := h;
            trace := trace w ++ [StrategyReset σa (window_calendar inner bars) d] |})
        its (inner1, w1)
    ∧ r = concat its.*2
    ∧ ex' = SplitExecutor (set_calendar c self) inner1 σ
    ∧ match trade_account self with
      | None => w' = w1
      | Some v =>
          ∃ a x, v = VRef a
            ∧ (generate_report self = true → trade_exchange self = Some x)
            ∧ trace w' = trace w1 ++ bar_close a (generate_report self) t0 t1 x
      end.
Proof.
  destruct fuel as [|fuel]; [done|]. cbn [execute fst]. intros E.
  apply bind_Ok in E as ([] & s1 & E1 & E).
  apply on_self_Ok in E1 as (self1 & w1 & (c & Ec & [= -> ->])%self_calendar_step_Ok & ->).
  cbn [with_attrs attrs] in *.
  apply bind_Ok in E as ([] & s2 & E2 & E).
  apply _init_sub_trading_Ok in E2
    as (t0 & t1 & bars & σa & h & Et & Eb & -> & Es & ->).
  apply bind_Ok in E as (r1 & s3 & E3 & E).
  apply split_loop_Ok in E3 as (its & inner1 & w3 & Hrun & -> & -> & Hfin).
  apply bind_Ok in E as ([] & s4 & E4 & [-> Es4]%ret_Ok). subst s4.
  apply close_outer_bar_Ok in E4. cbn [attrs] in E4.
  exists c, t0, t1, bars, σa, h, its, inner1, w3.
  change (trade_account (set_calendar c self)) with (trade_account self) in E4.
  change (generate_report (set_calendar c self)) with (generate_report self) in E4.
  change (trade_exchange (set_calendar c self)) with (trade_exchange self) in E4.
  cbn [calendar set_calendar] in *.
  destruct (trade_account self) as [v|].
  - destruct E4 as (a' & t0' & t1' & x & w4 & -> & Et' & Ex & Etr & [= -> ->]).
    rewrite Et in Et'. injection Et' as <- <-.
    split_and!; try done. by exists a', x.
  - injection E4 as -> ->. split_and!; done.
Qed.

(** X12: What [SplitExecutor.execute] needs to return: a strategy object, and, if
    the executor has a [trade_account] at all, an account object and, to
    report, the attribute [trade_exchange].  The missing exchange is only
    noticed when the bar is closed, after the whole inner loop has run.
    Without a [trade_account] the bar is not closed at this level and
    nothing is called after the inner loop. *)
Theorem split_execute_needs fuel d self inner σ w r s' :
  execute fuel d (SplitExecutor self inner σ, w) = (Ok r, s') →
  (∃ σa, σ = VRef σa)
  ∧ match trade_account self with
    | Some v =>
        (∃ a, v = VRef a)
        ∧ (generate_report self = true → is_Some (trade_exchange self))
    | None =>
        ∃ evs, trace s'.2 = trace w ++ evs
          ∧ Forall (λ ev, ∀ a, closes_bar a ev = true → VRef a ∈ accounts inner) evs
    end.
Proof.
  destruct s' as [ex' w']. intros E.
  pose proof (proj1 (execute_frames fuel) _ _ _ _ E) as (_ & evs & Ht & F).
  apply execute_split_close in E
    as (c & t0 & t1 & bars & σa & h & its & inner1 & w1 & _ & _ & _ & -> & _ & _ & _ & Hc).
  split; [by eauto|]. cbn [accounts attrs fst snd] in *.
  destruct (trade_account self) as [v|].
  - destruct Hc as (a & x & -> & Hx & _). split; [by eauto|].
    intros Hg. by rewrite (Hx Hg).
  - exists evs. split; [done|]. exact F.
Qed.

Lemma reset_window_eq t0 t1 inner w :
  reset None None (<["start_time" := t0]> (<["end_time" := t1]> ∅)) (inner, w)
  = match calendar_bars (time_per_step (attrs inner)) t0 t1 with
    | Returns bars => (Ok tt, (at_window inner bars, w))
    | Raises msg => (Raise (Foreign msg), (inner, w))
    end.
Proof.
  unfold reset. rewrite lookup_insert_eq.
  rewrite bool_decide_eq_true_2 by eauto. cbn [orb].
  unfold dict_get. rewrite lookup_insert_eq, lookup_insert_ne by done.
  rewrite lookup_insert_eq. cbn [default].
  unfold new_calendar, st_bind at 1 2 3. cbn [st_ret]. rewrite on_self_eq. cbn.
  rewrite with_attrs_attrs.
  destruct (calendar_bars (time_per_step (attrs inner)) t0 t1) as [bars|msg]; cbn.
  - done.
  - by rewrite ?with_attrs_attrs.
Qed.

Lemma at_window_set_calendar c inner bars :
  at_window (with_attrs (set_calendar c (attrs inner)) inner) bars
  = at_window inner bars.
Proof. by destruct inner. Qed.

Lemma init_sub_trading_eq d a inner σ w :
  _init_sub_trading d (SplitExecutor a inner σ, w)
  = match (self_trade_time (a, w)).1 with
    | Ok (t0, t1) =>
        match calendar_bars (time_per_step (attrs inner)) t0 t1 with
        | Returns bars =>
            (do sub_level_infra <- on_inner get_level_infra;
             do strategy <- self_inner_strategy;
             do σ <- method "reset" strategy;
             on_snd (invoke (strategy_reset σ sub_level_infra d)
                       (λ _, StrategyReset σ sub_level_infra d)))
              (SplitExecutor a (at_window inner bars) σ, w)
        | Raises msg => (Raise (Foreign msg), (SplitExecutor a inner σ, w))
        end
    | Raise e => (Raise e, (SplitExecutor a inner σ, w))
    | OutOfFuel => (OutOfFuel, (SplitExecutor a inner σ, w))
    end.
Proof.
  unfold _init_sub_trading. unfold st_bind at 1.
  pose proof (on_self_trade_time_same (SplitExecutor a inner σ, w)) as Hs.
  rewrite on_self_eq in *. cbn [attrs with_attrs fst snd] in *.
  destruct (self_trade_time (a, w)) as [[[t0 t1]|e|] [a1 w1]]; cbn [fst snd] in *;
    injection Hs as -> ->; [|done..].
  unfold st_bind at 1. rewrite on_inner_eq, reset_window_eq.
  by destruct (calendar_bars (time_per_step (attrs inner)) t0 t1) as [bars|msg].
Qed.

Lemma init_sub_trading_inner_calendar d a inner σ w c :
  let inner' := with_attrs (set_calendar c (attrs inner)) inner in
  let out := _init_sub_trading d (SplitExecutor a inner σ, w) in
  let out' := _init_sub_trading d (SplitExecutor a inner' σ, w) in
  out'.1 = out.1 ∧ out'.2.2 = out.2.2 ∧ (∀ u, out.1 = Ok u → out'.2.1 = out.2.1).
Proof.
  cbn zeta. rewrite !init_sub_trading_eq.
  assert (time_per_step (attrs (with_attrs (set_calendar c (attrs inner)) inner))
          = time_per_step (attrs inner)) as -> by (by destruct inner).
  destruct (self_trade_time (a, w)).1 as [[t0 t1]|e|]; [|done..].
  destruct (calendar_bars (time_per_step (attrs inner)) t0 t1) as [bars|msg]; [|done].
  by rewrite at_window_set_calendar.
Qed.

(** X13: [SplitExecutor.execute] does not depend on the calendar that the inner
    executor has when the call is made: the inner executor is given a new
    calendar for the window of the outer bar before it is used.  With
    another inner calendar the call ends in the same way, with the same
    world, and, when it returns, with the same executors. *)
Theorem split_execute_rebuilds_inner_calendar fuel d a inner σ w c :
  let inner' := with_attrs (set_calendar c (attrs inner)) inner in
  let out := execute fuel d (SplitExecutor a inner σ, w) in
  let out' := execute fuel d (SplitExecutor a inner' σ, w) in
  out'.1 = out.1 ∧ out'.2.2 = out.2.2 ∧ (∀ r, out.1 = Ok r → out'.2.1 = out.2.1).
Proof.
  cbn zeta. destruct fuel as [|fuel]; [done|]. rewrite !execute_split.
  rewrite !(bind_eq (on_self self_calendar_step)), !on_self_eq.
  cbn [attrs with_attrs].
  destruct (self_calendar_step (a, w)) as [[[]|e|] [a1 w1]] eqn:Es; cbn [fst snd];
    [|done..].
  rewrite !(bind_eq (_init_sub_trading d)).
  pose proof (init_sub_trading_inner_calendar d a1 inner σ w1 c) as (H1 & H2 & H3).
  cbn zeta in H1, H2, H3.
  destruct (_init_sub_trading d
              (SplitExecutor a1 (with_attrs (set_calendar c (attrs inner)) inner) σ,
               w1)) as [r' s1'].
  destruct (_init_sub_trading d (SplitExecutor a1 inner σ, w1)) as [r s1].
  cbn [fst snd] in *. subst r'. destruct r as [[]|e|]; [|done..].
  specialize (H3 _ eq_refl). destruct s1, s1'. cbn [fst snd] in *. by subst.
Qed.

(** The events that close a bar on the account object [b] *)
Lemma leaf_inner_run_closes σ b prev s its s' :
  inner_run σ prev s its s' →
  ∀ ia w0, s = (SimulatorExecutor ia, w0) →
  trade_account ia = Some (VRef b) →
  ∃ evs, trace s'.2 = trace w0 ++ evs
    ∧ filter (λ ev, closes_bar b ev = true) evs
      = drop (current_index (calendar ia)) (cal_bars (calendar ia))
        ≫= λ bar, bar_close b (generate_report ia) bar.1 bar.2
                    (default VNone (trade_exchange ia)).
Proof.
  induction 1 as [prev inner w Hfin|prev inner w d h fuel r [inner2 w2] its s' Hfin Eg E1 _ IH];
    intros ia w0 [= -> ->] Ha.
  - exists []. rewrite app_nil_r. split; [done|]. cbn [attrs] in Hfin.
    unfold calendar_finished, bar_count in Hfin. apply Nat.eqb_eq in Hfin.
    by rewrite Hfin, drop_all.
  - apply execute_simulator_Ok in E1 as (self' & w1 & E1 & [= -> ->]).
    apply simulator_execute_Ok in E1
      as (c & t0 & t1 & a' & x & evs & Ec & -> & Et & Ea & Ex & Etr & _ & _ & _ & Fc).
    rewrite Ha in Ea. injection Ea as <-.
    destruct (IH _ _ eq_refl Ha) as (evs2 & Etr2 & Hf2).
    apply calendar_step_Returns in Ec as (_ & Hi & Hb & _).
    unfold get_calendar_time, get_trade_index in Et. rewrite Hi, Hb in Et. cbn in Et.
    destruct (cal_bars (calendar ia) !! current_index (calendar ia)) as [bar|] eqn:El;
      [|done].
    injection Et as ->.
    cbn [calendar set_calendar generate_report trade_exchange] in Hf2.
    rewrite Hi, Hb in Hf2.
    eexists. split.
    { rewrite Etr2, Etr. cbn [trace]. rewrite <-!(assoc_L (++)). done. }
    rewrite !filter_app, Hf2, filter_closes_bar_close.
    rewrite (filter_closes_none b evs)
      by (eapply Forall_impl; [done|]; intros ev; apply of_order_closes).
    rewrite filter_cons_False by (cbn; congruence). rewrite filter_nil. cbn [app].
    rewrite (drop_S _ _ _ El). cbn [mbind list_bind fst snd].
    f_equal. unfold bar_close. destruct (generate_report ia) eqn:Hg; [|done].
    by rewrite (Ex eq_refl).
Qed.

(** X14: During one bar of a split executor over a leaf, the account of the leaf
    is closed once for every bar of the inner calendar of the window, in the
    order of the bars and with the times of each: one [update_bar_count],
    followed when the leaf reports by one [update_bar_report]. *)
Theorem inner_account_closed_per_inner_bar fuel d self ia σ w r ex' w' b :
  execute fuel d (SplitExecutor self (SimulatorExecutor ia) σ, w)
  = (Ok r, (ex', w')) →
  trade_account ia = Some (VRef b) →
  trade_account self ≠ Some (VRef b) →
  ∃ evs c t0 t1 bars,
    trace w' = trace w ++ evs
    ∧ calendar_step (calendar self) = Returns c
    ∧ get_calendar_time c (get_trade_index c) = Returns (t0, t1)
    ∧ calendar_bars (time_per_step ia) t0 t1 = Returns bars
    ∧ filter (λ ev, closes_bar b ev = true) evs
      = bars ≫= λ bar, bar_close b (generate_report ia) bar.1 bar.2
                         (default VNone (trade_exchange ia)).
Proof.
  intros E Ha Hne.
  apply execute_split_close in E
    as (c & t0 & t1 & bars & σa & h & its & inner1 & w1 & Ec & Et & Eb & -> & Hrun
        & _ & _ & Hc).
  unfold at_window in Hrun. cbn [attrs with_attrs] in Hrun, Eb.
  eapply leaf_inner_run_closes in Hrun as (evs & Etr & Hf); [|done|exact Ha].
  cbn [trace snd calendar set_calendar window_calendar current_index cal_bars
       generate_report trade_exchange attrs drop] in *.
  destruct (trade_account self) as [v|].
  - destruct Hc as (a & x & -> & Hx & Etr').
    eexists _, c, t0, t1, bars. split_and!; [|done..|].
    { rewrite Etr', Etr, <-!(assoc_L (++)). done. }
    rewrite !filter_app, Hf, filter_cons_False by (cbn; congruence).
    rewrite filter_nil. cbn [app].
    rewrite (filter_closes_none b (bar_close _ _ _ _ _)), app_nil_r; [done|].
    unfold bar_close.
    destruct (generate_report self); repeat constructor; cbn;
      apply bool_decide_eq_false; congruence.
  - subst w1. eexists _, c, t0, t1, bars. split_and!; [|done..|].
    { rewrite Etr, <-!(assoc_L (++)). done. }
    rewrite !filter_app, Hf, filter_cons_False by (cbn; congruence).
    by rewrite filter_nil.
Qed.
End SplitFacts.

(** ** [reset] *)
Section ResetFacts.
Context `{Collaborators}.

Lemma reset_eq td kw ex w :
  reset td None kw (ex, w)
  = let ex1 := with_attrs (set_track_data (default (track_data (attrs ex)) td)
                             (attrs ex)) ex in
    if bool_decide (is_Some (kw !! "start_time"))
       || bool_decide (is_Some (kw !! "end_time"))
    then match calendar_bars (time_per_step (attrs ex))
                 (default VNone (kw !! "start_time"))
                 (default VNone (kw !! "end_time")) with
         | Returns bars =>
             (Ok tt,
              (with_attrs
                 (set_calendar {| cal_freq := time_per_step (attrs ex);
                                  cal_bars := bars; current_index := 0 |}
                    (attrs ex1)) ex, w))
         | Raises msg => (Raise (Foreign msg), (ex1, w))
         end
    else (Ok tt, (ex1, w)).
Proof.
  cbn zeta. unfold reset.
  set (ex1 := with_attrs (set_track_data (default (track_data (attrs ex)) td) (attrs ex)) ex).
  assert ((match td with
           | Some b => on_self (self_set (set_track_data b))
           | None => st_ret tt
           end) (ex, w) = (Ok tt, (ex1, w))) as E1.
  { subst ex1. destruct td as [b|]; cbn [default].
    - by rewrite on_self_eq.
    - unfold st_ret. do 2 f_equal. destruct ex as [[]|[]|[] ? ?]; done. }
  rewrite (bind_step _ _ _ _ _ E1).
  assert (attrs ex1 = set_track_data (default (track_data (attrs ex)) td) (attrs ex))
    as Ha1 by (subst ex1; apply attrs_with_attrs).
  assert (∀ a, with_attrs a ex1 = with_attrs a ex) as Hw1
    by (intros a; subst ex1; by destruct ex).
  destruct (bool_decide (is_Some (kw !! "start_time"))
            || bool_decide (is_Some (kw !! "end_time"))); [|done].
  rewrite bind_eq, (bind_eq (on_self (self_get time_per_step))), on_self_eq.
  cbn [self_get fst snd]. rewrite with_attrs_attrs, bind_eq. unfold dict_get.
  rewrite Ha1. cbn [time_per_step set_track_data]. unfold new_calendar.
  destruct (calendar_bars _ _ _) as [bars|msg]; cbn [pure_ret]; [|done].
  unfold st_ret. rewrite on_self_eq. cbn [self_set on_fst modify fst snd].
  by rewrite Hw1, Ha1.
Qed.

(** X15: [reset] without [common_infra] reaches the receiver only, and of the
    receiver only [track_data] and [calendar]: whatever it is given and
    however it ends, it calls nothing, leaves the inner executor and the
    inner strategy of a split executor as they are (a new [track_data] or
    time range is not handed down), and leaves every other attribute.
    [track_data] is rebound when it is given.  The calendar is left alone
    when neither time is given; when one is, [reset] can only return with a
    new calendar of the receiver's frequency, at its first bar, over the
    range with [None] in the place of a time that is not given. *)
Theorem reset_reaches_only_the_receiver td kw ex w :
  let out := reset td None kw (ex, w) in
  let self := attrs ex in
  let self' := attrs out.2.1 in
  out.2.2 = w
  ∧ out.2.1 = with_attrs self' ex
  ∧ set_calendar blank self'
    = set_calendar blank (set_track_data (default (track_data self) td) self)
  ∧ (kw !! "start_time" = None → kw !! "end_time" = None →
     out.1 = Ok tt ∧ calendar self' = calendar self)
  ∧ (is_Some (kw !! "start_time") ∨ is_Some (kw !! "end_time") →
     ∀ u, out.1 = Ok u →
       ∃ bars,
         calendar_bars (time_per_step self)
           (default VNone (kw !! "start_time")) (default VNone (kw !! "end_time"))
         = Returns bars
         ∧ calendar self'
           = {| cal_freq := time_per_step self; cal_bars := bars;
                current_index := 0 |}).
Proof.
  cbn zeta. rewrite reset_eq. cbn zeta.
  set (ex1 := with_attrs (set_track_data (default (track_data (attrs ex)) td) (attrs ex)) ex).
  assert (attrs ex1 = set_track_data (default (track_data (attrs ex)) td) (attrs ex))
    as Ha1 by (subst ex1; apply attrs_with_attrs).
  assert (ex1 = with_attrs (attrs ex1) ex) as Hw1
    by (subst ex1; by rewrite attrs_with_attrs).
  clearbody ex1.
  destruct (bool_decide (is_Some (kw !! "start_time"))
            || bool_decide (is_Some (kw !! "end_time"))) eqn:Hk.
  - destruct (calendar_bars _ _ _) as [bars|msg] eqn:Eb; cbn [fst snd];
      rewrite ?attrs_with_attrs, ?Ha1.
    + split_and!; try done.
      * intros E1' E2'. rewrite E1', E2' in Hk. done.
      * intros _ u _. by exists bars.
    + split_and!; try done.
      * by rewrite <-Ha1.
      * intros E1' E2'. rewrite E1', E2' in Hk. done.
  - cbn [fst snd]. rewrite Ha1. split_and!; try done.
    + by rewrite <-Ha1.
    + intros [Hs|Hs]; apply orb_false_iff in Hk as [Hk1 Hk2];
        apply bool_decide_eq_false in Hk1, Hk2; done.
Qed.
End ResetFacts.

(** ** What [collect_data] yields *)
Section YieldFacts.
Context `{Collaborators}.

Lemma tracked_sublist fuel :
  (∀ d s r s',
     execute fuel d s = (Ok r, s') →
     ∃ evs, trace s'.2 = trace s.2 ++ evs
       ∧ tracked fuel d s `sublist_of` d :: generated evs)
  ∧ (∀ prev acc a inner σ w r s',
       split_loop fuel prev acc (SplitExecutor a inner σ, w) = (Ok r, s') →
       ∃ evs, trace s'.2 = trace w ++ evs
         ∧ tracked_loop fuel prev (SplitExecutor a inner σ, w)
           `sublist_of` generated evs).
Proof.
  induction fuel as [|fuel [IHe IHl]]; [by split|]. split.
  - intros d [ex w] r [ex' w'] E. destruct ex as [a|a|a inner σ]; [done| |].
    + apply execute_simulator_Ok in E as (self' & w1 & E & [= -> ->]).
      apply simulator_execute_Ok in E
        as (c & t0 & t1 & a' & x & evs & _ & _ & _ & _ & _ & Etr & _ & _ & _ & Fo).
      eexists. split; [exact Etr|]. cbn [tracked fst attrs].
      rewrite generated_app, (of_order_generated _ Fo), generated_bar_close.
      rewrite app_nil_r. cbn [app].
      destruct (track_data a); [done|]. by apply sublist_cons, sublist_nil_l.
    + rewrite tracked_split. rewrite execute_split in E.
      apply bind_Ok in E as ([] & s1 & E1 & E).
      apply bind_Ok in E as ([] & s2 & E2 & E).
      rewrite (bind_step _ _ _ _ _ E1), E2.
      apply on_self_Ok in E1
        as (self1 & w1 & (c & Ec & [= -> ->])%self_calendar_step_Ok & ->).
      cbn [with_attrs] in E2.
      apply _init_sub_trading_Ok in E2
        as (t0 & t1 & bars & σa & h & _ & _ & -> & _ & ->).
      apply bind_Ok in E as (r1 & s3 & E3 & E).
      apply IHl in E3 as (evs & Etr & Hsub).
      apply bind_Ok in E as ([] & s4 & E4 & [_ Es]%ret_Ok). subst s4.
      destruct s3 as [ex3 w3]. apply close_outer_bar_Ok in E4.
      cbn [trace snd] in *.
      assert (∃ evs', trace w' = trace w ++ evs' ∧ generated evs' = generated evs)
        as (evs' & Etr' & Hg).
      { destruct (trade_account (attrs ex3)) as [v|].
        - destruct E4 as (a' & t0' & t1' & x & w4 & _ & _ & _ & Etr' & [= _ ->]).
          eexists. split; [by rewrite Etr', Etr, <-!(assoc_L (++))|].
          rewrite !generated_app, generated_bar_close. cbn. by rewrite app_nil_r.
        - injection E4 as _ ->. eexists. split; [by rewrite Etr, <-(assoc_L (++))|].
          by rewrite generated_app. }
      exists evs'. split; [done|]. rewrite Hg.
      destruct (track_data a); cbn [app]; [by apply sublist_skip|by apply sublist_cons].
  - intros prev acc a inner σ w r s' E. rewrite split_loop_S in E.
    rewrite tracked_loop_S.
    apply bind_Ok in E as (fin & s1 & E1 & E). rewrite E1.
    apply on_inner_finished_Ok in E1 as [-> ->].
    destruct (calendar_finished (calendar (attrs inner))).
    { apply ret_Ok in E as [-> ->]. exists []. by rewrite app_nil_r. }
    apply bind_Ok in E as (d & s1 & E1 & E). rewrite E1.
    apply ask_inner_strategy_Ok in E1 as (σa & h & -> & Eg & ->).
    apply bind_Ok in E as (r1 & s2 & E2 & E). rewrite E2.
    apply on_inner_Ok in E2 as (inner2 & w2 & E2 & ->).
    cbn [inner_state fst snd].
    apply IHe in E2 as (evs1 & Etr1 & Hs1).
    apply IHl in E as (evs2 & Etr2 & Hs2).
    cbn [trace snd] in *. eexists. split.
    { by rewrite Etr2, Etr1, <-!(assoc_L (++)). }
    rewrite !generated_app. cbn.
    change (d :: generated evs1 ++ generated evs2)
      with ((d :: generated evs1) ++ generated evs2).
    by apply sublist_app.
Qed.

(** X16: [collect_data] yields nothing of its own making: when the drained
    generator has returned, what it has yielded is, in this order, a part of
    the decision it was given followed by the decisions that the inner
    strategies generated during the call. *)
Theorem collect_data_yields_only_decisions fuel d s ys r s' :
  drain (collect_data fuel d) s = (ys, (Ok r, s')) →
  ∃ evs, trace s'.2 = trace s.2 ++ evs
    ∧ ys `sublist_of` d :: generated evs
    ∧ length ys ≤ S (length (generated evs)).
Proof.
  intros E. rewrite (proj1 (collect_data_drained fuel)) in E.
  injection E as <- E.
  destruct (proj1 (tracked_sublist fuel) d s r s' E) as (evs & Ht & Hs).
  exists evs. split_and!; [done..|].
  apply sublist_length in Hs. exact Hs.
Qed.

(** X17: [collect_data] on the abstract [BaseExecutor] yields the decision, when
    [track_data] is on, before it fails: the consumer receives one element
    and then the [NotImplementedError] of [execute]; nothing has changed. *)
Theorem collect_data_on_the_abstract_base fuel d self w :
  drain (collect_data (S fuel) d) (BaseExecutor self, w)
  = (if track_data self then [d] else [],
     (Raise (NotImplementedError "execute is not implemented!"),
      (BaseExecutor self, w))).
Proof.
  rewrite (proj1 (collect_data_drained (S fuel))). cbn [tracked execute fst attrs].
  by rewrite app_nil_r.
Qed.
End YieldFacts.

(** ** The account of the caller *)
Section CallerAccount.
Context `{Collaborators}.
Context (a : addr) (Hown : ledgers_are_own a).

Global Instance keeps_own_preorder b : PreOrder (keeps_own b).
Proof.
  split.
  - by intros s.
  - intros s1 s2 s3 [E1 F1] [E2 F2]. split; [congruence|]. intros Hne.
    rewrite F2, F1; [done..|].
    apply blank_fields in E1 as (_ & _ & _ & _ & _ & -> & _). done.
Qed.

Global Instance keeps_tree_preorder b : PreOrder (keeps_tree b).
Proof.
  split.
  - by intros s.
  - intros s1 s2 s3 [E1 F1] [E2 F2]. split; [congruence|]. intros Hne.
    rewrite F2, F1; [done..|]. by rewrite (accounts_static _ _ E1).
Qed.

Global Instance same_ledger_preorder b : PreOrder (same_ledger b).
Proof. split; [by intros w|]. intros w1 w2 w3 E1 E2. unfold same_ledger in *. congruence. Qed.

Lemma keep_invoke {A} (op : Op A) ev (self : Attrs) (w : World) :
  (trade_account self ≠ Some (VRef a) → keeps_ledger a op) →
  preserves (keeps_own a) (on_snd (invoke op ev)) (self, w).
Proof.
  intros Hop r s' E. rewrite on_snd_eq in E. unfold invoke in E.
  split.
  - destruct (op (heap w)) as [[x|msg] h]; by inversion E.
  - intros Hne. specialize (Hop Hne (heap w)).
    destruct (op (heap w)) as [[x|msg] h]; inversion E; subst; exact Hop.
Qed.

Lemma keep_print msg (s : Attrs * World) :
  preserves (keeps_own a) (on_snd (print msg)) s.
Proof. destruct s. intros r s' E. inversion E; subst. by split. Qed.

Lemma keep_getattr obj name (s : Attrs * World) :
  preserves (keeps_own a) (on_snd (getattr obj name)) s.
Proof.
  apply preserves_same; [apply _|]. destruct s as [self w].
  rewrite on_snd_eq. cbn. f_equal. unfold getattr.
  destruct obj; try done. by destruct (_ ≫= _).
Qed.

Lemma keep_set_calendar c (s : Attrs * World) :
  preserves (keeps_own a) (self_set (set_calendar c)) s.
Proof. destruct s as [self w]. intros r s' E. inversion E; subst. by split. Qed.
End CallerAccount.

Ltac keep_simple :=
  first [ apply preserves_self_attr; apply _
        | apply preserves_self_get; apply _
        | apply preserves_method; apply _
        | apply preserves_pure_ret; apply _
        | apply preserves_ret; apply _
        | apply preserves_raise; apply _
        | apply keep_getattr
        | apply keep_print
        | apply keep_set_calendar ].

Ltac keep :=
  repeat first
    [ keep_simple
    | lazymatch goal with
      | |- preserves _ (st_bind _ _) ?s =>
          let a := fresh "a" in let s1 := fresh "s" in let E := fresh "E" in
          apply preserves_bind; [apply _| |intros a s1 E; pres_inv E; try destruct s1 as [? ?]; cbn beta iota]
      | |- preserves _ (if ?b then _ else _) _ => destruct b
      | |- preserves _ (match ?x with _ => _ end) _ => destruct x
      end ].

(** An account taken from [self.trade_account] is not [a] when the account
    of [self] is not. *)
Ltac keep_call Hown :=
  apply keep_invoke; intros ?; cbn [fst] in *;
  first [ apply (own_check_order _ Hown)
        | apply (own_deal_order _ Hown); congruence
        | apply (own_update_bar_count _ Hown); congruence
        | apply (own_update_bar_report _ Hown); congruence
        | apply (own_generate_report_dataframe _ Hown); congruence
        | apply (own_get_positions _ Hown); congruence ].

Section CallerAccountExec.
Context `{Collaborators}.
Context (a : addr) (Hown : ledgers_are_own a).

Lemma keep_deal_orders t orders acc s :
  preserves (keeps_own a) (deal_orders t orders acc) s.
Proof using Type*.
  revert acc s. induction orders as [|order orders IH]; intros acc [self w].
  - by apply preserves_ret.
  - cbn [deal_orders]. keep; try apply IH; keep_call Hown.
Qed.

Lemma keep_simulator_execute d s : preserves (keeps_own a) (simulator_execute d) s.
Proof using Type*.
  destruct s as [self w]. unfold simulator_execute, self_calendar_step, self_trade_time.
  keep; try apply keep_deal_orders; keep_call Hown.
Qed.

Lemma keep_update_trade_account s : preserves (keeps_own a) _update_trade_account s.
Proof using Type*.
  destruct s as [self w]. unfold _update_trade_account, self_trade_time.
  keep; keep_call Hown.
Qed.

Lemma keep_own_report s : preserves (keeps_own a) own_report s.
Proof using Type*. destruct s as [self w]. unfold own_report. keep; keep_call Hown. Qed.

Lemma own_account_in_accounts ex v :
  trade_account (attrs ex) = Some v → v ∈ accounts ex.
Proof.
  destruct ex as [self|self|self inner σ]; cbn [accounts attrs]; intros ->;
    apply elem_of_app; left; cbn; by apply list_elem_of_here.
Qed.

Lemma tree_on_self {A} (m : M A) ex w :
  preserves (keeps_own a) m (attrs ex, w) →
  preserves (keeps_tree a) (on_self m) (ex, w).
Proof.
  intros Hm r s' E. rewrite on_self_eq in E.
  destruct (m (attrs ex, w)) as [r1 [a1 w1]] eqn:Em. inversion E; subst; clear E.
  destruct (Hm _ _ Em) as [E F]. cbn in *. split.
  - by apply static_with_attrs.
  - intros Hne. apply F. intros Ha. apply Hne.
    by apply own_account_in_accounts.
Qed.

Lemma tree_on_inner {A} (m : E A) s :
  preserves (keeps_tree a) m (inner_state s) →
  preserves (keeps_tree a) (on_inner m) s.
Proof.
  destruct s as [[self|self|self inner σ] w]; intros Hm;
    [by apply preserves_same|by apply preserves_same|].
  intros r s' E. rewrite on_inner_eq in E.
  destruct (m (inner, w)) as [r1 [i1 w1]] eqn:Em. inversion E; subst; clear E.
  destruct (Hm _ _ Em) as [E F]. cbn [inner_state fst snd] in *. split.
  - cbn. by rewrite E.
  - intros Hne. apply F. intros Hin. apply Hne. cbn.
    apply elem_of_app. by right.
Qed.

Lemma tree_quiet s s' : quiet_rel s s' → keeps_tree a s s'.
Proof. intros [E1 E2]. split; [done|]. by rewrite E2. Qed.

Lemma tree_invoke {A} (op : Op A) ev (s : Executor * World) :
  keeps_ledger a op → preserves (keeps_tree a) (on_snd (invoke op ev)) s.
Proof.
  destruct s as [ex w]. intros Hop r s' E. rewrite on_snd_eq in E. unfold invoke in E.
  specialize (Hop (heap w)).
  destruct (op (heap w)) as [[x|msg] h]; inversion E; subst; by split.
Qed.

Lemma tree_init_sub_trading d s : preserves (keeps_tree a) (_init_sub_trading d) s.
Proof using Type*.
  unfold _init_sub_trading.
  apply preserves_bind; [apply _| |intros [t0 t1] s1 E].
  { apply preserves_same; [apply _|]. apply on_self_trade_time_same. }
  apply preserves_bind; [apply _| |intros [] s2 _].
  { apply tree_on_inner. eapply preserves_weaken; [apply tree_quiet|apply quiet_reset]. }
  apply preserves_bind; [apply _| |intros c s3 _].
  { apply preserves_same; [apply _|]. apply on_inner_get_level_infra_same. }
  apply preserves_bind; [apply _| |intros x s4 _].
  { apply preserves_same; [apply _|]. apply self_inner_strategy_same. }
  apply preserves_bind; [apply _|by apply preserves_method|intros σ s5 _].
  apply tree_invoke, (own_strategy_reset _ Hown).
Qed.

Lemma tree_ask_inner_strategy prev s :
  preserves (keeps_tree a) (ask_inner_strategy prev) s.
Proof using Type*.
  unfold ask_inner_strategy.
  apply preserves_bind; [apply _| |intros x s3 _].
  { apply preserves_same; [apply _|]. apply self_inner_strategy_same. }
  apply preserves_bind; [apply _|by apply preserves_method|intros σ s4 _].
  apply preserves_bind; [apply _| |intros c s2 _].
  { apply preserves_same; [apply _|]. apply on_inner_get_level_infra_same. }
  apply tree_invoke, (own_generate_trade_decision _ Hown).
Qed.

Lemma tree_close_outer_bar s : preserves (keeps_tree a) close_outer_bar s.
Proof using Type*.
  unfold close_outer_bar.
  apply preserves_bind; [apply _| |intros acct s1 _].
  { apply preserves_same; [apply _|]. apply on_self_get_same. }
  destruct acct; [|by apply preserves_ret]. destruct s1.
  apply tree_on_self, keep_update_trade_account.
Qed.

Lemma execute_keeps_ledger fuel :
  (∀ d s, preserves (keeps_tree a) (execute fuel d) s)
  ∧ (∀ prev acc s, preserves (keeps_tree a) (split_loop fuel prev acc) s).
Proof using Type*.
  induction fuel as [|fuel [IHe IHl]].
  { split; intros; by apply preserves_fuel. }
  split.
  - intros d [ex w]. cbn [execute]. destruct ex as [self|self|self inner σ]; cbn [fst].
    + by apply preserves_raise.
    + apply tree_on_self, keep_simulator_execute.
    + apply preserves_bind; [apply _| |intros [] s1 _].
      { apply tree_on_self. unfold self_calendar_step. keep. }
      apply preserves_bind; [apply _|apply tree_init_sub_trading|intros [] s2 _].
      apply preserves_bind; [apply _|apply IHl|intros r s3 _].
      apply preserves_bind; [apply _|apply tree_close_outer_bar|intros [] s4 _].
      by apply preserves_ret.
  - intros prev acc s. cbn [split_loop].
    apply preserves_bind; [apply _| |intros fin s1 E].
    { apply preserves_same; [apply _|]. apply on_inner_finished_same. }
    destruct fin; [by apply preserves_ret|].
    apply preserves_bind; [apply _|apply tree_ask_inner_strategy|intros d s2 _].
    apply preserves_bind; [apply _| |intros r s3 _]; [|apply IHl].
    apply tree_on_inner, IHe.
Qed.

Lemma get_report_keeps_ledger ex :
  VRef a ∉ accounts ex → ∀ w, preserves (same_ledger a) (get_report ex) w.
Proof using Type*.
  assert (∀ self w, trade_account self ≠ Some (VRef a) →
            preserves (same_ledger a)
              (do '(label, entry) <- reading self own_report;
               st_ret ({[label := entry]} : gmap string (PyVal * PyVal))) w
            ∧ ∀ sub : gmap string (PyVal * PyVal),
                preserves (same_ledger a)
                  (do '(label, entry) <- reading self own_report;
                   st_ret (<[label := entry]> sub)) w) as Hown_report.
  { intros self w Hne.
    assert (preserves (same_ledger a) (reading self own_report) w) as Hr.
    { intros r w' E. unfold reading in E.
      destruct (own_report (self, w)) as [r1 [self1 w1]] eqn:E1.
      injection E as -> ->. destruct (keep_own_report _ _ _ E1) as [_ F].
      by apply F. }
    split; [|intros sub]; (apply preserves_bind; [apply _|exact Hr|]);
      intros [label entry] w1 _; by apply preserves_ret. }
  induction ex as [self|self|self inner IH σ]; intros Hne w; cbn [get_report].
  - by apply preserves_raise.
  - destruct (generate_report self); [|by apply preserves_ret].
    apply Hown_report. intros Ha. apply Hne.
    by apply (own_account_in_accounts (SimulatorExecutor self)).
  - apply preserves_bind; [apply _| |intros sub w1 _].
    + apply IH. intros Hin. apply Hne. apply elem_of_app. by right.
    + destruct (generate_report self); [|by apply preserves_ret].
      apply Hown_report. intros Ha. apply Hne.
      by apply (own_account_in_accounts (SplitExecutor self inner σ)).
Qed.
End CallerAccountExec.

Section CallerAccountCopy.
Context `{Collaborators}.
Context (a : addr) (Hown : ledgers_are_own a).

Lemma own_reset_base ex infra w u self' w' :
  (match ex with
   | BaseExecutor _ => base_reset_common_infra infra
   | SimulatorExecutor _ => simulator_reset_common_infra infra
   | SplitExecutor _ _ _ => split_reset_common_infra infra
   end) (attrs ex, w) = (Ok u, (self', w')) →
  ∃ self1,
    base_reset_common_infra infra (attrs ex, w) = (Ok tt, (self1, w'))
    ∧ trade_account self' = trade_account self1
    ∧ time_per_step self' = time_per_step self1.
Proof.
  intros E. destruct ex as [self|self|self inner σ]; cbn [attrs] in *.
  - destruct u. by exists self'.
  - unfold simulator_reset_common_infra in E.
    apply bind_Ok in E as ([] & [self1 w1] & E1 & E). exists self1.
    destruct (infra !! "trade_exchange").
    + apply self_set_Ok in E as [= -> ->]. done.
    + apply ret_Ok in E as [_ [= -> ->]]. done.
  - unfold split_reset_common_infra in E.
    apply bind_Ok in E as ([] & [self1 w1] & E1 & E). exists self1.
    apply bind_Ok in E as (g & s1 & [-> ->]%self_get_Ok & E). cbn [fst] in E.
    destruct (infra !! "trade_exchange"); [destruct (generate_report self1)|].
    + apply self_set_Ok in E as [= -> ->]. done.
    + apply ret_Ok in E as [_ [= -> ->]]. done.
    + apply ret_Ok in E as [_ [= -> ->]]. done.
Qed.

Lemma own_reset_copies ex infra w u self' w' obj :
  infra !! "trade_account" = Some (VRef a) →
  ledger (heap w) a = Some obj →
  (match ex with
   | BaseExecutor _ => base_reset_common_infra infra
   | SimulatorExecutor _ => simulator_reset_common_infra infra
   | SplitExecutor _ _ _ => split_reset_common_infra infra
   end) (attrs ex, w) = (Ok u, (self', w')) →
  ledger (heap w') a = Some obj
  ∧ holds_copy a obj (with_attrs self' ex)
  ∧ trade_account self' ≠ Some (VRef a).
Proof using Type*.
  intros Hi Ha E. apply own_reset_base in E as (self1 & E & Hacc & Htps).
  apply base_reset_common_infra_Ok in E. cbn zeta in E. rewrite Hi in E.
  destruct E as (a0 & obj0 & h & [= <-] & Ha0 & Hne & -> & Er & ->).
  unfold ledger in *. rewrite Ha in Ha0. injection Ha0 as <-.
  cbn [heap trade_account set_trade_account time_per_step set_common_infra] in *.
  pose proof (own_account_reset _ Hown _ (time_per_step (attrs ex)) true Hne
                (<[fresh (dom (heap w)) := obj]> (heap w))) as Hk.
  rewrite Er in Hk. unfold ledger in Hk. cbn [snd] in Hk.
  rewrite lookup_insert_ne in Hk by done.
  split_and!.
  - by rewrite Hk.
  - exists (fresh (dom (heap w))), (heap w), h. rewrite attrs_with_attrs, Hacc, Htps.
    unfold ledger. split_and!; [done|done|apply fresh_heap|done|done].
  - rewrite Hacc. congruence.
Qed.

Lemma reset_common_infra_at_copies infra ex : ∀ w u ex1 w1 obj,
  infra !! "trade_account" = Some (VRef a) →
  ledger (heap w) a = Some obj →
  reset_common_infra_at ex infra w = (Ok u, (ex1, w1)) →
  ledger (heap w1) a = Some obj
  ∧ Forall (holds_copy a obj) (levels ex1)
  ∧ VRef a ∉ accounts ex1.
Proof using Type*.
  induction ex as [self|self|self inner IH σ]; intros w u ex1 w1 obj Hi Ha E;
    cbn [reset_common_infra_at] in E.
  - destruct (base_reset_common_infra infra (self, w)) as [r [self1 w2]] eqn:E1.
    injection E as -> <- <-.
    apply (own_reset_copies (BaseExecutor self) _ _ _ _ _ obj) in E1
      as (Hl & Hc & Hne); [|done..].
    split_and!; [done|by repeat constructor|].
    cbn. rewrite app_nil_r. destruct (trade_account self1) as [v|]; cbn; [|set_solver].
    intros Hin%list_elem_of_singleton. congruence.
  - destruct (simulator_reset_common_infra infra (self, w)) as [r [self1 w2]] eqn:E1.
    injection E as -> <- <-.
    apply (own_reset_copies (SimulatorExecutor self) _ _ _ _ _ obj) in E1
      as (Hl & Hc & Hne); [|done..].
    split_and!; [done|by repeat constructor|].
    cbn. rewrite app_nil_r. destruct (trade_account self1) as [v|]; cbn; [|set_solver].
    intros Hin%list_elem_of_singleton. congruence.
  - destruct (split_reset_common_infra infra (self, w)) as [r1 [self1 w2]] eqn:E1.
    destruct r1 as [[]| |]; [|by injection E..].
    destruct (reset_common_infra_at inner infra w2) as [r2 [inner1 w3]] eqn:E2.
    destruct r2 as [[]| |]; [|by injection E..].
    apply (own_reset_copies (SplitExecutor self inner σ) _ _ _ _ _ obj) in E1
      as (Hl & Hc & Hne); [|done..].
    apply (IH _ _ _ _ obj Hi Hl) in E2 as (Hl2 & Hcs & Hnin).
    destruct (st_bind _ _ w3) as [r3 w4] eqn:E3.
    injection E as -> <- <-.
    apply bind_Ok in E3 as (σa & s1 & [-> ->]%method_Ok & E3).
    apply invoke_Ok in E3 as (h & E3 & ->). cbn [heap].
    pose proof (own_strategy_reset_common_infra _ Hown σa infra (heap w3)) as Hk.
    rewrite E3 in Hk. cbn [snd] in Hk.
    split_and!.
    + by rewrite Hk.
    + cbn [levels]. constructor; [|done].
      destruct Hc as (c & h1 & h2 & Hc). by exists c, h1, h2.
    + cbn [accounts attrs]. intros [Hin|Hin]%elem_of_app; [|done].
      destruct (trade_account self1) as [v|]; cbn in Hin; [|set_solver].
      apply list_elem_of_singleton in Hin. congruence.
Qed.
End CallerAccountCopy.

Section CallerAccountTheorem.
Context `{Collaborators}.

End CallerAccountTheorem.

(** ** The further properties on the small market *)

Lemma execute_returns_the_deals_witness :
  ∃ evs, trace (execute 5 decision1 split1).2.2 = trace split1.2 ++ evs
    ∧ [(VRef 6%positive, VInt 2000, VInt 5, VInt 10)] = dealt evs.
Proof.
  apply (execute_returns_the_deals 5 decision1 split1
           [(VRef 6%positive, VInt 2000, VInt 5, VInt 10)]
           (execute 5 decision1 split1).2).
  vm_compute. reflexivity.
Defined.

Lemma execute_changes_calendars_only_witness :
  let out := execute 5 decision1 split1 in
  static out.2.1 = static split1.1
  ∧ ∃ evs, trace out.2.2 = trace split1.2 ++ evs
      ∧ ∀ ev a, ev ∈ evs → closes_bar a ev = true → VRef a ∈ accounts split1.1.
Proof. exact (execute_changes_calendars_only 5 decision1 split1). Defined.

Lemma simulator_execute_needs_account_witness :
  ((∃ a, trade_account (attrs leaf1.1) = Some (VRef a))
   ∧ (decision1 ≠ [] → ∃ x, trade_exchange (attrs leaf1.1) = Some (VRef x))
   ∧ (generate_report (attrs leaf1.1) = true
      → is_Some (trade_exchange (attrs leaf1.1))))
  ∧ execute 1 [] (SimulatorExecutor (attrs0 "day" false false), world0)
    = (Raise (AttributeError "trade_account"),
       (SimulatorExecutor
          (set_calendar
             {| cal_freq := "day"; cal_bars := [(VInt 0, VInt 240); (VInt 240, VInt 480)];
                current_index := 1 |}
             (attrs0 "day" false false)), world0)).
Proof.
  split.
  - apply (proj1 (simulator_execute_needs_account (attrs leaf1.1) leaf1.2)
             1 decision1 [(VRef 6%positive, VInt 2000, VInt 5, VInt 10)]
             (execute 1 decision1 leaf1).2).
    vm_compute. reflexivity.
  - apply (proj2 (simulator_execute_needs_account (attrs0 "day" false false) world0)
             0 _ (VInt 0, VInt 240)).
    + reflexivity.
    + vm_compute. reflexivity.
    + vm_compute. reflexivity.
Defined.

Lemma simulator_execute_prints_witness :
  ∃ evs t0 t1,
    trace (execute 1 decision1 leaf2).2.2 = trace leaf2.2 ++ evs
    ∧ get_calendar_time (calendar (attrs (execute 1 decision1 leaf2).2.1))
        (get_trade_index (calendar (attrs (execute 1 decision1 leaf2).2.1)))
      = Returns (t0, t1)
    ∧ Forall (λ m, message_date m = t0) (printed evs)
    ∧ if verbose (attrs leaf2.1)
      then length (printed evs) = length decision1
           ∧ is_wrong <$> printed evs = (λ c, negb (is_True c.2)) <$> checked evs
      else printed evs = [].
Proof.
  apply (simulator_execute_prints 1 decision1 (attrs leaf2.1) leaf2.2
           [(VRef 6%positive, VInt 2000, VInt 5, VInt 10)]
           (execute 1 decision1 leaf2).2).
  vm_compute. reflexivity.
Defined.

Lemma reset_common_infra_reaches_every_level_witness :
  let ex := SplitExecutor (attrs0 "day" true true)
              (SimulatorExecutor (attrs0 "120min" true false)) (VRef 8%positive) in
  Forall2 (injected_level infra0) (levels ex) (levels split1.1)
  ∧ ∃ σs, strategies ex = VRef <$> σs ∧ strategies split1.1 = VRef <$> σs
      ∧ trace split1.2
        = trace world0
          ++ (if infra0 !! "trade_account" is Some _ then account_resets split1.1
              else [])
          ++ ((λ σ, StrategyResetCommonInfra σ infra0) <$> reverse σs).
Proof.
  apply (reset_common_infra_reaches_every_level infra0 _ world0 tt split1.1 split1.2).
  vm_compute. reflexivity.
Defined.

Lemma new_SimulatorExecutor_attributes_witness :
  ∃ self bars,
    leaf1.1 = SimulatorExecutor self
    ∧ calendar_bars "day" (VInt 0) (VInt 480) = Returns bars
    ∧ time_per_step self = "day" ∧ generate_report self = true
    ∧ verbose self = false ∧ track_data self = true
    ∧ calendar self = {| cal_freq := "day"; cal_bars := bars; current_index := 0 |}
    ∧ common_infra self = Some infra0
    ∧ trade_exchange self = infra0 !! "trade_exchange"
    ∧ match infra0 !! "trade_account" with
      | Some acct =>
          ∃ c, trade_account self = Some (VRef c) ∧ VRef c ≠ acct
            ∧ trace leaf1.2 = trace world0 ++ [AccountReset c "day" true]
      | None => trade_account self = None ∧ leaf1.2 = world0
      end.
Proof.
  apply (proj1 (new_SimulatorExecutor_attributes "day" (VInt 0) (VInt 480) VNone
                  true false true infra0 world0) leaf1.1 leaf1.2).
  vm_compute. reflexivity.
Defined.

Lemma new_SplitExecutor_attributes_witness :
  let inner := SimulatorExecutor (attrs0 "120min" true false) in
  ∃ self inner' bars σs,
    split1.1 = SplitExecutor self inner' (VRef 8%positive)
    ∧ calendar_bars "day" (VInt 0) (VInt 480) = Returns bars
    ∧ time_per_step self = "day" ∧ generate_report self = true
    ∧ verbose self = false ∧ track_data self = true
    ∧ calendar self = {| cal_freq := "day"; cal_bars := bars; current_index := 0 |}
    ∧ common_infra self = Some infra0
    ∧ trade_exchange self = infra0 !! "trade_exchange"
    ∧ match infra0 !! "trade_account" with
      | Some acct => ∃ c, trade_account self = Some (VRef c) ∧ VRef c ≠ acct
      | None => trade_account self = None
      end
    ∧ Forall2 (injected_level infra0) (levels inner) (levels inner')
    ∧ strategies split1.1 = VRef <$> σs
    ∧ trace split1.2
      = trace world0
        ++ (if infra0 !! "trade_account" is Some _ then account_resets split1.1
            else [])
        ++ ((λ σ, StrategyResetCommonInfra σ infra0) <$> reverse σs).
Proof.
  apply (new_SplitExecutor_attributes "day"
           (SimulatorExecutor (attrs0 "120min" true false)) (VRef 8%positive)
           (VInt 0) (VInt 480) VNone true false true infra0 world0
           split1.1 split1.2).
  vm_compute. reflexivity.
Defined.

Lemma get_report_has_a_row_per_label_witness :
  let out := get_report split_same.1 split_same.2 in
  let m := if out.1 is Ok m then m else ∅ in
  ∃ rows : list Row,
    Forall2 (λ a row, trade_account a = Some (VRef row.1.1)
                      ∧ report_label (time_per_step a) = Returns row.1.2)
      (reporting split_same.1) rows
    ∧ m = list_to_map ((λ row : Row, (row.1.2, row.2)) <$> rows)
    ∧ trace out.2 = trace split_same.2 ++ (reverse rows ≫= row_events)
    ∧ dom m = list_to_set ((λ row : Row, row.1.2) <$> rows)
    ∧ size m ≤ length (reporting split_same.1)
    ∧ (∀ row, head rows = Some row → m !! row.1.2 = Some row.2).
Proof.
  apply (get_report_has_a_row_per_label split_same.1 split_same.2).
  vm_compute. reflexivity.
Defined.

(** Two levels report under the same label: the dict has one entry, the one
    of the outer level, whose account is object 9. *)
Lemma get_report_same_label :
  length (reporting split_same.1) = 2
  ∧ (get_report split_same.1 split_same.2).1
    = Ok {["1day" := (VRef 10%positive, VRef 4%positive)]}.
Proof. vm_compute. done. Qed.

Lemma get_report_abstract_inside_witness :
  get_report split_base1.1 split_base1.2
  = (Raise (NotImplementedError "get_report is not implemented!"), split_base1.2).
Proof.
  apply (get_report_abstract_inside split_base1.1 split_base1.2).
  vm_compute. reflexivity.
Defined.

Lemma get_exchange_fails_iff_witness :
  (GetExchange.get_exchange GetExchange.config0
     (GetExchange.default_args VNone (Some ""))).2
  = GetExchange.Failed (IndexError "string index out of range").
Proof.
  apply (proj2 (get_exchange_fails_iff GetExchange.config0
                  (GetExchange.default_args VNone (Some "")) _)).
  split; [reflexivity|]. right. split; reflexivity.
Defined.

Lemma get_exchange_normalises_once_witness :
  let a := GetExchange.default_args VNone (Some "close") in
  let kw :=
    {| GetExchange.x_freq := VStr "day"; GetExchange.x_start_time := VNone;
       GetExchange.x_end_time := VNone; GetExchange.x_codes := VStr "all";
       GetExchange.x_deal_price := "$close";
       GetExchange.x_subscribe_fields := VNone;
       GetExchange.x_limit_threshold := VNone;
       GetExchange.x_open_cost := VInt 15; GetExchange.x_close_cost := VInt 25;
       GetExchange.x_trade_unit := VInt 100; GetExchange.x_min_cost := VInt 5 |} in
  GetExchange.get_exchange GetExchange.config0
    (GetExchange.with_deal_price (Some "$close") a)
  = (["Create new exchange"], GetExchange.Constructed kw)
  ∧ (∃ p, GetExchange.effective_deal_price GetExchange.config0 a = Some p
       ∧ "$close" = (if GetExchange.starts_with_dollar p then p else "$" +:+ p))
  ∧ VInt 100 = GetExchange.C_trade_unit GetExchange.config0
  ∧ VNone = GetExchange.C_limit_threshold GetExchange.config0
  ∧ (VStr "day", VNone, VNone, VStr "all", VNone, VInt 15, VInt 25, VInt 5)
    = (GetExchange.freq a, GetExchange.start_time a, GetExchange.end_time a,
       GetExchange.codes a, GetExchange.subscribe_fields a,
       GetExchange.open_cost a, GetExchange.close_cost a, GetExchange.min_cost a).
Proof.
  intros a kw.
  apply (get_exchange_normalises_once GetExchange.config0 a
           ["Create new exchange"] kw).
  reflexivity.
Defined.

Lemma split_execute_needs_witness :
  (∃ σa, VRef 8%positive = VRef σa)
  ∧ match trade_account (attrs split1.1) with
    | Some v =>
        (∃ a, v = VRef a)
        ∧ (generate_report (attrs split1.1) = true
           → is_Some (trade_exchange (attrs split1.1)))
    | None =>
        ∃ evs, trace (execute 5 decision1 split1).2.2 = trace split1.2 ++ evs
          ∧ Forall (λ ev, ∀ a, closes_bar a ev = true
                           → VRef a ∈ accounts (inner_state split1).1) evs
    end.
Proof.
  apply (split_execute_needs 5 decision1 (attrs split1.1) (inner_state split1).1
           (VRef 8%positive) split1.2
           [(VRef 6%positive, VInt 2000, VInt 5, VInt 10)]
           (execute 5 decision1 split1).2).
  vm_compute. reflexivity.
Defined.

Lemma split_execute_rebuilds_inner_calendar_witness :
  let a := attrs split1.1 in
  let inner := (inner_state split1).1 in
  let inner' := with_attrs (set_calendar blank (attrs inner)) inner in
  let out := execute 5 decision1 (SplitExecutor a inner (VRef 8%positive), split1.2) in
  let out' := execute 5 decision1 (SplitExecutor a inner' (VRef 8%positive), split1.2) in
  out'.1 = out.1 ∧ out'.2.2 = out.2.2 ∧ (∀ r, out.1 = Ok r → out'.2.1 = out.2.1).
Proof.
  exact (split_execute_rebuilds_inner_calendar 5 decision1 (attrs split1.1)
           (inner_state split1).1 (VRef 8%positive) split1.2 blank).
Defined.

Lemma inner_account_closed_per_inner_bar_witness :
  let ia := attrs (inner_state split1).1 in
  ∃ evs c t0 t1 bars,
    trace (execute 5 decision1 split1).2.2 = trace split1.2 ++ evs
    ∧ calendar_step (calendar (attrs split1.1)) = Returns c
    ∧ get_calendar_time c (get_trade_index c) = Returns (t0, t1)
    ∧ calendar_bars (time_per_step ia) t0 t1 = Returns bars
    ∧ filter (λ ev, closes_bar 11%positive ev = true) evs
      = bars ≫= λ bar, bar_close 11%positive (generate_report ia) bar.1 bar.2
                         (default VNone (trade_exchange ia)).
Proof.
  apply (inner_account_closed_per_inner_bar 5 decision1 (attrs split1.1)
           (attrs (inner_state split1).1) (VRef 8%positive) split1.2
           [(VRef 6%positive, VInt 2000, VInt 5, VInt 10)]
           (execute 5 decision1 split1).2.1 (execute 5 decision1 split1).2.2
           11%positive).
  - vm_compute. reflexivity.
  - vm_compute. reflexivity.
  - vm_compute. discriminate.
Defined.

Lemma reset_reaches_only_the_receiver_witness :
  let kw : gmap string PyVal := {["start_time" := VInt 240]} in
  let out := reset (Some false) None kw split1 in
  let self := attrs split1.1 in
  let self' := attrs out.2.1 in
  out.2.2 = split1.2
  ∧ out.2.1 = with_attrs self' split1.1
  ∧ set_calendar blank self'
    = set_calendar blank (set_track_data (default (track_data self) (Some false)) self)
  ∧ (kw !! "start_time" = None → kw !! "end_time" = None →
     out.1 = Ok tt ∧ calendar self' = calendar self)
  ∧ (is_Some (kw !! "start_time") ∨ is_Some (kw !! "end_time") →
     ∀ u, out.1 = Ok u →
       ∃ bars,
         calendar_bars (time_per_step self)
           (default VNone (kw !! "start_time")) (default VNone (kw !! "end_time"))
         = Returns bars
         ∧ calendar self'
           = {| cal_freq := time_per_step self; cal_bars := bars;
                current_index := 0 |}).
Proof.
  exact (reset_reaches_only_the_receiver (Some false) {["start_time" := VInt 240]}
           split1.1 split1.2).
Defined.

Lemma collect_data_yields_only_decisions_witness :
  let out := drain (collect_data 5 decision1) split1 in
  ∃ evs, trace out.2.2.2 = trace split1.2 ++ evs
    ∧ out.1 `sublist_of` decision1 :: generated evs
    ∧ length out.1 ≤ S (length (generated evs)).
Proof.
  apply (collect_data_yields_only_decisions 5 decision1 split1 _
           [(VRef 6%positive, VInt 2000, VInt 5, VInt 10)]).
  vm_compute. reflexivity.
Defined.

Lemma collect_data_on_the_abstract_base_witness :
  drain (collect_data 1 decision1) (BaseExecutor (attrs0 "day" false true), world0)
  = ([decision1],
     (Raise (NotImplementedError "execute is not implemented!"),
      (BaseExecutor (attrs0 "day" false true), world0))).
Proof.
  exact (collect_data_on_the_abstract_base 0 decision1 (attrs0 "day" false true) world0).
Defined.

(** In the market that keeps every ledger in its account object, no method
    writes to an account it is not called on or handed. *)
Lemma books_ledgers_are_own a : @ledgers_are_own Books.books a.
Proof.
  split; cbn [check_order deal_order account_reset update_bar_count
              update_bar_report generate_report_dataframe get_positions
              strategy_reset_common_infra strategy_reset generate_trade_decision
              Books.books];
    unfold keeps_ledger, ledger.
  - done.
  - intros x o acct Hne h. unfold Books.books_deal_order, or_raise.
    destruct o as [| | | |o]; try done. destruct acct as [| | | |b]; try done.
    cbn. destruct (str_attr h o "stock_id") as [stock|]; [|done]. cbn.
    destruct (int_attr h o "amount") as [amount|]; [|done]. cbn.
    destruct (int_attr h x stock) as [price|]; [|done]. cbn.
    destruct (int_attr h b "cash") as [cash|]; [|done]. cbn.
    unfold setattr. rewrite !lookup_alter_ne by congruence. done.
  - intros b freq init Hne h. unfold Books.books_account_reset, setattr.
    destruct init; cbn; by rewrite !lookup_alter_ne.
  - intros b Hne h. unfold Books.books_update_bar_count, setattr. cbn.
    by rewrite lookup_alter_ne.
  - intros b t0 t1 x Hne h. unfold Books.books_update_bar_report, setattr. cbn.
    by rewrite lookup_alter_ne.
  - done.
  - done.
  - done.
  - done.
  - intros σ c prev h. unfold sample_generate_trade_decision, or_raise.
    by destruct (attr_of h σ "order").
Qed.



(** On that market the bar buys 250 of "X" at 10: the cash, the position
    and the bar count of the inner executor's copy move, the account of the
    caller keeps its cash and has no position and no bar. *)
Lemma books_run_moves_the_copy :
  let injected := @reset_common_infra Books.books infra0 (Books.tree, Books.desk) in
  let ran := @execute Books.books 5 [VRef 6%positive] injected.2 in
  ran.1 = Ok [(VRef 6%positive, VInt 2500, VInt 0, VInt 10)]
  ∧ accounts ran.2.1 = [VRef 9%positive; VRef 10%positive]
  ∧ map_to_list <$> ledger (heap ran.2.2) 10%positive
    = Some [("cash", VInt 997500); ("freq", VStr "120min"); ("row 1", VInt 0);
            ("row 2", VInt 120); ("bar_count", VInt 2); ("position X", VInt 250)]
  ∧ map_to_list <$> ledger (heap ran.2.2) 3%positive
    = Some [("cash", VInt 1000000); ("bar_count", VInt 0)].
Proof. vm_compute. done. Qed.
